(** * Watercolor dissolution: the parameter-space engine

    A shallow embedding of [watercolor_dissolution_mcp.py] and the
    properties of its five-dimensional parameter space.

    Numbers.  The program computes with Python floats, that is IEEE 754
    binary64 with round-to-nearest-even.  The operations that IEEE 754
    defines ([+], [-], [*], [/], comparison, [sqrt], decimal literals,
    [round(x, n)]) are modelled bit for bit on [spec_float], the
    specification of binary64 in the Standard Library.  Only [math.exp]
    and [math.sin], which the C library implements and IEEE 754 does not
    pin down, have no such model.  [_softmax] is embedded on floats with
    [math.exp] as a parameter, of which the theorems assume what they
    need; [decompose_dissolution_from_description], and [_softmax] as it
    is called there, are embedded over the real numbers as well, in the
    last part of the definitions.

    Dictionaries.  Python dictionaries keep their insertion order and the
    program relies on it (ties are broken by it), so a dictionary is an
    association list in declaration order.  A state (a dictionary with
    exactly the five keys of [PARAMETER_NAMES]) is the record [point].

    Results.  Every tool returns a JSON record; a result is [Ok] with the
    record of the fields modelled here, [Error] with the error record as
    the list of its fields, or [Raises] when a Python exception leaves the
    function. *)

From Stdlib Require Import ZArith QArith Reals String Ascii List Bool Lia Lra.
From Stdlib Require Import Floats.SpecFloat.
Import ListNotations.

Close Scope R_scope.
Close Scope Q_scope.
Open Scope string_scope.
Open Scope list_scope.

(* ------------------------------------------------------------------ *)
(** ** Python strings and dictionaries *)

(** [str.lower()] on ASCII text: the letters A to Z are folded and every
    other byte is left as it is.  On text outside ASCII [str.lower()] folds
    more (U+212A KELVIN SIGN becomes k), so what depends on the folding is
    stated on the lowercased text itself, for every text. *)
Definition lower_ascii (c : ascii) : ascii :=
  let n := nat_of_ascii c in
  if andb (Nat.leb 65 n) (Nat.leb n 90) then ascii_of_nat (n + 32) else c.

Fixpoint lower (s : string) : string :=
  match s with
  | EmptyString => EmptyString
  | String c rest => String (lower_ascii c) (lower rest)
  end.

(** [term in text]: [term] occurs as a substring of [text]. *)
Fixpoint contains (term text : string) : bool :=
  orb (String.prefix term text)
      match text with
      | EmptyString => false
      | String _ rest => contains term rest
      end.

Section Dict.
Context {V : Type}.

(** [d.get(key)], [None] when the key is absent. *)
Fixpoint dict_get (d : list (string * V)) (key : string) : option V :=
  match d with
  | [] => None
  | (k, v) :: rest => if String.eqb key k then Some v else dict_get rest key
  end.

(** [d.get(key, default)] *)
Definition dict_get_default (d : list (string * V)) (key : string) (default : V) : V :=
  match dict_get d key with
  | Some v => v
  | None => default
  end.

(** [key in d] *)
Definition dict_mem (d : list (string * V)) (key : string) : bool :=
  match dict_get d key with
  | Some _ => true
  | None => false
  end.

(** [list(d.keys())] *)
Definition dict_keys (d : list (string * V)) : list string := map fst d.

(** [d.values()] *)
Definition dict_values (d : list (string * V)) : list V := map snd d.

End Dict.

(** The values that occur in the error records. *)
Inductive json : Type :=
| JStr (s : string)
| JStrs (l : list string).

Definition error_record : Type := list (string * json).

Inductive exn : Type :=
| ZeroDivisionError
| KeyError (key : string)
| OverflowError
| ValueError.

Inductive result (A : Type) : Type :=
| Ok (a : A)
| Error (e : error_record)
| Raises (x : exn).

Arguments Ok {A} a.
Arguments Error {A} e.
Arguments Raises {A} x.

(** [range(n)] *)
Definition range (n : Z) : list Z := map Z.of_nat (seq 0 (Z.to_nat n)).

(** A loop whose body may raise: the first exception ends it. *)
Fixpoint for_each {A B : Type} (body : A -> exn + B) (l : list A) : exn + list B :=
  match l with
  | [] => inr []
  | a :: rest =>
      match body a with
      | inl x => inl x
      | inr b =>
          match for_each body rest with
          | inl x => inl x
          | inr bs => inr (b :: bs)
          end
      end
  end.

(* ------------------------------------------------------------------ *)
(** ** Python floats: IEEE 754 binary64 *)

Module F64.

Definition prec : Z := 53.
Definition emax : Z := 1024.

Definition float : Type := spec_float.

Definition fadd : float -> float -> float := SFadd prec emax.
Definition fsub : float -> float -> float := SFsub prec emax.
Definition fmul : float -> float -> float := SFmul prec emax.
Definition fdiv : float -> float -> float := SFdiv prec emax.
Definition fsqrt : float -> float := SFsqrt prec emax.
Definition fabs : float -> float := SFabs.

(** [x < y], [x <= y], [x == y]: false as soon as one side is a NaN, and
    [-0.0 == 0.0]. *)
Definition flt : float -> float -> bool := SFltb.
Definition fle : float -> float -> bool := SFleb.
Definition feq : float -> float -> bool := SFeqb.

(** An integer as the operand of a division: the mantissa is the integer
    itself.  [SFdiv] normalises its operands on its own, so the quotient
    is the correctly rounded one whatever the size of the integers. *)
Definition int_operand (z : Z) : float :=
  match z with
  | Z0 => S754_zero false
  | Zpos p => S754_finite false p 0
  | Zneg p => S754_finite true p 0
  end.

(** [a / b] on two Python ints: the exact quotient rounded once;
    [ZeroDivisionError] when [b] is 0. *)
Definition int_truediv (a b : Z) : exn + float :=
  if Z.eqb b 0 then inl ZeroDivisionError
  else inr (fdiv (int_operand a) (int_operand b)).

(** [float(z)] *)
Definition of_int (z : Z) : float := binary_normalize prec emax z 0 false.

(** A decimal literal of the program text, given as the rational it
    denotes: the nearest binary64. *)
Definition lit (q : Q) : float :=
  fdiv (int_operand (Qnum q)) (int_operand (Zpos (Qden q))).

Definition inf : float := S754_infinity false.

(** The integer nearest to [num / den], ties to even ([0 <= num],
    [0 < den]). *)
Definition round_half_even (num den : Z) : Z :=
  let q := Z.div num den in
  let r := Z.modulo num den in
  match Z.compare (2 * r) den with
  | Lt => q
  | Gt => Z.succ q
  | Eq => if Z.even q then q else Z.succ q
  end.

(** [round(x, ndigits)] for [0 <= ndigits]: the exact value of [x] is
    rounded to [ndigits] decimals, ties to even, and the decimal obtained
    is read back as the nearest binary64 (CPython goes through the
    shortest-digits conversion both ways).  The sign of [x] is kept, also
    on a zero result. *)
Definition fround (x : float) (ndigits : Z) : float :=
  match x with
  | S754_finite s m e =>
      let num := (Zpos m * 10 ^ ndigits * 2 ^ (Z.max e 0))%Z in
      let den := (2 ^ (Z.max (- e) 0))%Z in
      match round_half_even num den with
      | Zpos n => fdiv (S754_finite s n 0) (int_operand (10 ^ ndigits))
      | _ => S754_zero s
      end
  | _ => x
  end.

(** [min(a, b)] and [max(a, b)] keep the first argument unless the second
    is strictly smaller (larger). *)
Definition fmin (a b : float) : float := if flt b a then b else a.
Definition fmax (a b : float) : float := if flt a b then b else a.

(** [sum(l)]: the additions from left to right, starting from the int 0. *)
Definition fsum (l : list float) : float := fold_left fadd l (S754_zero false).

(** [x ** 2], taken as the correctly rounded square.  It is the value of
    [x ** 2] where the square is finite or [x] is not: on a finite [x]
    whose square overflows Python raises OverflowError (see
    [square_raises]). *)
Definition square (x : float) : float := fmul x x.

(** [x / y] on two floats: ZeroDivisionError when [y] is a zero. *)
Definition float_truediv (x y : float) : exn + float :=
  match y with
  | S754_zero _ => inl ZeroDivisionError
  | _ => inr (fdiv x y)
  end.

(** [max(l)] on a non-empty list: the first of the largest. *)
Definition max_float (l : list float) : float :=
  match l with
  | [] => S754_zero false
  | x :: rest => fold_left fmax rest x
  end.

End F64.

Import F64.

(* ------------------------------------------------------------------ *)
(** ** The taxonomy *)

Inductive param : Type :=
| dissolution_rate
| edge_coherence
| substrate_visibility
| pigment_hydrology
| anchor_density.

Definition PARAMETER_NAMES : list param :=
  [dissolution_rate; edge_coherence; substrate_visibility; pigment_hydrology; anchor_density].

(** The dictionary key of a parameter. *)
Definition param_name (k : param) : string :=
  match k with
  | dissolution_rate => "dissolution_rate"
  | edge_coherence => "edge_coherence"
  | substrate_visibility => "substrate_visibility"
  | pigment_hydrology => "pigment_hydrology"
  | anchor_density => "anchor_density"
  end.

(** A state: one value per parameter. *)
Record point (A : Type) : Type := Point {
  at_dissolution_rate : A;
  at_edge_coherence : A;
  at_substrate_visibility : A;
  at_pigment_hydrology : A;
  at_anchor_density : A
}.

Arguments Point {A} _ _ _ _ _.
Arguments at_dissolution_rate {A} _.
Arguments at_edge_coherence {A} _.
Arguments at_substrate_visibility {A} _.
Arguments at_pigment_hydrology {A} _.
Arguments at_anchor_density {A} _.

(** [s[k]] *)
Definition get {A : Type} (s : point A) (k : param) : A :=
  match k with
  | dissolution_rate => at_dissolution_rate s
  | edge_coherence => at_edge_coherence s
  | substrate_visibility => at_substrate_visibility s
  | pigment_hydrology => at_pigment_hydrology s
  | anchor_density => at_anchor_density s
  end.

(** [{k: f(k) for k in PARAMETER_NAMES}] *)
Definition for_params {A : Type} (f : param -> A) : point A :=
  Point (f dissolution_rate) (f edge_coherence) (f substrate_visibility)
        (f pigment_hydrology) (f anchor_density).

(** [{k: f(v) for k, v in s.items()}] *)
Definition point_map {A B : Type} (f : A -> B) (s : point A) : point B :=
  for_params (fun k => f (get s k)).

(** The literals of a table, as the program text has them. *)
Definition literals : Type := point Q.

Record visual_type : Type := VisualType {
  name : string;
  center_literals : literals
}.

(** The centers of the six visual types.  [CANONICAL_STATES] and
    [ATTRACTOR_PRESETS] refer to these same dictionaries. *)
Definition editorial_wash_center : literals := (Point 0.15 0.85 0.10 0.20 0.90)%Q.
Definition contested_boundary_center : literals := (Point 0.50 0.50 0.35 0.50 0.50)%Q.
Definition full_dissolution_center : literals := (Point 0.85 0.15 0.75 0.85 0.10)%Q.
Definition ghost_impression_center : literals := (Point 0.65 0.75 0.50 0.10 0.20)%Q.
Definition substrate_emergence_center : literals := (Point 0.70 0.30 0.85 0.40 0.30)%Q.
Definition chromatic_flood_center : literals := (Point 0.90 0.20 0.50 0.95 0.15)%Q.

(** [VISUAL_TYPES]: the six types in declaration order, with their display
    name and center (the descriptive texts are not read by any operation
    below). *)
Definition VISUAL_TYPES_literals : list (string * visual_type) :=
  [ ("editorial_wash", VisualType "Editorial Wash" editorial_wash_center);
    ("contested_boundary", VisualType "Contested Boundary" contested_boundary_center);
    ("full_dissolution", VisualType "Full Dissolution" full_dissolution_center);
    ("ghost_impression", VisualType "Ghost Impression" ghost_impression_center);
    ("substrate_emergence", VisualType "Substrate Emergence" substrate_emergence_center);
    ("chromatic_flood", VisualType "Chromatic Flood" chromatic_flood_center) ].

Definition restrained_study_coordinates : literals := (Point 0.68 0.53 0.68 0.25 0.25)%Q.

(** [CANONICAL_STATES]: key and coordinates, in declaration order. *)
Definition CANONICAL_STATES_literals : list (string * literals) :=
  [ ("editorial_wash", editorial_wash_center);
    ("light_wash", (Point 0.27 0.73 0.18 0.30 0.77)%Q);
    ("contested_boundary", contested_boundary_center);
    ("ghost_impression", ghost_impression_center);
    ("advancing_dissolution", (Point 0.68 0.33 0.55 0.68 0.30)%Q);
    ("substrate_emergence", substrate_emergence_center);
    ("full_dissolution", full_dissolution_center);
    ("saturating_flood", (Point 0.88 0.18 0.63 0.90 0.13)%Q);
    ("chromatic_flood", chromatic_flood_center);
    ("restrained_study", restrained_study_coordinates) ].

(** [ATTRACTOR_PRESETS]: key and state, in declaration order. *)
Definition ATTRACTOR_PRESETS_literals : list (string * literals) :=
  [ ("editorial_discipline", editorial_wash_center);
    ("creative_tension", contested_boundary_center);
    ("painterly_freedom", full_dissolution_center);
    ("spectral_trace", ghost_impression_center);
    ("breath_of_paper", substrate_emergence_center);
    ("saturated_tide", chromatic_flood_center);
    ("balanced_study", restrained_study_coordinates) ].

(** [SUBSTRATE_TYPES]: the keys. *)
Definition SUBSTRATE_TYPES : list string :=
  ["hot_press"; "cold_press"; "rough"; "yupo"; "masa"].

(** The tables as the running program holds them: every literal is a
    binary64. *)
Definition VISUAL_TYPES : list (string * (string * point float)) :=
  map (fun '(tid, t) => (tid, (name t, point_map lit (center_literals t))))
      VISUAL_TYPES_literals.

Definition CANONICAL_STATES : list (string * point float) :=
  map (fun '(sid, c) => (sid, point_map lit c)) CANONICAL_STATES_literals.

Definition ATTRACTOR_PRESETS : list (string * point float) :=
  map (fun '(pid, c) => (pid, point_map lit c)) ATTRACTOR_PRESETS_literals.

(* ------------------------------------------------------------------ *)
(** ** Geometry *)

(** [math.sqrt(sum((a[k] - b[k]) ** 2 for k in PARAMETER_NAMES))] *)
Definition _euclidean_distance (a b : point float) : float :=
  fsqrt (fsum (map (fun k => square (fsub (get a k) (get b k))) PARAMETER_NAMES)).

(** [{k: a[k] + t * (b[k] - a[k]) for k in PARAMETER_NAMES}] *)
Definition _lerp_state (a b : point float) (t : float) : point float :=
  for_params (fun k => fadd (get a k) (fmul t (fsub (get b k) (get a k)))).

(** The scan of [VISUAL_TYPES] with the strict comparison: the first of the
    nearest types is kept. *)
Definition _nearest_visual_type (state : point float) : string * float :=
  fold_left
    (fun '(best_id, best_dist) '(tid, (_, center)) =>
       let d := _euclidean_distance state center in
       if flt d best_dist then (tid, d) else (best_id, best_dist))
    VISUAL_TYPES ("", inf).

(** The resolver of [compute_dissolution_distance] and
    [compute_dissolution_trajectory]: canonical state, then visual type,
    then attractor preset. *)
Definition _resolve (sid : string) : option (point float) :=
  if dict_mem CANONICAL_STATES sid then dict_get CANONICAL_STATES sid
  else if dict_mem VISUAL_TYPES sid then option_map snd (dict_get VISUAL_TYPES sid)
  else if dict_mem ATTRACTOR_PRESETS sid then dict_get ATTRACTOR_PRESETS sid
  else None.

(** [max(diff, key=lambda k: abs(diff[k]))]: the keys in the order of the
    dictionary, the first of the largest is kept. *)
Definition max_by_abs (diff : point float) : param :=
  fold_left
    (fun best k => if flt (fabs (get diff best)) (fabs (get diff k)) then k else best)
    (tl PARAMETER_NAMES) (hd dissolution_rate PARAMETER_NAMES).

Record distance_record : Type := DistanceRecord {
  d_id_1 : string;
  d_id_2 : string;
  d_distance : float;
  d_per_axis_difference : point float;
  d_dominant_axis : string
}.

Definition unknown_id (sid : string) : error_record :=
  [("error", JStr ("Unknown id: " ++ sid))].

Definition compute_dissolution_distance (id_1 id_2 : string) : result distance_record :=
  let s1 := _resolve id_1 in
  let s2 := _resolve id_2 in
  match s1, s2 with
  | None, _ => Error (unknown_id id_1)
  | Some _, None => Error (unknown_id id_2)
  | Some s1, Some s2 =>
      let dist := _euclidean_distance s1 s2 in
      let diff := for_params (fun k => fround (fsub (get s2 k) (get s1 k)) 4) in
      Ok {| d_id_1 := id_1;
            d_id_2 := id_2;
            d_distance := fround dist 4;
            d_per_axis_difference := diff;
            d_dominant_axis := param_name (max_by_abs diff) |}
  end.

Record trajectory_step : Type := TrajectoryStep {
  ts_step : Z;
  ts_t : float;
  ts_state : point float;
  ts_nearest_type : string;
  ts_type_distance : float
}.

Record trajectory_record : Type := TrajectoryRecord {
  tr_start_id : string;
  tr_end_id : string;
  tr_num_steps : Z;
  tr_total_distance : float;
  tr_trajectory : list trajectory_step
}.

(** The entry of the trajectory for step [i], once [t] is computed. *)
Definition trajectory_entry (start end_ : point float) (i : Z) (t : float) : trajectory_step :=
  let state := _lerp_state start end_ t in
  let '(nearest_id, nearest_dist) := _nearest_visual_type state in
  {| ts_step := i;
     ts_t := fround t 4;
     ts_state := point_map (fun v => fround v 4) state;
     ts_nearest_type := nearest_id;
     ts_type_distance := fround nearest_dist 4 |}.

(** The body of the loop of [compute_dissolution_trajectory]. *)
Definition trajectory_body (start end_ : point float) (num_steps i : Z) : exn + trajectory_step :=
  match int_truediv i num_steps with
  | inl x => inl x
  | inr t => inr (trajectory_entry start end_ i t)
  end.

Definition compute_dissolution_trajectory (start_id end_id : string) (num_steps : Z)
  : result trajectory_record :=
  let start := _resolve start_id in
  let end_ := _resolve end_id in
  match start, end_ with
  | None, _ => Error (unknown_id start_id)
  | Some _, None => Error (unknown_id end_id)
  | Some start, Some end_ =>
      match for_each (trajectory_body start end_ num_steps) (range (num_steps + 1)) with
      | inl x => Raises x
      | inr trajectory =>
          Ok {| tr_start_id := start_id;
                tr_end_id := end_id;
                tr_num_steps := num_steps;
                tr_total_distance := fround (_euclidean_distance start end_) 4;
                tr_trajectory := trajectory |}
      end
  end.

(* ------------------------------------------------------------------ *)
(** ** Intent classification *)

Definition dissolution_terms : list (string * list string) :=
  [ ("editorial_wash",
     ["editorial"; "magazine"; "controlled"; "sharp subject"; "accent"; "selective"; "subtle"; "restrained"]);
    ("contested_boundary",
     ["tension"; "between"; "both"; "neither"; "oscillat"; "coexist"; "compete"; "mural"; "boundary"; "mix"]);
    ("full_dissolution",
     ["loose"; "dissolve"; "painterly"; "watercolor"; "abstract"; "bloom"; "backrun"; "complete"]);
    ("ghost_impression",
     ["ghost"; "faded"; "blueprint"; "trace"; "skeleton"; "palimpsest"; "bleach"; "dry"; "crisp edge"]);
    ("substrate_emergence",
     ["paper"; "white space"; "negative"; "minimal"; "restraint"; "breath"; "ma "; "sparse"; "empty"]);
    ("chromatic_flood",
     ["flood"; "saturated"; "wet"; "drip"; "pour"; "expressionist"; "bold"; "vivid"; "maximum"; "intense"]) ].

Definition hydrology_terms : list (string * list string) :=
  [ ("dry", ["dry brush"; "dry"; "textured"; "broken"; "scratchy"]);
    ("controlled", ["controlled"; "even"; "smooth"; "balanced"; "standard"]);
    ("wet_on_dry", ["layered"; "crisp layer"; "hard edge layer"; "glazing"]);
    ("wet_on_wet", ["wet on wet"; "diffuse"; "merge"; "soft edge"; "bloom"]);
    ("flooding", ["flood"; "drip"; "gravity"; "pour"; "capillary"; "run"]) ].

(** The inner loop over the terms of one type: the score and the matched
    terms. *)
Definition score_terms (terms : list string) (text : string) : Z * list string :=
  fold_left
    (fun '(score, matches) term =>
       if contains term text then ((score + 1)%Z, matches ++ [term]) else (score, matches))
    terms (0%Z, []).

(** The first loop: [type_scores] and [matched_keywords] (the latter only
    has the types with a match). *)
Definition score_types (text : string) : list (string * Z) * list (string * list string) :=
  fold_left
    (fun '(type_scores, matched_keywords) '(tid, terms) =>
       let '(score, matches) := score_terms terms text in
       (type_scores ++ [(tid, score)],
        match matches with
        | [] => matched_keywords
        | _ :: _ => matched_keywords ++ [(tid, matches)]
        end))
    dissolution_terms ([], []).

(** [max(l)] on ints ([l] is not empty where the program calls it). *)
Definition max_int (l : list Z) : Z :=
  match l with
  | [] => 0%Z
  | x :: rest => fold_left (fun best y => if Z.ltb best y then y else best) rest x
  end.

(** [max(d, key=d.get)]: the first key with the largest value. *)
Definition argmax_int (d : list (string * Z)) : string :=
  match d with
  | [] => ""
  | kv :: rest =>
      fst (fold_left (fun best kv' => if Z.ltb (snd best) (snd kv') then kv' else best) rest kv)
  end.

(** The loop over the terms of one hydrology category; the [break] leaves
    this loop only. *)
Fixpoint hydrology_scan_terms (hid : string) (terms : list string) (text : string)
  (hydrology_match : string) : string :=
  match terms with
  | [] => hydrology_match
  | term :: rest =>
      if contains term text
      then (if negb (String.eqb hid "dry") then hid else "dry_brush")
      else hydrology_scan_terms hid rest text hydrology_match
  end.

(** The loop over the hydrology categories. *)
Definition detect_hydrology (text : string) : string :=
  fold_left
    (fun hydrology_match '(hid, terms) => hydrology_scan_terms hid terms text hydrology_match)
    hydrology_terms "controlled_wash".

(** [any(t in text for t in l)] *)
Definition any_in (l : list string) (text : string) : bool :=
  existsb (fun t => contains t text) l.

Definition detect_substrate (text : string) : string :=
  if any_in ["smooth"; "fine detail"; "illustration"] text then "hot_press"
  else if any_in ["rough"; "texture"; "expressive"] text then "rough"
  else if any_in ["japanese"; "sumi"; "ink wash"] text then "masa"
  else if any_in ["experimental"; "synthetic"; "yupo"] text then "yupo"
  else "cold_press".

Record classification : Type := Classification {
  primary_style : string;
  style_name : string;
  confidence : float;
  type_scores : list (string * Z);
  matched_keywords : list (string * list string);
  suggested_hydrology : string;
  suggested_substrate : string;
  center : point float
}.

(** The function on the lowercased text. *)
Definition classify_text (text : string) : result classification :=
  let '(type_scores, matched_keywords) := score_types text in
  let '(primary, confidence) :=
    if Z.eqb (max_int (dict_values type_scores)) 0
    then ("contested_boundary", lit 0.3)
    else (argmax_int type_scores,
          fmin (lit 1.0) (fdiv (of_int (max_int (dict_values type_scores))) (lit 4.0))) in
  let hydrology_match := detect_hydrology text in
  let substrate_match := detect_substrate text in
  match dict_get VISUAL_TYPES primary with
  | None => Raises (KeyError primary)
  | Some (vt_name, vt_center) =>
      Ok {| primary_style := primary;
            style_name := vt_name;
            confidence := confidence;
            type_scores := type_scores;
            matched_keywords := matched_keywords;
            suggested_hydrology := hydrology_match;
            suggested_substrate := substrate_match;
            center := vt_center |}
  end.

Definition classify_dissolution_intent (user_intent : string) : result classification :=
  classify_text (lower user_intent).

(* ------------------------------------------------------------------ *)
(** ** Parameter mapping *)

Definition intensity_scales : list (string * float) :=
  [("subtle", lit 0.6); ("moderate", lit 1.0); ("dramatic", lit 1.4)].

Definition emphasis_shifts : list (string * list (param * float)) :=
  [ ("dissolution", [(dissolution_rate, lit 0.1); (anchor_density, lit (-0.1))]);
    ("edge", [(edge_coherence, lit 0.15)]);
    ("substrate", [(substrate_visibility, lit 0.15)]);
    ("hydrology", [(pigment_hydrology, lit 0.15)]);
    ("balanced", []) ].

Definition param_eqb (a b : param) : bool := String.eqb (param_name a) (param_name b).

(** [shifts.get(k, 0.0)] *)
Fixpoint shift_of (shifts : list (param * float)) (k : param) : float :=
  match shifts with
  | [] => lit 0.0
  | (k', v) :: rest => if param_eqb k k' then v else shift_of rest k
  end.

(** The loop that applies intensity and emphasis and clamps. *)
Definition scale_shift_clamp (center : point float) (intensity_scale : float)
  (shifts : list (param * float)) : point float :=
  let midpoint := for_params (fun _ => lit 0.5) in
  for_params (fun k =>
    let deviation := fmul (fsub (get center k) (get midpoint k)) intensity_scale in
    fmax (lit 0.0) (fmin (lit 1.0) (fadd (fadd (get midpoint k) deviation) (shift_of shifts k)))).

Definition active_edge_modes (state : point float) : list string :=
  (if flt (lit 0.6) (get state edge_coherence)
   then ["architectural_hard"; "silhouette_cut"] else [])
  ++ (if andb (fle (lit 0.3) (get state edge_coherence)) (fle (get state edge_coherence) (lit 0.7))
      then ["cauliflower_backrun"; "granulation_boundary"] else [])
  ++ (if flt (get state edge_coherence) (lit 0.4)
      then ["feathered_bleed"; "wet_lift"] else []).

Definition hydrology_of (state : point float) : string :=
  if flt (get state pigment_hydrology) (lit 0.15) then "dry_brush"
  else if flt (get state pigment_hydrology) (lit 0.35) then "controlled_wash"
  else if flt (get state pigment_hydrology) (lit 0.55) then "wet_on_dry"
  else if flt (get state pigment_hydrology) (lit 0.8) then "wet_on_wet"
  else "flooding".

Definition contrast_of (state : point float) : string :=
  if flt (lit 0.7) (get state anchor_density) then "anchor_contrast"
  else if andb (flt (lit 0.8) (get state dissolution_rate))
               (flt (lit 0.8) (get state pigment_hydrology)) then "flood_flat"
  else if flt (lit 0.6) (get state dissolution_rate) then "high_key_dissolution"
  else if flt (lit 0.6) (get state substrate_visibility) then "lifted_wash"
  else "photographic_preserved".

Definition characteristics_of (state : point float) : list string :=
  [ if flt (get state dissolution_rate) (lit 0.3)
    then "photographic fidelity dominant with watercolor accents"
    else if flt (get state dissolution_rate) (lit 0.6)
    then "contested territory between photographic and painterly regimes"
    else "painterly dissolution overriding photographic source" ]
  ++ (if flt (lit 0.6) (get state edge_coherence)
      then ["sharp architectural edges persisting through dissolution"]
      else if flt (get state edge_coherence) (lit 0.3)
      then ["all edges softened into feathered bleeds and backruns"]
      else [])
  ++ (if flt (lit 0.6) (get state substrate_visibility)
      then ["paper surface breathing through as compositional element"] else [])
  ++ (if flt (lit 0.7) (get state pigment_hydrology)
      then ["wet-on-wet pigment behavior driving visual texture"]
      else if flt (get state pigment_hydrology) (lit 0.2)
      then ["dry technique preserving structural marks"]
      else [])
  ++ (if flt (lit 0.6) (get state anchor_density)
      then ["dense photographic anchors maintaining recognizability"]
      else if flt (get state anchor_density) (lit 0.2)
      then ["near-abstract with minimal fidelity anchors"]
      else []).

(** The fields of the record of [map_dissolution_parameters] that are
    computed from the state; the catalog entries copied next to them and
    the vocabulary bundle (which goes through [math.exp]) are left out. *)
Record parameters : Type := Parameters {
  mp_style_id : string;
  mp_style_name : string;
  mp_intensity : string;
  mp_emphasis : string;
  mp_state : point float;
  mp_nearest_visual_type : string;
  mp_visual_distance : float;
  mp_active_edge_modes : list string;
  mp_hydrology_state : string;
  mp_contrast_curve : string;
  mp_substrate : option string;
  mp_characteristics : list string
}.

Definition map_dissolution_parameters (style_id intensity emphasis : string)
  (substrate : option string) : result parameters :=
  match dict_get VISUAL_TYPES style_id with
  | None =>
      Error [("error", JStr ("Unknown style: " ++ style_id));
             ("valid", JStrs (dict_keys VISUAL_TYPES))]
  | Some (t_name, t_center) =>
      let intensity_scale := dict_get_default intensity_scales intensity (lit 1.0) in
      let shifts := dict_get_default emphasis_shifts emphasis [] in
      let state := scale_shift_clamp t_center intensity_scale shifts in
      let '(nearest_id, nearest_dist) := _nearest_visual_type state in
      Ok {| mp_style_id := style_id;
            mp_style_name := t_name;
            mp_intensity := intensity;
            mp_emphasis := emphasis;
            mp_state := point_map (fun v => fround v 4) state;
            mp_nearest_visual_type := nearest_id;
            mp_visual_distance := fround nearest_dist 4;
            mp_active_edge_modes := active_edge_modes state;
            mp_hydrology_state := hydrology_of state;
            mp_contrast_curve := contrast_of state;
            mp_substrate :=
              match substrate with
              | Some sub =>
                  if andb (negb (String.eqb sub "")) (existsb (String.eqb sub) SUBSTRATE_TYPES)
                  then Some sub else None
              | None => None
              end;
            mp_characteristics := characteristics_of state |}
  end.

(* ------------------------------------------------------------------ *)
(** ** Attractor prompts *)

(** The four descriptors that the prompt text is assembled from. *)
Record descriptors : Type := Descriptors {
  hydro_desc : string;
  edge_desc : string;
  sub_desc : string;
  anchor_desc : string
}.

Definition describe (state : point float) : descriptors :=
  {| hydro_desc :=
       if flt (get state pigment_hydrology) (lit 0.15)
       then "dry brush technique with broken textured marks revealing paper grain"
       else if flt (get state pigment_hydrology) (lit 0.35)
       then "controlled wash with even pigment coverage and predictable edges"
       else if flt (get state pigment_hydrology) (lit 0.55)
       then "wet-on-dry layered washes with crisp overlap boundaries"
       else if flt (get state pigment_hydrology) (lit 0.8)
       then "wet-on-wet diffusion with soft bloom formations and pigment migration"
       else "flooding technique with gravity-driven drips, capillary branching, and pigment pooling";
     edge_desc :=
       if flt (lit 0.7) (get state edge_coherence)
       then "architectural hard edges and sharp silhouette cuts persisting through dissolution"
       else if flt (lit 0.4) (get state edge_coherence)
       then "mixed edge types: cauliflower backruns alongside architectural remnants and granulation boundaries"
       else "feathered bleed edges and soft wet-lift transitions throughout";
     sub_desc :=
       if flt (lit 0.7) (get state substrate_visibility)
       then "paper surface as dominant compositional element — white ground breathing through as active negative space"
       else if flt (lit 0.35) (get state substrate_visibility)
       then "paper partially visible between wash areas, contributing to luminosity"
       else "substrate hidden beneath continuous pigment coverage";
     anchor_desc :=
       if flt (lit 0.7) (get state anchor_density)
       then "dense photographic anchors — recognizable objects maintaining sharp fidelity throughout"
       else if flt (lit 0.3) (get state anchor_density)
       then "scattered fidelity anchors — select objects retaining photographic clarity amid dissolution"
       else "minimal anchoring — near-abstract with content surviving only as color memory or vague shape" |}.

Record keyframe : Type := Keyframe {
  kf_keyframe : Z;
  kf_t : float;
  kf_state : point float;
  kf_nearest_type : string;
  kf_type_name : string
}.

(** The bundle of each mode.  The prompt text itself is a fixed template
    filled with the name, description, colors and optical labels of the
    nearest type and with the four descriptors; the category views of
    [split_view] come from the vocabulary bundle.  Both are left out. *)
Inductive prompt_bundle : Type :=
| Composite (prompt_parts : descriptors) (state : point float) (nearest_type : string)
| SplitView (base_prompt_parts : descriptors) (state : point float)
| Sequence (keyframe_count : Z) (keyframes : list keyframe).

(** The body of the loop of the [sequence] mode. *)
Definition keyframe_body (start state : point float) (keyframe_count i : Z) : exn + keyframe :=
  match int_truediv i (Z.max 1 (keyframe_count - 1)) with
  | inl x => inl x
  | inr t =>
      let kf_state := _lerp_state start state t in
      let '(kf_nearest, _) := _nearest_visual_type kf_state in
      match dict_get VISUAL_TYPES kf_nearest with
      | None => inl (KeyError kf_nearest)
      | Some (kf_vt_name, _) =>
          inr {| kf_keyframe := (i + 1)%Z;
                 kf_t := fround t 3;
                 kf_state := point_map (fun v => fround v 4) kf_state;
                 kf_nearest_type := kf_nearest;
                 kf_type_name := kf_vt_name |}
      end
  end.

(** The state that the prompt is generated for.  A [custom_state] that is
    given is a full state here, hence never an empty dictionary. *)
Definition attractor_state (attractor_id : string) (custom_state : option (point float))
  : point float :=
  match custom_state with
  | Some state => state
  | None =>
      match dict_get ATTRACTOR_PRESETS attractor_id with
      | Some state => state
      | None =>
          match dict_get VISUAL_TYPES attractor_id with
          | Some (_, state) => state
          | None =>
              match dict_get CANONICAL_STATES attractor_id with
              | Some state => state
              | None => point_map lit contested_boundary_center
              end
          end
      end
  end.

Definition generate_dissolution_attractor_prompt (attractor_id : string)
  (custom_state : option (point float)) (mode style_modifier : string) (keyframe_count : Z)
  : result prompt_bundle :=
  let state := attractor_state attractor_id custom_state in
  let '(nearest_id, nearest_dist) := _nearest_visual_type state in
  match dict_get VISUAL_TYPES nearest_id with
  | None => Raises (KeyError nearest_id)
  | Some vt =>
      let base_prompt := describe state in
      if String.eqb mode "composite" then
        Ok (Composite base_prompt (point_map (fun v => fround v 4) state) nearest_id)
      else if String.eqb mode "split_view" then
        Ok (SplitView base_prompt (point_map (fun v => fround v 4) state))
      else if String.eqb mode "sequence" then
        let start := point_map lit editorial_wash_center in
        match for_each (keyframe_body start state keyframe_count) (range keyframe_count) with
        | inl x => Raises x
        | inr keyframes => Ok (Sequence keyframe_count keyframes)
        end
      else Error [("error", JStr ("Unknown mode: " ++ mode))]
  end.

(* ------------------------------------------------------------------ *)
(** ** Softmax on floats

    [math.exp] is a parameter: a function that returns a float or raises
    (OverflowError on a large argument). *)

Section Exp.

Variable math_exp : float -> exn + float.

(** The scores are floats.  [max_s] is [0] for the empty dictionary,
    where no entry reads it. *)
Definition _softmax (scores : list (string * float)) (temperature : float)
  : exn + list (string * float) :=
  let max_s := max_float (dict_values scores) in
  match for_each (fun '(k, v) =>
                    match float_truediv (fsub v max_s) temperature with
                    | inl x => inl x
                    | inr q =>
                        match math_exp q with
                        | inl x => inl x
                        | inr y => inr (k, y)
                        end
                    end) scores with
  | inl x => inl x
  | inr exp_s =>
      let total := fsum (dict_values exp_s) in
      inr (if flt (S754_zero false) total
           then map (fun '(k, v) => (k, fdiv v total)) exp_s
           else exp_s)
  end.

End Exp.

(* ------------------------------------------------------------------ *)
(** ** Softmax and decomposition, over the real numbers

    [math.exp] is the exponential of the reals here, and so are the
    operations around it: a float is the real number it stands for, without
    rounding, overflow or NaN.  Dividing by zero still raises.  This is
    the decomposition as it runs: it calls [_softmax] at the temperature
    1.0 on scores between 0 and a few units, where [math.exp] neither
    overflows nor underflows. *)

Module Ideal.

Local Open Scope R_scope.

(** [x < y] *)
Definition rlt (x y : R) : bool := if Rlt_dec x y then true else false.

(** [max(l)] ([l] is not empty where the program calls it). *)
Definition rmax_list (l : list R) : R :=
  match l with
  | [] => 0
  | x :: rest => fold_left (fun best y => if rlt best y then y else best) rest x
  end.

(** [sum(l)] *)
Definition rsum (l : list R) : R := fold_left Rplus l 0.

(** [x / y] on floats *)
Definition rdiv (x y : R) : exn + R :=
  if Req_dec_T y 0 then inl ZeroDivisionError else inr (x / y).

(** [round(x, ndigits)]: to the nearest multiple of [10 ^ -ndigits], ties
    to even. *)
Definition rround (x : R) (ndigits : nat) : R :=
  let y := x * 10 ^ ndigits in
  let f := Zfloor y in
  let r := y - IZR f in
  IZR (if rlt r (1 / 2) then f
       else if rlt (1 / 2) r then Z.succ f
       else if Z.even f then f else Z.succ f) / 10 ^ ndigits.

Definition _softmax (scores : list (string * R)) (temperature : R) : exn + list (string * R) :=
  let max_s := match scores with [] => 0 | _ :: _ => rmax_list (dict_values scores) end in
  match for_each (fun '(k, v) =>
                    match rdiv (v - max_s) temperature with
                    | inl x => inl x
                    | inr q => inr (k, exp q)
                    end) scores with
  | inl x => inl x
  | inr exp_s =>
      let total := rsum (dict_values exp_s) in
      inr (if rlt 0 total then map (fun '(k, v) => (k, v / total)) exp_s else exp_s)
  end.

Definition fragment_map : list (string * list string) :=
  [ ("editorial_wash",
     ["editorial"; "magazine"; "controlled"; "sharp"; "accent";
      "selective"; "restrain"; "subtle"; "disciplin"; "photographic"]);
    ("contested_boundary",
     ["tension"; "between"; "neither"; "oscillat"; "coexist";
      "compete"; "boundary"; "unresolved"; "both"; "mural"]);
    ("full_dissolution",
     ["dissolv"; "loose"; "bloom"; "backrun"; "granulat";
      "diffus"; "abstract"; "painterly"; "watercolor"; "paper texture"]);
    ("ghost_impression",
     ["ghost"; "faded"; "blueprint"; "palimpsest"; "trace";
      "skeleton"; "bleach"; "dry"; "parchment"; "iron-gall"]);
    ("substrate_emergence",
     ["paper"; "white space"; "negative space"; "minimal";
      "restraint"; "breath"; "ma "; "sparse"; "empty"; "unpaint"]);
    ("chromatic_flood",
     ["flood"; "saturat"; "wet-on-wet"; "drip"; "capillary";
      "pour"; "expressionist"; "bold color"; "vivid"; "chromatic"]) ].

Definition optical_map : list (string * list string) :=
  [ ("editorial_wash", ["matte"; "opaque"; "photographic"]);
    ("contested_boundary", ["mixed"; "variable"; "halation"]);
    ("full_dissolution", ["translucent"; "diffuse"; "paper matte"]);
    ("ghost_impression", ["dry matte"; "semi transparent"; "no scatter"]);
    ("substrate_emergence", ["paper dominant"; "zero scatter"; "ground"]);
    ("chromatic_flood", ["wet satin"; "maximum scatter"; "saturated"]) ].

Definition color_map : list (string * list string) :=
  [ ("editorial_wash", ["neutral"; "muted"; "editorial"]);
    ("contested_boundary", ["warm"; "analogous"; "amber"]);
    ("full_dissolution", ["diluted"; "granulation"; "paper white"]);
    ("ghost_impression", ["faded"; "earth"; "parchment"; "tea"]);
    ("substrate_emergence", ["white dominant"; "sparse"; "chromatic island"]);
    ("chromatic_flood", ["saturated"; "vivid"; "intense"; "bright"]) ].

(** [VISUAL_TYPES] with the centers as real numbers. *)
Definition VISUAL_TYPES : list (string * point R) :=
  map (fun '(tid, t) => (tid, point_map Q2R (center_literals t))) VISUAL_TYPES_literals.

(** One of the three inner loops: [score += weight] for every fragment
    that occurs in the text. *)
Definition add_matches (weight : R) (fragments : list string) (text : string) (score : R) : R :=
  fold_left (fun score frag => if contains frag text then score + weight else score)
            fragments score.

(** The body of the scoring loop for one type. *)
Definition score_type (tid text : string) : R :=
  let score := 0 in
  let score := add_matches 1 (dict_get_default fragment_map tid []) text score in
  let score := add_matches 0.5 (dict_get_default optical_map tid []) text score in
  let score := add_matches 0.5 (dict_get_default color_map tid []) text score in
  score.

(** The loop that adds [w * center[k]] to every coordinate, type after
    type. *)
Definition weighted_centers (weights : list (string * R)) : exn + point R :=
  fold_left
    (fun acc '(tid, w) =>
       match acc with
       | inl x => inl x
       | inr coordinates =>
           match dict_get VISUAL_TYPES tid with
           | None => inl (KeyError tid)
           | Some center => inr (for_params (fun k => get coordinates k + w * get center k))
           end
       end)
    weights (inr (for_params (fun _ => 0))).

(** The fields of the record that the scores determine; the nearest type
    of the coordinates, what is copied from it and the list of matched
    fragments are left out. *)
Record decomposition : Type := Decomposition {
  coordinates : point R;
  confidence : R;
  type_scores : list (string * R);
  type_weights : list (string * R);
  detected : bool
}.

(** The function on the lowercased text. *)
Definition decompose_text (text : string) : result decomposition :=
  let type_scores := map (fun tid => (tid, score_type tid text)) (dict_keys VISUAL_TYPES) in
  match _softmax type_scores 1.0 with
  | inl x => Raises x
  | inr weights =>
      match weighted_centers weights with
      | inl x => Raises x
      | inr coordinates =>
          let total_matches := rsum (dict_values type_scores) in
          let confidence := Rmin 1.0 (total_matches / 8.0) in
          Ok {| coordinates := point_map (fun v => rround v 4) coordinates;
                confidence := rround confidence 4;
                type_scores := map (fun '(k, v) => (k, rround v 2)) type_scores;
                type_weights := map (fun '(k, v) => (k, rround v 4)) weights;
                detected := rlt 0 total_matches |}
      end
  end.


End Ideal.

(* ------------------------------------------------------------------ *)
(** ** Style lookup, rhythms and the synthesis bundle *)

(** [VISUAL_TYPES[style_id]], or the error record with the valid keys. *)
Definition get_dissolution_style_details (style_id : string) : result (string * point float) :=
  match dict_get VISUAL_TYPES style_id with
  | None =>
      Error [("error", JStr ("Unknown style: " ++ style_id));
             ("valid", JStrs (dict_keys VISUAL_TYPES))]
  | Some t => Ok t
  end.

Record rhythmic_preset : Type := RhythmicPreset {
  state_a : string;
  state_b : string;
  period : Z
}.

(** [RHYTHMIC_PRESETS]: the two endpoints and the period of each preset. *)
Definition RHYTHMIC_PRESETS : list (string * rhythmic_preset) :=
  [ ("fidelity_breathing", RhythmicPreset "editorial_wash" "full_dissolution" 20);
    ("hydrology_pulse", RhythmicPreset "ghost_impression" "chromatic_flood" 16);
    ("substrate_tide", RhythmicPreset "chromatic_flood" "substrate_emergence" 18);
    ("edge_negotiation", RhythmicPreset "editorial_wash" "contested_boundary" 22);
    ("dissolution_sweep", RhythmicPreset "editorial_wash" "chromatic_flood" 24) ].

(** [math.pi] *)
Definition math_pi : float := lit 3.141592653589793.

Record rhythm_entry : Type := RhythmEntry {
  re_step : Z;
  re_t : float;
  re_state : point float;
  re_nearest_type : string
}.

Record rhythmic_record : Type := RhythmicRecord {
  rr_state_a : string;
  rr_state_b : string;
  rr_oscillation_pattern : string;
  rr_steps_per_cycle : Z;
  rr_num_cycles : Z;
  rr_total_steps : Z;
  rr_sampled_keyframes : Z;
  rr_sequence : list rhythm_entry
}.

Record preset_record : Type := PresetRecord {
  pr_preset_name : string;
  pr_period : Z;
  pr_state_a : point float;
  pr_state_b : point float;
  pr_sequence : list rhythm_entry
}.

(** The entries that a loop has appended. *)
Fixpoint appended {A : Type} (l : list (option A)) : list A :=
  match l with
  | [] => []
  | Some a :: rest => a :: appended rest
  | None :: rest => appended rest
  end.

Section Rhythm.

(** [math.sin] is the sine of the C library: it returns a float or
    raises, and is left as it is. *)
Variable math_sin : float -> exn + float.

(** [0.5 * (1.0 + math.sin(phase))] *)
Definition sinusoid (phase : float) : exn + float :=
  match math_sin phase with
  | inl x => inl x
  | inr s => inr (fmul (lit 0.5) (fadd (lit 1.0) s))
  end.

(** [(step % steps_per_cycle) / steps_per_cycle] *)
Definition cycle_position (step steps_per_cycle : Z) : exn + float :=
  int_truediv (Z.modulo step steps_per_cycle) steps_per_cycle.

(** The value [t] of a step for each oscillation pattern; a pattern that
    is not known is sinusoidal. *)
Definition oscillation (oscillation_pattern : string) (step steps_per_cycle : Z)
  (phase : float) : exn + float :=
  if String.eqb oscillation_pattern "sinusoidal" then sinusoid phase
  else if String.eqb oscillation_pattern "triangle" then
    match cycle_position step steps_per_cycle with
    | inl x => inl x
    | inr cycle_pos =>
        inr (if flt cycle_pos (lit 0.5)
             then fmul (lit 2.0) cycle_pos
             else fmul (lit 2.0) (fsub (lit 1.0) cycle_pos))
    end
  else if String.eqb oscillation_pattern "sawtooth" then cycle_position step steps_per_cycle
  else sinusoid phase.

(** The entry of a step, once [t] is computed. *)
Definition rhythm_entry_at (a b : point float) (step : Z) (t : float) : rhythm_entry :=
  let state := _lerp_state a b t in
  let '(nearest_id, _) := _nearest_visual_type state in
  {| re_step := step;
     re_t := fround t 4;
     re_state := point_map (fun v => fround v 4) state;
     re_nearest_type := nearest_id |}.

(** The body of the loop of [generate_dissolution_rhythmic_sequence]: the
    entry it appends, if it appends one. *)
Definition rhythm_body (a b : point float) (steps_per_cycle : Z)
  (oscillation_pattern : string) (phase_offset : float) (step : Z)
  : exn + option rhythm_entry :=
  match int_truediv step steps_per_cycle with
  | inl x => inl x
  | inr q =>
      let phase := fmul (fmul (fadd q phase_offset) (of_int 2)) math_pi in
      match oscillation oscillation_pattern step steps_per_cycle phase with
      | inl x => inl x
      | inr t =>
          let entry := rhythm_entry_at a b step t in
          inr (if Z.eqb (Z.modulo step (Z.max 1 (Z.div steps_per_cycle 4))) 0
               then Some entry else None)
      end
  end.

Definition generate_dissolution_rhythmic_sequence (state_a_id state_b_id : string)
  (steps_per_cycle num_cycles : Z) (oscillation_pattern : string) (phase_offset : float)
  : result rhythmic_record :=
  let a := _resolve state_a_id in
  let b := _resolve state_b_id in
  match a, b with
  | None, _ => Error (unknown_id state_a_id)
  | Some _, None => Error (unknown_id state_b_id)
  | Some a, Some b =>
      let total_steps := (steps_per_cycle * num_cycles)%Z in
      match for_each (rhythm_body a b steps_per_cycle oscillation_pattern phase_offset)
                     (range total_steps) with
      | inl x => Raises x
      | inr entries =>
          let sequence := appended entries in
          Ok {| rr_state_a := state_a_id;
                rr_state_b := state_b_id;
                rr_oscillation_pattern := oscillation_pattern;
                rr_steps_per_cycle := steps_per_cycle;
                rr_num_cycles := num_cycles;
                rr_total_steps := total_steps;
                rr_sampled_keyframes := Z.of_nat (length sequence);
                rr_sequence := sequence |}
      end
  end.

(** An endpoint of a preset: the center of the visual type, else the
    coordinates of the canonical state. *)
Definition preset_endpoint (sid : string) : exn + point float :=
  match dict_get VISUAL_TYPES sid with
  | Some (_, c) => inr c
  | None =>
      match dict_get CANONICAL_STATES sid with
      | Some c => inr c
      | None => inl (KeyError sid)
      end
  end.

(** The body of the loop of [apply_dissolution_rhythmic_preset]. *)
Definition preset_body (a b : point float) (period step : Z) : exn + rhythm_entry :=
  match int_truediv step period with
  | inl x => inl x
  | inr q =>
      let phase := fmul (fmul q (of_int 2)) math_pi in
      match sinusoid phase with
      | inl x => inl x
      | inr t => inr (rhythm_entry_at a b step t)
      end
  end.

Definition apply_dissolution_rhythmic_preset (preset_name : string) : result preset_record :=
  match dict_get RHYTHMIC_PRESETS preset_name with
  | None =>
      Error [("error", JStr ("Unknown preset: " ++ preset_name));
             ("valid", JStrs (dict_keys RHYTHMIC_PRESETS))]
  | Some preset =>
      match preset_endpoint (state_a preset) with
      | inl x => Raises x
      | inr a =>
          match preset_endpoint (state_b preset) with
          | inl x => Raises x
          | inr b =>
              match for_each (preset_body a b (period preset)) (range (period preset)) with
              | inl x => Raises x
              | inr sequence =>
                  Ok {| pr_preset_name := preset_name;
                        pr_period := period preset;
                        pr_state_a := a;
                        pr_state_b := b;
                        pr_sequence := sequence |}
              end
          end
      end
  end.

End Rhythm.

(** The bundle of [enhance_dissolution_prompt], without the prompt text
    and the vocabulary bundle. *)
Record enhancement : Type := Enhancement {
  detected_style : string;
  applied_style : string;
  en_confidence : float;
  en_matched_keywords : list (string * list string);
  en_state : point float;
  en_intensity : string;
  en_style_name : string;
  en_active_edge_modes : list string;
  en_hydrology : string;
  en_contrast : string;
  en_substrate : option string;
  en_prompt_parts : descriptors;
  en_characteristics : list string
}.

(** [x or y] on an optional string: [None] and the empty string are
    false. *)
Definition or_else (x : option string) (y : string) : string :=
  match x with
  | None => y
  | Some sx => if String.eqb sx "" then y else sx
  end.

(** Reading a field of the record that an operation returned: an error
    record does not have it. *)
Definition field_of {A B : Type} (r : result A) (key : string) (f : A -> B) : exn + B :=
  match r with
  | Ok a => inr (f a)
  | Error _ => inl (KeyError key)
  | Raises x => inl x
  end.

Definition enhance_dissolution_prompt (user_intent : string) (style_override : option string)
  (substrate : option string) (intensity : string) : result enhancement :=
  match field_of (classify_dissolution_intent user_intent) "primary_style" (fun c => c) with
  | inl x => Raises x
  | inr classification =>
      let style_id := or_else style_override (primary_style classification) in
      let style_id :=
        if negb (dict_mem VISUAL_TYPES style_id) then primary_style classification
        else style_id in
      match field_of (map_dissolution_parameters style_id intensity "balanced" substrate)
                     "state" (fun p => p) with
      | inl x => Raises x
      | inr params =>
          match field_of (generate_dissolution_attractor_prompt style_id None "composite" "" 4)
                         "prompt" (fun b => b) with
          | inl x => Raises x
          | inr (Composite prompt_parts _ _) =>
              Ok {| detected_style := primary_style classification;
                    applied_style := style_id;
                    en_confidence := confidence classification;
                    en_matched_keywords := matched_keywords classification;
                    en_state := mp_state params;
                    en_intensity := intensity;
                    en_style_name := mp_style_name params;
                    en_active_edge_modes := mp_active_edge_modes params;
                    en_hydrology := mp_hydrology_state params;
                    en_contrast := mp_contrast_curve params;
                    en_substrate := mp_substrate params;
                    en_prompt_parts := prompt_parts;
                    en_characteristics := mp_characteristics params |}
          | inr _ => Raises (KeyError "prompt")
          end
      end
  end.

(* ------------------------------------------------------------------ *)
(** ** What the claims speak of *)

(** An identifier that none of the three catalogs has. *)
Definition in_no_catalog (sid : string) : bool :=
  negb (dict_mem CANONICAL_STATES sid)
  && negb (dict_mem VISUAL_TYPES sid)
  && negb (dict_mem ATTRACTOR_PRESETS sid).

(** An error record names an identifier. *)
Definition names_id (e : error_record) (sid : string) : Prop :=
  dict_get e "error" = Some (JStr ("Unknown id: " ++ sid)).

(** An error record carries a list of valid identifiers. *)
Definition lists_valid_ids (e : error_record) : Prop :=
  exists ids, dict_get e "valid" = Some (JStrs ids).

(** The coordinates of a state are all in [[0.0, 1.0]]. *)
Definition in_unit_interval (x : float) : bool := fle (lit 0.0) x && fle x (lit 1.0).

Definition in_unit_box (s : point float) : bool :=
  forallb (fun k => in_unit_interval (get s k)) PARAMETER_NAMES.

(** Zeros and finite numbers, as opposed to infinities and NaN. *)
Definition is_finite (x : float) : bool :=
  match x with
  | S754_zero _ | S754_finite _ _ _ => true
  | _ => false
  end.

(** The same binary64, sign of zero included. *)
Definition same_float (x y : float) : bool :=
  match x, y with
  | S754_zero s1, S754_zero s2 => Bool.eqb s1 s2
  | S754_infinity s1, S754_infinity s2 => Bool.eqb s1 s2
  | S754_nan, S754_nan => true
  | S754_finite s1 m1 e1, S754_finite s2 m2 e2 =>
      Bool.eqb s1 s2 && Pos.eqb m1 m2 && Z.eqb e1 e2
  | _, _ => false
  end.

Definition same_point (a b : point float) : bool :=
  forallb (fun k => same_float (get a k) (get b k)) PARAMETER_NAMES.

(** Every intensity scale, every emphasis shift and every center that
    [map_dissolution_parameters] can pick. *)
Definition all_scales : list float := lit 1.0 :: dict_values intensity_scales.
Definition all_shifts : list (list (param * float)) := [] :: dict_values emphasis_shifts.
Definition all_centers : list (string * point float) := dict_values VISUAL_TYPES.

(** No term of any visual type occurs in the text. *)
Definition no_term_matches (text : string) : bool :=
  forallb (fun '(_, terms) => forallb (fun term => negb (contains term text)) terms)
          dissolution_terms.

(** The hydrology categories with a term in the text, in declaration
    order. *)
Definition matching_categories (text : string) : list string :=
  dict_keys (filter (fun '(_, terms) => any_in terms text) hydrology_terms).

(** The name a hydrology category is reported under. *)
Definition reported_as (hid : string) : string :=
  if String.eqb hid "dry" then "dry_brush" else hid.

(** First-match-wins, as the specification words it: the first matching
    category, "controlled_wash" when there is none. *)
Definition first_match_hydrology (text : string) : string :=
  match matching_categories text with
  | [] => "controlled_wash"
  | hid :: _ => reported_as hid
  end.

(** Last-match-wins: the last matching category, "controlled_wash" when
    there is none. *)
Definition last_match_hydrology (text : string) : string :=
  match rev (matching_categories text) with
  | [] => "controlled_wash"
  | hid :: _ => reported_as hid
  end.

(** Every state an identifier can resolve to. *)
Definition catalog_points : list (point float) :=
  dict_values CANONICAL_STATES ++ map snd (dict_values VISUAL_TYPES)
  ++ dict_values ATTRACTOR_PRESETS.

Definition round_state (s : point float) : point float := point_map (fun v => fround v 4) s.

(** The exponentials of [_softmax], when the temperature is not 0. *)
Definition exponentials (scores : list (string * R)) (max_s temperature : R)
  : list (string * R) :=
  map (fun '(k, v) => (k, exp ((v - max_s) / temperature)%R)) scores.



(** The order that the comparisons of floats follow: a float that is not
    a NaN has a key, and [x < y] compares the keys lexicographically. *)
Definition float_key (x : float) : option (Z * Z * Z) :=
  match x with
  | S754_nan => None
  | S754_infinity true => Some (0, 0, 0)%Z
  | S754_finite true m e => Some (1, - e, - Zpos m)%Z
  | S754_zero _ => Some (2, 0, 0)%Z
  | S754_finite false m e => Some (3, e, Zpos m)%Z
  | S754_infinity false => Some (4, 0, 0)%Z
  end.

Definition key_lt (a b : Z * Z * Z) : Prop :=
  let '(a1, a2, a3) := a in
  let '(b1, b2, b3) := b in
  (a1 < b1 \/ (a1 = b1 /\ (a2 < b2 \/ (a2 = b2 /\ a3 < b3))))%Z.

Definition is_nan (x : float) : bool :=
  match x with
  | S754_nan => true
  | _ => false
  end.

(** The distance from a state to the center of an entry of
    [VISUAL_TYPES]. *)
Definition distance_to (state : point float) (entry : string * (string * point float)) : float :=
  _euclidean_distance state (snd (snd entry)).

(** The scan of [_nearest_visual_type] over any list of types: when it
    has gone through [seen] and holds [best], no type of [seen] is
    strictly nearer than [best], and [best] is the start value or the
    first type of [seen] at its distance. *)
Definition scan_invariant (state : point float)
  (seen : list (string * (string * point float))) (best : string * float) : Prop :=
  (forall entry, In entry seen -> flt (distance_to state entry) (snd best) = false)
  /\ (best = ("", inf)
      \/ exists before entry after,
           seen = before ++ entry :: after
           /\ best = (fst entry, distance_to state entry)
           /\ forall earlier, In earlier before ->
                is_nan (distance_to state earlier) = false ->
                flt (snd best) (distance_to state earlier) = true).

(** Every identifier of the three catalogs. *)
Definition catalog_ids : list string :=
  dict_keys CANONICAL_STATES ++ dict_keys VISUAL_TYPES ++ dict_keys ATTRACTOR_PRESETS.

(** The rounded differences of [compute_dissolution_distance]. *)
Definition axis_differences (s1 s2 : point float) : point float :=
  for_params (fun k => fround (fsub (get s2 k) (get s1 k)) 4).

(** The terms of a list that occur in a text, in the order of the
    list. *)
Definition occurring (terms : list string) (text : string) : list string :=
  filter (fun term => contains term text) terms.

(** The style and the confidence that the scores decide. *)
Definition decide_style (type_scores : list (string * Z)) : string * float :=
  if Z.eqb (max_int (dict_values type_scores)) 0
  then ("contested_boundary", lit 0.3)
  else (argmax_int type_scores,
        fmin (lit 1.0) (fdiv (of_int (max_int (dict_values type_scores))) (lit 4.0))).

(** The steps that the rhythmic sequence keeps: the multiples of
    [max(1, steps_per_cycle // 4)]. *)
Definition kept_step (steps_per_cycle step : Z) : bool :=
  Z.eqb (Z.modulo step (Z.max 1 (Z.div steps_per_cycle 4))) 0.

(** The value [t] of the triangle and sawtooth patterns at a step. *)
Definition cycle_t (oscillation_pattern : string) (steps_per_cycle step : Z) : float :=
  let cycle_pos :=
    fdiv (int_operand (Z.modulo step steps_per_cycle)) (int_operand steps_per_cycle) in
  if String.eqb oscillation_pattern "triangle"
  then (if flt cycle_pos (lit 0.5)
        then fmul (lit 2.0) cycle_pos
        else fmul (lit 2.0) (fsub (lit 1.0) cycle_pos))
  else cycle_pos.

(** No fragment of the three vocabularies of the decomposition occurs in
    the text. *)
Definition no_fragment_matches (text : string) : bool :=
  forallb (fun '(_, fragments) => forallb (fun frag => negb (contains frag text)) fragments)
          (Ideal.fragment_map ++ Ideal.optical_map ++ Ideal.color_map).

(** Where [x ** 2] raises OverflowError: [x] is finite and its square is
    not. *)
Definition square_raises (x : float) : bool :=
  andb (is_finite x) (negb (is_finite (square x))).

(** The states between which [_euclidean_distance] returns a number: none
    of the five squares raises OverflowError. *)
Definition distance_defined (a b : point float) : bool :=
  forallb (fun k => negb (square_raises (fsub (get a k) (get b k)))) PARAMETER_NAMES.

(** *** Floats as real numbers *)

(** The real number [2 ^ e]. *)
Definition bpow (e : Z) : R := powerRZ 2 e.

(** The real number a float stands for; 0 for the infinities and NaN. *)
Definition B2R (x : float) : R :=
  match x with
  | S754_finite s m e => (IZR (cond_Zopp s (Zpos m)) * bpow e)%R
  | _ => 0%R
  end.

(** A binary64 in its canonical form, as every float of Python is: the
    mantissa has 53 bits, or fewer at the smallest exponent. *)
Definition valid (x : float) : bool := valid_binary prec emax x.

Definition sign_of (x : float) : bool :=
  match x with
  | S754_zero s | S754_infinity s | S754_finite s _ _ => s
  | S754_nan => false
  end.

(** A float of Python that is a number: a zero or a finite float. *)
Definition finite_float (v : float) : Prop := valid v = true /\ is_finite v = true.

(** A finite float between 0 and 1. *)
Definition unit_float (y : float) : Prop :=
  valid y = true /\ is_finite y = true /\ (0 <= B2R y <= 1)%R.

(** The sum of the values of a list of floats, as a real number. *)
Definition real_sum (l : list float) : R := fold_right (fun x acc => (B2R x + acc)%R) 0%R l.

(** Half an ulp of 1, the relative error of one rounding, and half the
    smallest positive float, the error of a rounding that underflows. *)
Definition u53 : R := bpow (-53).
Definition eta : R := bpow (-1075).

(** The float 1.0. *)
Definition one : float := S754_finite false 4503599627370496 (-52).

(** Where the real [y] lies with respect to the mantissa of a shift
    record: on it, below the middle of the next interval, on the middle or
    above it. *)
Definition located (mrs : shr_record) (y : R) : Prop :=
  match shr_r mrs, shr_s mrs with
  | false, false => y = IZR (shr_m mrs)
  | false, true => (IZR (shr_m mrs) < y < IZR (shr_m mrs) + 1 / 2)%R
  | true, false => (y = IZR (shr_m mrs) + 1 / 2)%R
  | true, true => (IZR (shr_m mrs) + 1 / 2 < y < IZR (shr_m mrs) + 1)%R
  end.

(** The float that [binary_round_aux] builds from a rounded mantissa. *)
Definition float_of (s : bool) (m e : Z) : float :=
  match m with
  | Z0 => S754_zero s
  | Zpos p => if Z.leb e (emax - prec) then S754_finite s p e else S754_infinity s
  | Zneg _ => S754_nan
  end.

(** The order of two real numbers. *)
Definition Rcompare (x y : R) : comparison :=
  match total_order_T x y with
  | inleft (left _) => Lt
  | inleft (right _) => Eq
  | inright _ => Gt
  end.

(* ------------------------------------------------------------------ *)
(** ** Dictionaries and loops *)

Lemma dict_get_in {V : Type} (d : list (string * V)) (key : string) (v : V) :
  dict_get d key = Some v -> In (key, v) d.
Proof.
  induction d as [|[k w] rest IH]; simpl; [discriminate|].
  destruct (String.eqb key k) eqn:E.
  - intros [= ->]. apply String.eqb_eq in E. subst. now left.
  - intros H. right. now apply IH.
Qed.

Lemma dict_get_value {V : Type} (d : list (string * V)) (key : string) (v : V) :
  dict_get d key = Some v -> In v (dict_values d).
Proof.
  intros H. apply dict_get_in in H.
  unfold dict_values. change v with (snd (key, v)). now apply in_map.
Qed.

Lemma dict_get_key {V : Type} (d : list (string * V)) (key : string) :
  In key (dict_keys d) -> exists v, dict_get d key = Some v.
Proof.
  induction d as [|[k w] rest IH]; simpl; [tauto|].
  intros [->|H].
  - rewrite String.eqb_refl. now exists w.
  - destruct (String.eqb key k); [now exists w | now apply IH].
Qed.

Lemma dict_get_default_in {V : Type} (d : list (string * V)) (key : string) (default : V) :
  In (dict_get_default d key default) (default :: dict_values d).
Proof.
  unfold dict_get_default. destruct (dict_get d key) eqn:E.
  - right. eapply dict_get_value; eassumption.
  - now left.
Qed.

Lemma dict_mem_false {V : Type} (d : list (string * V)) (key : string) :
  dict_mem d key = false -> dict_get d key = None.
Proof. unfold dict_mem. now destruct (dict_get d key). Qed.

Lemma same_float_eq (x y : float) : same_float x y = true -> x = y.
Proof.
  destruct x as [s1|s1| |s1 m1 e1], y as [s2|s2| |s2 m2 e2]; simpl; try discriminate.
  - intros H. apply Bool.eqb_prop in H. now subst.
  - intros H. apply Bool.eqb_prop in H. now subst.
  - reflexivity.
  - rewrite !andb_true_iff. intros [[H1 H2] H3].
    apply Bool.eqb_prop in H1. apply Pos.eqb_eq in H2. apply Z.eqb_eq in H3. now subst.
Qed.

Lemma same_point_eq (a b : point float) : same_point a b = true -> a = b.
Proof.
  unfold same_point. simpl. rewrite !andb_true_iff.
  intros (H1 & H2 & H3 & H4 & H5 & _).
  destruct a, b; simpl in *.
  apply same_float_eq in H1, H2, H3, H4, H5. now subst.
Qed.

(** The three lookups of [_resolve], spelled out. *)
Lemma resolve_none (sid : string) : in_no_catalog sid = true -> _resolve sid = None.
Proof.
  unfold in_no_catalog, _resolve. rewrite !andb_true_iff, !negb_true_iff.
  now intros [[-> ->] ->].
Qed.

(* ------------------------------------------------------------------ *)
(** ** The distance between two named states *)

(** C1, as the code has it: the distance record of editorial_wash and
    chromatic_flood has three rounded differences of the same magnitude
    0.75 (dissolution_rate, pigment_hydrology, anchor_density), no
    difference is larger, and [max] keeps the first of them:
    dominant_axis is "dissolution_rate". *)
Theorem C1_dominant_axis_first_of_tied :
  exists r,
    compute_dissolution_distance "editorial_wash" "chromatic_flood" = Ok r
    /\ d_dominant_axis r = "dissolution_rate"
    /\ get (d_per_axis_difference r) dissolution_rate = lit 0.75
    /\ get (d_per_axis_difference r) pigment_hydrology = lit 0.75
    /\ get (d_per_axis_difference r) anchor_density = lit (-0.75)
    /\ forall k, fle (fabs (get (d_per_axis_difference r) k)) (lit 0.75) = true.
Proof.
  eexists. split; [vm_compute; reflexivity|].
  do 4 (split; [vm_compute; reflexivity|]).
  intros []; vm_compute; reflexivity.
Qed.

(** C1, as the claim has it, fails: the dominant axis reported for
    editorial_wash and chromatic_flood is not "pigment_hydrology". *)
Lemma C1_dominant_axis_not_pigment_hydrology :
  ~ (exists r,
       compute_dissolution_distance "editorial_wash" "chromatic_flood" = Ok r
       /\ d_dominant_axis r = "pigment_hydrology").
Proof.
  intros (r & H & D). vm_compute in H. injection H as <-. simpl in D. discriminate.
Qed.

(** C3, as the code has it: when an identifier is in none of the three
    catalogs, both operations return the error record with the single
    field "error" whose text names the identifier (the first one when both
    are unknown); the record has no list of valid identifiers. *)
Theorem C3_unknown_id_error_names_id_only (id_1 id_2 : string) (num_steps : Z) :
  (in_no_catalog id_1 = true ->
     compute_dissolution_distance id_1 id_2 = Error (unknown_id id_1)
     /\ compute_dissolution_trajectory id_1 id_2 num_steps = Error (unknown_id id_1))
  /\ (in_no_catalog id_1 = false -> in_no_catalog id_2 = true ->
     compute_dissolution_distance id_1 id_2 = Error (unknown_id id_2)
     /\ compute_dissolution_trajectory id_1 id_2 num_steps = Error (unknown_id id_2))
  /\ (forall sid, names_id (unknown_id sid) sid
                  /\ dict_keys (unknown_id sid) = ["error"]
                  /\ ~ lists_valid_ids (unknown_id sid)).
Proof.
  split; [|split].
  - intros H. apply resolve_none in H.
    unfold compute_dissolution_distance, compute_dissolution_trajectory.
    now rewrite H.
  - intros H1 H2. apply resolve_none in H2.
    unfold compute_dissolution_distance, compute_dissolution_trajectory.
    rewrite H2.
    assert (R1 : _resolve id_1 <> None).
    { unfold in_no_catalog in H1. unfold _resolve.
      destruct (dict_mem CANONICAL_STATES id_1) eqn:E1.
      - unfold dict_mem in E1. now destruct (dict_get CANONICAL_STATES id_1).
      - destruct (dict_mem VISUAL_TYPES id_1) eqn:E2.
        + unfold dict_mem in E2. now destruct (dict_get VISUAL_TYPES id_1).
        + destruct (dict_mem ATTRACTOR_PRESETS id_1) eqn:E3; [|discriminate].
          unfold dict_mem in E3. now destruct (dict_get ATTRACTOR_PRESETS id_1). }
    now destruct (_resolve id_1).
  - intros sid. repeat split.
    intros [ids H]. discriminate.
Qed.

Lemma C3_unknown_id_error_names_id_only_witness :
  compute_dissolution_distance "nope" "editorial_wash" = Error (unknown_id "nope")
  /\ compute_dissolution_trajectory "nope" "editorial_wash" 20 = Error (unknown_id "nope")
  /\ compute_dissolution_distance "editorial_wash" "nope" = Error (unknown_id "nope")
  /\ compute_dissolution_trajectory "editorial_wash" "nope" 20 = Error (unknown_id "nope").
Proof.
  destruct (C3_unknown_id_error_names_id_only "nope" "editorial_wash" 20) as (A & _ & _).
  destruct (C3_unknown_id_error_names_id_only "editorial_wash" "nope" 20) as (_ & B & _).
  destruct (A eq_refl) as [A1 A2].
  destruct (B eq_refl eq_refl) as [B1 B2].
  repeat split; assumption.
Defined.

(** C3, as the claim has it, fails: for the unknown identifier "nope" the
    error record of neither operation carries a list of valid
    identifiers. *)
Lemma C3_no_valid_ids_in_error :
  ~ (exists e, compute_dissolution_distance "nope" "editorial_wash" = Error e
               /\ names_id e "nope" /\ lists_valid_ids e)
  /\ ~ (exists e, compute_dissolution_trajectory "nope" "editorial_wash" 20 = Error e
                  /\ names_id e "nope" /\ lists_valid_ids e).
Proof.
  split; intros (e & H & _ & ids & V);
    vm_compute in H; injection H as <-; discriminate.
Qed.

(* ------------------------------------------------------------------ *)
(** ** Parameter mapping *)

Lemma flt_fle (x y : float) : flt x y = true -> fle x y = true.
Proof.
  unfold flt, fle, SFltb, SFleb. now destruct (SFcompare x y) as [[]|].
Qed.

(** The clamp [max(0.0, min(1.0, x))] lands in the unit interval whatever
    [x] is, NaN and the infinities included. *)
Lemma clamp_in_unit_interval (x : float) :
  in_unit_interval (fmax (lit 0.0) (fmin (lit 1.0) x)) = true.
Proof.
  unfold fmin. destruct (flt x (lit 1.0)) eqn:H1.
  - unfold fmax. destruct (flt (lit 0.0) x) eqn:H0.
    + unfold in_unit_interval. now rewrite (flt_fle _ _ H0), (flt_fle _ _ H1).
    + vm_compute. reflexivity.
  - vm_compute. reflexivity.
Qed.

Lemma scale_shift_clamp_in_unit_box (c : point float) (scale : float)
  (shifts : list (param * float)) :
  in_unit_box (scale_shift_clamp c scale shifts) = true.
Proof.
  unfold in_unit_box, scale_shift_clamp. simpl.
  now rewrite !clamp_in_unit_interval.
Qed.

Lemma rounded_states_in_unit_box :
  forallb (fun c =>
    forallb (fun scale =>
      forallb (fun shifts =>
        in_unit_box (point_map (fun v => fround v 4) (scale_shift_clamp (snd c) scale shifts)))
        all_shifts) all_scales) all_centers = true.
Proof. vm_compute. reflexivity. Qed.

(** C4: map_dissolution_parameters("chromatic_flood", "dramatic") with the
    default emphasis and no substrate: the scaled pigment_hydrology is the
    float 1.13, it is clamped, the state has pigment_hydrology 1.0 exactly
    and the hydrology state is "flooding". *)
Theorem C4_chromatic_flood_dramatic :
  exists r,
    map_dissolution_parameters "chromatic_flood" "dramatic" "balanced" None = Ok r
    /\ fadd (fadd (lit 0.5) (fmul (fsub (lit 0.95) (lit 0.5)) (lit 1.4))) (lit 0.0) = lit 1.13
    /\ get (mp_state r) pigment_hydrology = lit 1.0
    /\ mp_hydrology_state r = "flooding".
Proof.
  eexists. split; [vm_compute; reflexivity|].
  repeat split; vm_compute; reflexivity.
Qed.

(** C8: for a known style and any intensity, emphasis and substrate,
    map_dissolution_parameters succeeds; the state is clamped into the
    unit box, the edge modes, the hydrology state and the contrast curve
    are computed from the clamped state, and the state of the record (the
    clamped one rounded to 4 decimals) has all five coordinates in
    [0.0, 1.0]. *)
Theorem C8_mapped_state_in_unit_box (style_id intensity emphasis : string)
  (substrate : option string) :
  dict_mem VISUAL_TYPES style_id = true ->
  exists r clamped,
    map_dissolution_parameters style_id intensity emphasis substrate = Ok r
    /\ in_unit_box clamped = true
    /\ mp_active_edge_modes r = active_edge_modes clamped
    /\ mp_hydrology_state r = hydrology_of clamped
    /\ mp_contrast_curve r = contrast_of clamped
    /\ mp_state r = point_map (fun v => fround v 4) clamped
    /\ forall k, fle (lit 0.0) (get (mp_state r) k) = true
                 /\ fle (get (mp_state r) k) (lit 1.0) = true.
Proof.
  intros K. unfold dict_mem in K.
  destruct (dict_get VISUAL_TYPES style_id) as [[t_name t_center]|] eqn:G; [clear K|discriminate].
  unfold map_dissolution_parameters. rewrite G.
  set (scale := dict_get_default intensity_scales intensity (lit 1.0)).
  set (shifts := dict_get_default emphasis_shifts emphasis []).
  destruct (_nearest_visual_type (scale_shift_clamp t_center scale shifts)) as [nid nd].
  eexists. exists (scale_shift_clamp t_center scale shifts).
  split; [reflexivity|]. cbn [mp_state mp_active_edge_modes mp_hydrology_state mp_contrast_curve].
  split; [apply scale_shift_clamp_in_unit_box|].
  do 4 (split; [reflexivity|]).
  assert (B : in_unit_box (point_map (fun v => fround v 4)
                             (scale_shift_clamp t_center scale shifts)) = true).
  { pose proof rounded_states_in_unit_box as T.
    rewrite forallb_forall in T.
    specialize (T (t_name, t_center) (dict_get_value _ _ _ G)).
    rewrite forallb_forall in T.
    specialize (T scale (dict_get_default_in _ _ _)).
    rewrite forallb_forall in T.
    exact (T shifts (dict_get_default_in _ _ _)). }
  unfold in_unit_box in B. rewrite forallb_forall in B.
  intros k. specialize (B k).
  unfold in_unit_interval in B. rewrite andb_true_iff in B.
  apply B. destruct k; simpl; tauto.
Qed.

Lemma C8_mapped_state_in_unit_box_witness :
  exists r clamped,
    map_dissolution_parameters "ghost_impression" "subtle" "edge" (Some "rough") = Ok r
    /\ in_unit_box clamped = true
    /\ mp_active_edge_modes r = active_edge_modes clamped
    /\ mp_hydrology_state r = hydrology_of clamped
    /\ mp_contrast_curve r = contrast_of clamped
    /\ mp_state r = point_map (fun v => fround v 4) clamped
    /\ forall k, fle (lit 0.0) (get (mp_state r) k) = true
                 /\ fle (get (mp_state r) k) (lit 1.0) = true.
Proof.
  apply (C8_mapped_state_in_unit_box "ghost_impression" "subtle" "edge" (Some "rough")).
  reflexivity.
Defined.

(* ------------------------------------------------------------------ *)
(** ** Intent classification *)

Lemma score_terms_acc (terms : list string) (text : string) (acc : Z * list string) :
  forallb (fun term => negb (contains term text)) terms = true ->
  fold_left
    (fun '(score, matches) term =>
       if contains term text then ((score + 1)%Z, matches ++ [term]) else (score, matches))
    terms acc = acc.
Proof.
  revert acc. induction terms as [|term rest IH]; intros acc H; simpl in *; [reflexivity|].
  apply andb_true_iff in H. destruct H as [H1 H2].
  apply negb_true_iff in H1. destruct acc as [score matches]. rewrite H1. now apply IH.
Qed.

Lemma score_types_acc (text : string) (types : list (string * list string))
  (acc : list (string * Z) * list (string * list string)) :
  forallb (fun '(_, terms) => forallb (fun term => negb (contains term text)) terms) types
    = true ->
  fold_left
    (fun '(type_scores, matched_keywords) '(tid, terms) =>
       let '(score, matches) := score_terms terms text in
       (type_scores ++ [(tid, score)],
        match matches with
        | [] => matched_keywords
        | _ :: _ => matched_keywords ++ [(tid, matches)]
        end))
    types acc
  = (fst acc ++ map (fun '(tid, _) => (tid, 0%Z)) types, snd acc).
Proof.
  revert acc. induction types as [|[tid terms] rest IH]; intros [ts mk] H; simpl in *.
  - now rewrite app_nil_r.
  - apply andb_true_iff in H. destruct H as [H1 H2].
    unfold score_terms. rewrite (score_terms_acc _ _ _ H1).
    rewrite (IH _ H2). simpl. now rewrite <- app_assoc.
Qed.

(** C5: classify_dissolution_intent on the empty string returns the style
    "contested_boundary" with confidence 0.3 exactly; and whatever the
    lowercased text [text = user_intent.lower()] is, when no term of any
    type occurs in it the function returns this same default and no
    error, all six scores being 0. *)
Theorem C5_no_match_defaults_to_contested_boundary :
  (exists r,
     classify_dissolution_intent "" = Ok r
     /\ primary_style r = "contested_boundary"
     /\ confidence r = lit 0.3)
  /\ (forall text,
        no_term_matches text = true ->
        exists r,
          classify_text text = Ok r
          /\ primary_style r = "contested_boundary"
          /\ confidence r = lit 0.3
          /\ (forall tid score, In (tid, score) (type_scores r) -> score = 0%Z)).
Proof.
  split.
  - eexists. split; [vm_compute; reflexivity|]. split; reflexivity.
  - intros text H.
    unfold classify_text, score_types.
    unfold no_term_matches in H.
    rewrite (score_types_acc _ _ _ H).
    cbn -[lit]. eexists. split; [reflexivity|]. cbn -[lit].
    repeat split.
    intros tid score HIn.
    repeat (destruct HIn as [[= <- <-]|HIn]; [reflexivity|]). destruct HIn.
Qed.

(** An ASCII input, lowercased: "A QUIET LANDSCAPE". *)
Lemma C5_no_match_defaults_to_contested_boundary_witness :
  no_term_matches "a quiet landscape" = true
  /\ exists r,
       classify_text "a quiet landscape" = Ok r
       /\ primary_style r = "contested_boundary"
       /\ confidence r = lit 0.3
       /\ (forall tid score, In (tid, score) (type_scores r) -> score = 0%Z).
Proof.
  split; [vm_compute; reflexivity|].
  apply (proj2 C5_no_match_defaults_to_contested_boundary "a quiet landscape").
  vm_compute. reflexivity.
Defined.

Lemma hydrology_scan_terms_spec (hid : string) (terms : list string) (text current : string) :
  hydrology_scan_terms hid terms text current
  = if any_in terms text then reported_as hid else current.
Proof.
  induction terms as [|term rest IH]; simpl; [reflexivity|].
  destruct (contains term text); simpl; [|exact IH].
  unfold reported_as. now destruct (String.eqb hid "dry").
Qed.

Lemma detect_hydrology_acc (text : string) (categories : list (string * list string))
  (current : string) :
  fold_left
    (fun hydrology_match '(hid, terms) => hydrology_scan_terms hid terms text hydrology_match)
    categories current
  = match rev (dict_keys (filter (fun '(_, terms) => any_in terms text) categories)) with
    | [] => current
    | hid :: _ => reported_as hid
    end.
Proof.
  revert current. induction categories as [|[hid terms] rest IH]; intros current; simpl.
  - reflexivity.
  - rewrite IH, hydrology_scan_terms_spec.
    destruct (any_in terms text); simpl; [|reflexivity].
    destruct (rev (dict_keys (filter (fun '(_, terms0) => any_in terms0 text) rest)));
      reflexivity.
Qed.

Lemma detect_hydrology_last_match (text : string) :
  detect_hydrology text = last_match_hydrology text.
Proof. apply detect_hydrology_acc. Qed.

Lemma score_types_keys_acc (text : string) (types : list (string * list string))
  (acc : list (string * Z) * list (string * list string)) :
  dict_keys (fst (fold_left
    (fun '(type_scores, matched_keywords) '(tid, terms) =>
       let '(score, matches) := score_terms terms text in
       (type_scores ++ [(tid, score)],
        match matches with
        | [] => matched_keywords
        | _ :: _ => matched_keywords ++ [(tid, matches)]
        end))
    types acc))
  = dict_keys (fst acc) ++ dict_keys types.
Proof.
  revert acc. induction types as [|[tid terms] rest IH]; intros [ts mk]; simpl.
  - now rewrite app_nil_r.
  - destruct (score_terms terms text) as [score matches].
    rewrite IH. simpl. unfold dict_keys. rewrite map_app, <- app_assoc. reflexivity.
Qed.

Lemma score_types_keys (text : string) :
  dict_keys (fst (score_types text)) = dict_keys dissolution_terms.
Proof. unfold score_types. now rewrite score_types_keys_acc. Qed.

Lemma argmax_int_acc (rest : list (string * Z)) (best : string * Z) :
  In (fst (fold_left (fun best kv' => if Z.ltb (snd best) (snd kv') then kv' else best)
                     rest best))
     (fst best :: dict_keys rest).
Proof.
  revert best. induction rest as [|kv rest IH]; intros best; simpl; [now left|].
  specialize (IH (if Z.ltb (snd best) (snd kv) then kv else best)).
  destruct (Z.ltb (snd best) (snd kv)); simpl in IH; tauto.
Qed.

Lemma argmax_int_in (d : list (string * Z)) :
  d <> [] -> In (argmax_int d) (dict_keys d).
Proof.
  destruct d as [|kv rest]; [congruence|]. intros _. apply argmax_int_acc.
Qed.

(** The classification never fails: the style it picks is a key of
    [VISUAL_TYPES]. *)
Lemma classify_text_ok (text : string) :
  exists r, classify_text text = Ok r /\ suggested_hydrology r = detect_hydrology text.
Proof.
  unfold classify_text.
  pose proof (score_types_keys text) as K.
  destruct (score_types text) as [ts mk]. simpl in K.
  set (pc := if Z.eqb (max_int (dict_values ts)) 0 then _ else _).
  assert (P : In (fst pc) (dict_keys VISUAL_TYPES)).
  { subst pc. destruct (Z.eqb (max_int (dict_values ts)) 0).
    - simpl. tauto.
    - cbn [fst].
      assert (N : ts <> []) by (intros ->; discriminate).
      pose proof (argmax_int_in ts N) as A. rewrite K in A. exact A. }
  destruct pc as [primary conf]. cbn [fst] in P.
  destruct (dict_get_key _ _ P) as [[vt_name vt_center] G]. rewrite G.
  eexists. split; reflexivity.
Qed.

(** C2, as the code has it: the hydrology hint is decided by
    last-match-wins.  Whatever the lowercased text
    [text = user_intent.lower()] is, the function returns a record and
    suggested_hydrology is the last category, in the declaration order
    dry, controlled, wet_on_dry, wet_on_wet, flooding, that has a term
    occurring in the text (reported under its own name, "dry" as
    "dry_brush"), and "controlled_wash" when no category matches. *)
Theorem C2_hydrology_hint_last_match_wins (text : string) :
  exists r,
    classify_text text = Ok r
    /\ suggested_hydrology r = last_match_hydrology text.
Proof.
  destruct (classify_text_ok text) as (r & H & S).
  exists r. split; [exact H|]. now rewrite S, detect_hydrology_last_match.
Qed.

(** C2, as the claim has it, fails: in "dry flood" the first matching
    category is dry and the last is flooding; the hint reported is
    "flooding", the later match has overwritten the earlier one. *)
Lemma C2_later_category_overwrites :
  first_match_hydrology (lower "dry flood") = "dry_brush"
  /\ ~ (exists r,
          classify_dissolution_intent "dry flood" = Ok r
          /\ suggested_hydrology r = first_match_hydrology (lower "dry flood")).
Proof.
  split; [vm_compute; reflexivity|].
  intros (r & H & S). vm_compute in H. injection H as <-.
  vm_compute in S. discriminate.
Qed.

(* ------------------------------------------------------------------ *)
(** ** Rounding

    What the operations of binary64 return, in terms of the real numbers
    the floats stand for: the result of [+], [-] and [/] is within half
    an ulp of the exact result, and it is the exact result where that is a
    float. *)

Section Rounding.

Local Open Scope R_scope.
Local Open Scope Z_scope.

Lemma digits2_pos_size (p : positive) : digits2_pos p = Pos.size p.
Proof. induction p; simpl; congruence. Qed.

Lemma digits2_pos_bounds (p : positive) :
  2 ^ (Zpos (digits2_pos p) - 1) <= Zpos p < 2 ^ Zpos (digits2_pos p).
Proof.
  induction p as [p IH|p IH|]; cbn [digits2_pos].
  - rewrite Pos2Z.inj_succ.
    replace (Z.succ (Zpos (digits2_pos p)) - 1) with (Z.succ (Zpos (digits2_pos p) - 1)) by lia.
    rewrite !Z.pow_succ_r by lia. lia.
  - rewrite Pos2Z.inj_succ.
    replace (Z.succ (Zpos (digits2_pos p)) - 1) with (Z.succ (Zpos (digits2_pos p) - 1)) by lia.
    rewrite !Z.pow_succ_r by lia. lia.
  - simpl. lia.
Qed.

Lemma Zdigits2_bounds (m : Z) :
  0 < m -> 2 ^ (Zdigits2 m - 1) <= m < 2 ^ Zdigits2 m.
Proof. destruct m; try lia. intros _. apply digits2_pos_bounds. Qed.

Lemma Zdigits2_pos (m : Z) : 0 < m -> 0 < Zdigits2 m.
Proof. destruct m; simpl; lia. Qed.

Lemma Zdigits2_unique (m d : Z) :
  2 ^ (d - 1) <= m < 2 ^ d -> 0 < d -> Zdigits2 m = d.
Proof.
  intros [L U] Hd.
  assert (Hm : 0 < m). { pose proof (Z.pow_pos_nonneg 2 (d - 1)). lia. }
  pose proof (Zdigits2_bounds m Hm) as [L' U'].
  pose proof (Zdigits2_pos m Hm) as P.
  destruct (Z.lt_trichotomy (Zdigits2 m) d) as [C|[C|C]]; [|exact C|].
  - assert (2 ^ Zdigits2 m <= 2 ^ (d - 1)) by (apply Z.pow_le_mono_r; lia). lia.
  - assert (2 ^ d <= 2 ^ (Zdigits2 m - 1)) by (apply Z.pow_le_mono_r; lia). lia.
Qed.

Lemma shr_1_spec (mrs : shr_record) (y : R) :
  0 <= shr_m mrs -> located mrs y ->
  located (shr_1 mrs) (y / 2) /\ shr_m (shr_1 mrs) = shr_m mrs / 2.
Proof.
  destruct mrs as [m r s]. cbn [shr_m]. intros Hm L.
  assert (E : m = 2 * (m / 2) + m mod 2) by (apply Z.div_mod; lia).
  assert (B : 0 <= m mod 2 < 2) by (apply Z.mod_pos_bound; lia).
  assert (Q : shr_1 {| shr_m := m; shr_r := r; shr_s := s |}
              = {| shr_m := m / 2; shr_r := Z.odd m; shr_s := orb r s |}).
  { destruct m as [|[p|p|]|]; try lia; cbn [shr_1 Z.odd].
    - reflexivity.
    - f_equal. rewrite Pos2Z.inj_xI.
      apply (Z.div_unique_pos _ 2 _ 1); lia.
    - f_equal. rewrite Pos2Z.inj_xO.
      apply (Z.div_unique_pos _ 2 _ 0); lia.
    - reflexivity. }
  rewrite Q. split; [|reflexivity].
  assert (O : Z.odd m = negb (Z.eqb (m mod 2) 0)).
  { rewrite Zmod_odd. now destruct (Z.odd m). }
  unfold located in *. cbn [shr_m shr_r shr_s] in *.
  assert (EM : IZR m = (2 * IZR (m / 2) + IZR (m mod 2))%R).
  { rewrite <- mult_IZR, <- plus_IZR. now rewrite <- E. }
  rewrite O.
  destruct (Z.eqb_spec (m mod 2) 0) as [Z0|Z0]; cbn [negb].
  - rewrite Z0 in EM. destruct r, s; cbn [orb]; lra.
  - assert (m mod 2 = 1) by lia. replace (m mod 2) with 1 in EM.
    destruct r, s; cbn [orb]; lra.
Qed.

Lemma iter_pos_nat {A : Type} (f : A -> A) (p : positive) (x : A) :
  iter_pos f p x = Nat.iter (Pos.to_nat p) f x.
Proof.
  revert x. induction p as [p IH|p IH|]; intros x; cbn [iter_pos].
  - rewrite !IH. rewrite Pos2Nat.inj_xI.
    replace (S (2 * Pos.to_nat p))%nat with (Pos.to_nat p + (Pos.to_nat p + 1))%nat by lia.
    rewrite !Nat.iter_add. reflexivity.
  - rewrite !IH. rewrite Pos2Nat.inj_xO.
    replace (2 * Pos.to_nat p)%nat with (Pos.to_nat p + Pos.to_nat p)%nat by lia.
    rewrite Nat.iter_add. reflexivity.
  - reflexivity.
Qed.

Lemma shr_nat_spec (n : nat) (mrs : shr_record) (y : R) :
  0 <= shr_m mrs -> located mrs y ->
  located (Nat.iter n shr_1 mrs) (y / 2 ^ n)
  /\ shr_m (Nat.iter n shr_1 mrs) = shr_m mrs / 2 ^ Z.of_nat n.
Proof.
  intros Hm L. induction n as [|n [IL IM]].
  - change (Nat.iter 0 shr_1 mrs) with mrs. split.
    + replace (y / 2 ^ 0)%R with y by (simpl; lra). exact L.
    + simpl. now rewrite Z.div_1_r.
  - rewrite Nat.iter_succ.
    assert (P : 0 <= shr_m (Nat.iter n shr_1 mrs)).
    { rewrite IM. apply Z.div_pos; [lia|]. apply Z.pow_pos_nonneg; lia. }
    destruct (shr_1_spec _ _ P IL) as [SL SM]. split.
    + replace (y / 2 ^ S n)%R with (y / 2 ^ n / 2)%R; [exact SL|].
      simpl. field. apply pow_nonzero. lra.
    + rewrite SM, IM. rewrite Nat2Z.inj_succ, Z.pow_succ_r by lia.
      rewrite Z.div_div by (try apply Z.pow_pos_nonneg; lia).
      f_equal. lia.
Qed.

Lemma bpow_pos (e : Z) : (0 < bpow e)%R.
Proof. apply powerRZ_lt. lra. Qed.

Lemma bpow_add (a b : Z) : bpow (a + b) = (bpow a * bpow b)%R.
Proof. apply powerRZ_add. lra. Qed.

Lemma bpow_0 : bpow 0 = 1%R.
Proof. reflexivity. Qed.

Lemma bpow_1 : bpow 1 = 2%R.
Proof. unfold bpow. simpl. lra. Qed.

Lemma bpow_succ (e : Z) : bpow (e + 1) = (2 * bpow e)%R.
Proof. rewrite bpow_add, bpow_1. lra. Qed.

Lemma bpow_opp (e : Z) : bpow (- e) = (/ bpow e)%R.
Proof. apply powerRZ_neg'. Qed.

Lemma bpow_sub (a b : Z) : bpow (a - b) = (bpow a / bpow b)%R.
Proof. unfold Z.sub. rewrite bpow_add, bpow_opp. reflexivity. Qed.

Lemma bpow_nat (n : nat) : bpow (Z.of_nat n) = (2 ^ n)%R.
Proof. unfold bpow. now rewrite <- pow_powerRZ. Qed.

Lemma bpow_IZR (k : Z) : 0 <= k -> bpow k = IZR (2 ^ k).
Proof.
  intros H. rewrite <- (Z2Nat.id k H) at 1. rewrite bpow_nat.
  rewrite <- (Z2Nat.id k H) at 2. now rewrite <- pow_IZR.
Qed.

Lemma bpow_le (a b : Z) : a <= b -> (bpow a <= bpow b)%R.
Proof.
  intros H. replace b with (a + (b - a)) by lia. rewrite bpow_add.
  rewrite (bpow_IZR (b - a)) by lia.
  assert (1 <= 2 ^ (b - a)) by (pose proof (Z.pow_pos_nonneg 2 (b - a)); lia).
  apply IZR_le in H0. pose proof (bpow_pos a). nra.
Qed.

Lemma bpow_lt (a b : Z) : a < b -> (bpow a < bpow b)%R.
Proof.
  intros H. replace b with (a + 1 + (b - a - 1)) by lia.
  rewrite bpow_add, bpow_succ. rewrite (bpow_IZR (b - a - 1)) by lia.
  assert (1 <= 2 ^ (b - a - 1)) by (pose proof (Z.pow_pos_nonneg 2 (b - a - 1)); lia).
  apply IZR_le in H0. pose proof (bpow_pos a). nra.
Qed.

Lemma shr_spec (mrs : shr_record) (e n : Z) (y : R) :
  0 <= shr_m mrs -> located mrs y -> 0 <= n ->
  snd (shr mrs e n) = e + n
  /\ located (fst (shr mrs e n)) (y / bpow n)
  /\ shr_m (fst (shr mrs e n)) = shr_m mrs / 2 ^ n.
Proof.
  intros Hm L Hn. destruct n as [|p|p]; [| |lia]; cbn [shr fst snd].
  - rewrite bpow_0, Z.add_0_r, Z.div_1_r. replace (y / 1)%R with y by lra. tauto.
  - rewrite iter_pos_nat.
    destruct (shr_nat_spec (Pos.to_nat p) mrs y Hm L) as [A B].
    rewrite <- (positive_nat_Z p). rewrite bpow_nat. tauto.
Qed.

Lemma shr_nonpos (mrs : shr_record) (e n : Z) : n <= 0 -> shr mrs e n = (mrs, e).
Proof. destruct n; [reflexivity|lia|reflexivity]. Qed.

Lemma rne_spec (mrs : shr_record) (y : R) :
  located mrs y ->
  let mr := round_nearest_even (shr_m mrs) (loc_of_shr_record mrs) in
  (mr = shr_m mrs \/ mr = shr_m mrs + 1) /\ (Rabs (IZR mr - y) <= 1 / 2)%R.
Proof.
  destruct mrs as [m r s]. unfold located. cbn [shr_m shr_r shr_s loc_of_shr_record].
  intros L.
  destruct r, s; cbn [round_nearest_even]; try destruct (Z.even m);
    rewrite ?plus_IZR; (split; [tauto|]); apply Rabs_le; lra.
Qed.

Lemma Zdigits2_div (m n : Z) :
  0 < m -> 0 <= n -> 0 < m / 2 ^ n -> Zdigits2 (m / 2 ^ n) = Zdigits2 m - n.
Proof.
  intros Hm Hn Hq.
  pose proof (Zdigits2_bounds m Hm) as [L U].
  pose proof (Zdigits2_pos m Hm) as P.
  assert (P2 : 0 < 2 ^ n) by (apply Z.pow_pos_nonneg; lia).
  assert (D : n < Zdigits2 m).
  { destruct (Z.lt_ge_cases n (Zdigits2 m)) as [C|C]; [exact C|].
    assert (2 ^ Zdigits2 m <= 2 ^ n) by (apply Z.pow_le_mono_r; lia).
    rewrite Z.div_small in Hq by lia. lia. }
  apply Zdigits2_unique; [|lia]. split.
  - apply Z.div_le_lower_bound; [lia|].
    rewrite <- Z.pow_add_r by lia. replace (n + (Zdigits2 m - n - 1)) with (Zdigits2 m - 1) by lia.
    exact L.
  - apply Z.div_lt_upper_bound; [lia|].
    rewrite <- Z.pow_add_r by lia. replace (n + (Zdigits2 m - n)) with (Zdigits2 m) by lia.
    exact U.
Qed.

Lemma fexp_unfold (k : Z) : SpecFloat.fexp prec emax k = Z.max (k - 53) (-1074).
Proof. reflexivity. Qed.

Lemma shr_m_of_loc (m : Z) (l : location) : shr_m (shr_record_of_loc m l) = m.
Proof. destruct l as [|[]]; reflexivity. Qed.

Lemma Zdigits2_succ_cases (m : Z) :
  0 < m -> Zdigits2 (m + 1) = Zdigits2 m \/ (m + 1 = 2 ^ Zdigits2 m /\ Zdigits2 (m + 1) = Zdigits2 m + 1).
Proof.
  intros Hm. pose proof (Zdigits2_bounds m Hm) as [L U].
  pose proof (Zdigits2_pos m Hm) as P.
  destruct (Z.eq_dec (m + 1) (2 ^ Zdigits2 m)) as [E|E].
  - right. split; [exact E|]. apply Zdigits2_unique; [|lia].
    replace (Zdigits2 m + 1 - 1) with (Zdigits2 m) by lia.
    rewrite Z.pow_add_r by lia. lia.
  - left. apply Zdigits2_unique; lia.
Qed.

Lemma binary_round_aux_spec (s : bool) (m e : Z) (l : location) (x : R) :
  0 <= m ->
  located (shr_record_of_loc m l) (x / bpow e) ->
  e <= SpecFloat.fexp prec emax (Zdigits2 m + e) ->
  exists m2 e2 mr,
    binary_round_aux prec emax s m e l = float_of s m2 e2
    /\ 0 <= m2
    /\ SpecFloat.fexp prec emax (Zdigits2 m + e) <= e2 <= SpecFloat.fexp prec emax (Zdigits2 m + e) + 1
    /\ (IZR m2 * bpow e2 = IZR mr * bpow (SpecFloat.fexp prec emax (Zdigits2 m + e)))%R
    /\ (Rabs (IZR mr * bpow (SpecFloat.fexp prec emax (Zdigits2 m + e)) - x) <= bpow (SpecFloat.fexp prec emax (Zdigits2 m + e)) / 2)%R
    /\ (0 < m2 -> SpecFloat.fexp prec emax (Zdigits2 m2 + e2) = e2).
Proof.
  intros Hm L He. set (e1 := SpecFloat.fexp prec emax (Zdigits2 m + e)) in *.
  unfold binary_round_aux, shr_fexp. fold e1.
  assert (Hm' : 0 <= shr_m (shr_record_of_loc m l)) by now rewrite shr_m_of_loc.
  destruct (shr_spec (shr_record_of_loc m l) e (e1 - e) (x / bpow e) Hm' L ltac:(lia))
    as (S1 & L1 & M1).
  destruct (shr (shr_record_of_loc m l) e (e1 - e)) as [mrs1 e1'].
  cbn [fst snd] in S1, L1, M1. rewrite shr_m_of_loc in M1.
  assert (EQ : e1' = e1) by lia. clear S1. subst e1'.
  assert (X : (x / bpow e / bpow (e1 - e) = x / bpow e1)%R).
  { replace e1 with (e + (e1 - e)) at 2 by lia. rewrite bpow_add.
    field. split; apply Rgt_not_eq, bpow_pos. }
  rewrite X in L1. clear X L Hm'.
  destruct (rne_spec mrs1 _ L1) as [C B].
  set (mr := round_nearest_even (shr_m mrs1) (loc_of_shr_record mrs1)) in *.
  assert (P2 : 0 < 2 ^ (e1 - e)) by (apply Z.pow_pos_nonneg; lia).
  assert (Hm1 : 0 <= shr_m mrs1) by (rewrite M1; apply Z.div_pos; lia).
  assert (Hmr : 0 <= mr) by lia.
  assert (E1 : -1074 <= e1) by (unfold e1; rewrite fexp_unfold; lia).
  (* the error on the rounded mantissa *)
  assert (ERR : (Rabs (IZR mr * bpow e1 - x) <= bpow e1 / 2)%R).
  { pose proof (bpow_pos e1) as Pe.
    replace (IZR mr * bpow e1 - x)%R with ((IZR mr - x / bpow e1) * bpow e1)%R
      by (field; lra).
    rewrite Rabs_mult, (Rabs_pos_eq (bpow e1)) by lra. nra. }
  (* the canonical exponent of the truncated mantissa *)
  assert (CAN : 0 < shr_m mrs1 -> SpecFloat.fexp prec emax (Zdigits2 (shr_m mrs1) + e1) = e1).
  { intros Q. rewrite M1 in Q |- *.
    assert (0 < m) by (destruct (Z.eq_dec m 0) as [->|]; [rewrite Z.div_0_l in Q; lia|lia]).
    rewrite Zdigits2_div by lia.
    replace (Zdigits2 m - (e1 - e) + e1) with (Zdigits2 m + e) by lia. reflexivity. }
  assert (SUB : shr_m mrs1 = 0 -> e1 = -1074).
  { intros Q. rewrite M1 in Q.
    assert (D : Zdigits2 m <= e1 - e).
    { destruct (Z.eq_dec m 0) as [->|N]; [simpl; lia|].
      pose proof (Zdigits2_bounds m ltac:(lia)) as [Lb Ub].
      pose proof (Zdigits2_pos m ltac:(lia)).
      destruct (Z.le_gt_cases (Zdigits2 m) (e1 - e)) as [G|G]; [exact G|].
      assert (2 ^ (e1 - e) <= 2 ^ (Zdigits2 m - 1)) by (apply Z.pow_le_mono_r; lia).
      assert (1 <= m / 2 ^ (e1 - e)).
      { apply Z.div_le_lower_bound; lia. }
      lia. }
    unfold e1 in *. rewrite fexp_unfold in *. lia. }
  destruct (Z.eq_dec mr 0) as [Z0|NZ].
  - (* rounded to zero *)
    exists 0, e1, mr. rewrite Z0. cbn [Zdigits2].
    rewrite shr_nonpos by (rewrite fexp_unfold; lia).
    cbn [shr_m float_of]. rewrite Z0 in ERR.
    repeat split; try lia; try exact ERR. 
  - destruct (Z.eq_dec (SpecFloat.fexp prec emax (Zdigits2 mr + e1)) e1) as [K|K].
    + exists mr, e1, mr. rewrite shr_nonpos by lia. cbn [shr_m].
      repeat split; try lia; try exact ERR.
    + (* a carry into the next binade *)
      assert (Q : 0 < shr_m mrs1).
      { destruct (Z.eq_dec (shr_m mrs1) 0) as [Q|Q]; [|lia].
        exfalso. apply K. specialize (SUB Q).
        assert (mr = 1) by lia. subst mr. replace (round_nearest_even _ _) with 1 by lia.
        cbn [Zdigits2 digits2_pos]. rewrite fexp_unfold. lia. }
      specialize (CAN Q).
      assert (mr = shr_m mrs1 + 1).
      { destruct C as [C|C]; [|exact C]. exfalso. apply K. now rewrite C. }
      destruct (Zdigits2_succ_cases (shr_m mrs1) Q) as [D|[D1 D2]].
      { exfalso. apply K. rewrite H, D. exact CAN. }
      pose proof (Zdigits2_pos _ Q) as Dp.
      assert (D53 : Zdigits2 (shr_m mrs1) = 53).
      { rewrite H, D2 in K. rewrite fexp_unfold in K, CAN. lia. }
      assert (MR : mr = 2 ^ 53) by (rewrite H, D1, D53; reflexivity).
      assert (F1 : SpecFloat.fexp prec emax (Zdigits2 mr + e1) - e1 = 1).
      { rewrite H, D2, D53. rewrite fexp_unfold in *. lia. }
      rewrite F1. exists (2 ^ 52), (e1 + 1), mr.
      replace (shr_record_of_loc mr loc_Exact) with
        {| shr_m := 2 ^ 53; shr_r := false; shr_s := false |} by (rewrite MR; reflexivity).
      cbn [shr iter_pos]. 
      split; [reflexivity|]. split; [lia|]. split; [lia|]. split.
      { rewrite MR, bpow_succ. rewrite <- !bpow_IZR by lia.
        replace 53 with (52 + 1) by lia. rewrite (bpow_succ 52). lra. }
      split; [exact ERR|]. intros _. 
      change (Zdigits2 (2 ^ 52)) with 53. rewrite fexp_unfold in *. lia.
Qed.

Lemma float_of_valid (s : bool) (m e : Z) :
  (0 < m -> SpecFloat.fexp prec emax (Zdigits2 m + e) = e) -> valid (float_of s m e) = true.
Proof.
  intros C. unfold float_of. destruct m as [|p|p]; try reflexivity.
  destruct (Z.leb_spec e (emax - prec)) as [L|L]; [|reflexivity].
  unfold valid, valid_binary, bounded, canonical_mantissa.
  specialize (C ltac:(lia)). cbn [Zdigits2] in C. rewrite C, Z.eqb_refl.
  apply Z.leb_le in L. now rewrite L.
Qed.

Lemma float_of_B2R (s : bool) (m e : Z) :
  0 <= m -> is_finite (float_of s m e) = true ->
  B2R (float_of s m e) = (IZR (cond_Zopp s m) * bpow e)%R.
Proof.
  intros Hm. unfold float_of. destruct m as [|p|p]; try lia.
  - intros _. destruct s; simpl; lra.
  - destruct (Z.leb e (emax - prec)); [reflexivity|discriminate].
Qed.

Lemma float_of_finite (s : bool) (m e : Z) :
  0 <= m -> e <= emax - prec -> is_finite (float_of s m e) = true.
Proof.
  intros Hm He. unfold float_of. destruct m as [|p|p]; try lia; [reflexivity|].
  apply Z.leb_le in He. now rewrite He.
Qed.

Lemma float_of_sign (s : bool) (m e : Z) :
  0 <= m -> sign_of (float_of s m e) = s.
Proof.
  intros Hm. unfold float_of. destruct m as [|p|p]; try lia; [reflexivity|].
  now destruct (Z.leb e (emax - prec)).
Qed.

Lemma float_of_not_nan (s : bool) (m e : Z) :
  0 <= m -> float_of s m e <> S754_nan.
Proof.
  intros Hm. unfold float_of. destruct m as [|p|p]; try lia; [discriminate|].
  destruct (Z.leb e (emax - prec)); discriminate.
Qed.

Lemma pos_iter_xO (m d : positive) : Zpos (Pos.iter xO m d) = Zpos m * 2 ^ Zpos d.
Proof.
  induction d as [|d IH] using Pos.peano_ind.
  - simpl. lia.
  - rewrite Pos.iter_succ, Pos2Z.inj_xO, IH, Pos2Z.inj_succ, Z.pow_succ_r by lia. lia.
Qed.

Lemma shl_align_spec (mx : positive) (ex e' : Z) :
  let '(mz, ez) := shl_align mx ex e' in
  ez = Z.min ex e' /\ Zpos mz = Zpos mx * 2 ^ (ex - ez).
Proof.
  unfold shl_align. destruct (e' - ex) as [|d|d] eqn:E.
  - split; [lia|]. rewrite Z.sub_diag. simpl. lia.
  - split; [lia|]. rewrite Z.sub_diag. simpl. lia.
  - split; [lia|]. rewrite pos_iter_xO. f_equal. f_equal. lia.
Qed.

Lemma Zdigits2_mul_pow (m k : Z) :
  0 < m -> 0 <= k -> Zdigits2 (m * 2 ^ k) = Zdigits2 m + k.
Proof.
  intros Hm Hk. pose proof (Zdigits2_bounds m Hm) as [L U].
  pose proof (Zdigits2_pos m Hm) as P.
  assert (P2 : 0 < 2 ^ k) by (apply Z.pow_pos_nonneg; lia).
  apply Zdigits2_unique; [|lia]. split.
  - replace (Zdigits2 m + k - 1) with (Zdigits2 m - 1 + k) by lia.
    rewrite Z.pow_add_r by lia. nia.
  - rewrite Z.pow_add_r by lia. nia.
Qed.

Lemma binary_round_spec (s : bool) (mx : positive) (ex : Z) :
  exists m2 e2 mr,
    binary_round prec emax s mx ex = float_of s m2 e2
    /\ 0 <= m2
    /\ SpecFloat.fexp prec emax (Zdigits2 (Zpos mx) + ex) <= e2 <= SpecFloat.fexp prec emax (Zdigits2 (Zpos mx) + ex) + 1
    /\ (IZR m2 * bpow e2 = IZR mr * bpow (SpecFloat.fexp prec emax (Zdigits2 (Zpos mx) + ex)))%R
    /\ (Rabs (IZR mr * bpow (SpecFloat.fexp prec emax (Zdigits2 (Zpos mx) + ex)) - IZR (Zpos mx) * bpow ex)
        <= bpow (SpecFloat.fexp prec emax (Zdigits2 (Zpos mx) + ex)) / 2)%R
    /\ (0 < m2 -> SpecFloat.fexp prec emax (Zdigits2 m2 + e2) = e2).
Proof.
  unfold binary_round.
  pose proof (shl_align_spec mx ex (SpecFloat.fexp prec emax (Zpos (digits2_pos mx) + ex))) as A.
  destruct (shl_align mx ex (SpecFloat.fexp prec emax (Zpos (digits2_pos mx) + ex))) as [mz ez].
  destruct A as [Ez Mz]. cbn [Zdigits2].
  set (e1 := SpecFloat.fexp prec emax (Zpos (digits2_pos mx) + ex)) in *.
  assert (D : Zdigits2 (Zpos mz) + ez = Zpos (digits2_pos mx) + ex).
  { rewrite Mz, Zdigits2_mul_pow by lia. cbn [Zdigits2]. lia. }
  assert (X : (IZR (Zpos mx) * bpow ex = IZR (Zpos mz) * bpow ez)%R).
  { rewrite Mz, mult_IZR. replace ex with (ez + (ex - ez)) at 1 by lia.
    rewrite bpow_add, (bpow_IZR (ex - ez)) by lia. lra. }
  destruct (binary_round_aux_spec s (Zpos mz) ez loc_Exact (IZR (Zpos mz) * bpow ez))
    as (m2 & e2 & mr & H).
  - lia.
  - unfold located. cbn [shr_record_of_loc shr_m shr_r shr_s].
    field. apply Rgt_not_eq, bpow_pos.
  - rewrite D. fold e1. lia.
  - rewrite D in H. fold e1 in H. rewrite X. exists m2, e2, mr. exact H.
Qed.

Lemma IZR_cond_Zopp (s : bool) (m : Z) :
  IZR (cond_Zopp s m) = (if s then - IZR m else IZR m)%R.
Proof. destruct s; simpl; [apply opp_IZR|reflexivity]. Qed.

Lemma half_integer (k : Z) : (Rabs (IZR k) <= 1 / 2)%R -> k = 0.
Proof.
  intros H. unfold Rabs in H.
  assert (-1 < k < 1); [|lia].
  destruct (Rcase_abs (IZR k)); split; apply lt_IZR; lra.
Qed.

Lemma bpow_digits_le (m e : Z) :
  0 < m -> (bpow (Zdigits2 m - 1 + e) <= IZR m * bpow e)%R.
Proof.
  intros Hm. pose proof (Zdigits2_bounds m Hm) as [L _].
  pose proof (Zdigits2_pos m Hm).
  rewrite bpow_add, (bpow_IZR (Zdigits2 m - 1)) by lia.
  apply IZR_le in L. pose proof (bpow_pos e). nra.
Qed.

Lemma binary_round_rel (s : bool) (mx : positive) (ex : Z) :
  -1074 <= ex ->
  let z := binary_round prec emax s mx ex in
  let X := (IZR (cond_Zopp s (Zpos mx)) * bpow ex)%R in
  valid z = true /\ sign_of z = s /\ z <> S754_nan
  /\ ((Rabs X < bpow 1023)%R ->
      is_finite z = true /\ (Rabs (B2R z - X) <= bpow (-53) * Rabs X)%R).
Proof.
  intros Hex z X.
  destruct (binary_round_spec s mx ex) as (m2 & e2 & mr & E & P & B & V & ERR & C).
  set (e1 := SpecFloat.fexp prec emax (Zdigits2 (Zpos mx) + ex)) in *.
  fold z in E. rewrite E.
  split; [now apply float_of_valid|]. split; [now apply float_of_sign|].
  split; [now apply float_of_not_nan|].
  intros Hx.
  assert (AX : Rabs X = (IZR (Zpos mx) * bpow ex)%R).
  { unfold X. rewrite IZR_cond_Zopp. pose proof (bpow_pos ex).
    assert (0 < IZR (Zpos mx))%R by (apply IZR_lt; lia).
    destruct s; [rewrite <- Ropp_mult_distr_l, Rabs_Ropp|]; apply Rabs_pos_eq; nra. }
  rewrite AX in Hx |- *.
  pose proof (bpow_digits_le (Zpos mx) ex ltac:(lia)) as LB.
  assert (D : Zdigits2 (Zpos mx) + ex <= 1023).
  { destruct (Z.le_gt_cases (Zdigits2 (Zpos mx) + ex) 1023) as [G|G]; [exact G|].
    assert (bpow 1023 <= bpow (Zdigits2 (Zpos mx) - 1 + ex))%R by (apply bpow_le; lia).
    lra. }
  assert (F : is_finite (float_of s m2 e2) = true).
  { apply float_of_finite; [exact P|]. unfold e1 in B. rewrite fexp_unfold in B.
    unfold emax, prec. lia. }
  split; [exact F|]. rewrite (float_of_B2R _ _ _ P F).
  assert (VS : (IZR (cond_Zopp s m2) * bpow e2 - X
                = (if s then -1 else 1) * (IZR mr * bpow e1 - IZR (Zpos mx) * bpow ex))%R).
  { unfold X. rewrite !IZR_cond_Zopp. destruct s; lra. }
  rewrite VS, Rabs_mult.
  replace (Rabs (if s then -1 else 1))%R with 1%R
    by (destruct s; unfold Rabs; destruct Rcase_abs; lra).
  rewrite Rmult_1_l.
  destruct (Z.le_gt_cases e1 ex) as [G|G].
  - (* the value is representable *)
    assert (K : (IZR mr * bpow e1 - IZR (Zpos mx) * bpow ex
                 = IZR (mr - Zpos mx * 2 ^ (ex - e1)) * bpow e1)%R).
    { rewrite minus_IZR, mult_IZR, <- (bpow_IZR (ex - e1)) by lia.
      replace ex with (e1 + (ex - e1)) at 1 by lia. rewrite bpow_add. lra. }
    rewrite K in ERR |- *. pose proof (bpow_pos e1) as Pe.
    rewrite Rabs_mult, (Rabs_pos_eq (bpow e1)) in ERR by lra.
    assert (Z0 : mr - Zpos mx * 2 ^ (ex - e1) = 0).
    { apply half_integer. apply Rmult_le_reg_r with (bpow e1); [lra|].
      revert ERR. generalize (Rabs (IZR (mr - Z.pos mx * 2 ^ (ex - e1)))).
      intros a ERR. lra. }
    rewrite Z0, Rmult_0_l, Rabs_R0. pose proof (bpow_pos (-53)). pose proof (bpow_pos ex).
    assert (0 < IZR (Zpos mx))%R by (apply IZR_lt; lia).
    apply Rmult_le_pos; [lra|]. apply Rmult_le_pos; lra.
  - assert (E1 : e1 = Zdigits2 (Zpos mx) + ex - 53).
    { unfold e1 in *. rewrite fexp_unfold in *. lia. }
    eapply Rle_trans; [exact ERR|].
    assert (bpow e1 / 2 = bpow (-53) * bpow (Zdigits2 (Zpos mx) - 1 + ex))%R.
    { rewrite <- bpow_add. replace (-53 + (Zdigits2 (Zpos mx) - 1 + ex)) with (e1 - 1) by lia.
      rewrite bpow_sub, bpow_1. reflexivity. }
    pose proof (bpow_pos (-53)). nra.
Qed.

Lemma valid_finite (s : bool) (m : positive) (e : Z) :
  valid (S754_finite s m e) = true ->
  SpecFloat.fexp prec emax (Zpos (digits2_pos m) + e) = e /\ e <= 971 /\ -1074 <= e.
Proof.
  unfold valid, valid_binary, bounded, canonical_mantissa. intros H.
  apply andb_true_iff in H. destruct H as [C B].
  apply Z.eqb_eq in C. apply Z.leb_le in B. unfold emax, prec in B.
  split; [exact C|]. split; [lia|]. rewrite fexp_unfold in C. lia.
Qed.

Lemma shl_align_value (s : bool) (m : positive) (e ez : Z) :
  ez <= e ->
  (IZR (cond_Zopp s (Zpos (fst (shl_align m e ez)))) * bpow ez
   = IZR (cond_Zopp s (Zpos m)) * bpow e)%R.
Proof.
  intros H. pose proof (shl_align_spec m e ez) as A.
  destruct (shl_align m e ez) as [mz ez']. destruct A as [E M]. cbn [fst].
  assert (Q : ez' = ez) by lia. clear E. subst ez'. rewrite !IZR_cond_Zopp, M, mult_IZR.
  rewrite <- (bpow_IZR (e - ez)) by lia.
  assert (B : (bpow e = bpow ez * bpow (e - ez))%R) by (rewrite <- bpow_add; f_equal; lia).
  rewrite B. destruct s; lra.
Qed.

Lemma binary_normalize_rel (M ez : Z) :
  -1074 <= ez ->
  let z := binary_normalize prec emax M ez false in
  let X := (IZR M * bpow ez)%R in
  valid z = true /\ z <> S754_nan
  /\ (M < 0 -> sign_of z = true) /\ (0 <= M -> sign_of z = false)
  /\ ((Rabs X < bpow 1023)%R ->
      is_finite z = true /\ (Rabs (B2R z - X) <= bpow (-53) * Rabs X)%R).
Proof.
  intros He z X. destruct M as [|p|p]; cbn [binary_normalize] in z.
  - split; [reflexivity|]. split; [discriminate|]. split; [lia|]. split; [reflexivity|].
    intros _. split; [reflexivity|].
    unfold z, X. cbn [B2R]. rewrite Rmult_0_l, Rminus_diag, Rabs_R0. lra.
  - destruct (binary_round_rel false p ez He) as (V & S & N & R).
    repeat split; try tauto; try lia.
  - destruct (binary_round_rel true p ez He) as (V & S & N & R).
    repeat split; try tauto; try lia.
Qed.

Lemma SFadd_spec (x y : float) :
  valid x = true -> valid y = true -> is_finite x = true -> is_finite y = true ->
  let X := (B2R x + B2R y)%R in
  valid (SFadd prec emax x y) = true /\ SFadd prec emax x y <> S754_nan
  /\ ((X < 0)%R -> sign_of (SFadd prec emax x y) = true)
  /\ ((0 < X)%R -> sign_of (SFadd prec emax x y) = false)
  /\ ((Rabs X < bpow 1023)%R ->
      is_finite (SFadd prec emax x y) = true
      /\ (Rabs (B2R (SFadd prec emax x y) - X) <= bpow (-53) * Rabs X)%R).
Proof.
  intros Vx Vy Fx Fy X.
  assert (SG : forall z : float, is_finite z = true ->
               ((B2R z < 0)%R -> sign_of z = true) /\ ((0 < B2R z)%R -> sign_of z = false)).
  { intros [s|s| |s m e]; try discriminate; intros _; cbn [B2R sign_of]; [split; lra|].
    rewrite IZR_cond_Zopp. pose proof (bpow_pos e).
    assert (0 < IZR (Zpos m))%R by (apply IZR_lt; lia).
    destruct s; split; try reflexivity; nra. }
  assert (T : forall z : float, valid z = true -> is_finite z = true -> B2R z = X ->
              valid z = true /\ z <> S754_nan
              /\ ((X < 0)%R -> sign_of z = true)
              /\ ((0 < X)%R -> sign_of z = false)
              /\ ((Rabs X < bpow 1023)%R ->
                  is_finite z = true /\ (Rabs (B2R z - X) <= bpow (-53) * Rabs X)%R)).
  { intros z V F E. split; [exact V|]. split; [now destruct z|].
    rewrite <- E. split; [apply SG, F|]. split; [apply SG, F|].
    intros _. split; [exact F|].
    rewrite Rminus_diag, Rabs_R0. pose proof (bpow_pos (-53)).
    pose proof (Rabs_pos (B2R z)). nra. }
  destruct x as [sx|sx| |sx mx ex]; try discriminate;
    destruct y as [sy|sy| |sy my ey]; try discriminate.
  - apply T; [now destruct sx, sy| now destruct sx, sy|].
    unfold X. destruct sx, sy; simpl; lra.
  - apply T; [exact Vy|reflexivity|]. unfold X. simpl. lra.
  - apply T; [exact Vx|reflexivity|]. unfold X. simpl. lra.
  - destruct (valid_finite _ _ _ Vx) as (_ & _ & Ex).
    destruct (valid_finite _ _ _ Vy) as (_ & _ & Ey).
    cbn [SFadd]. set (ez := Z.min ex ey).
    set (M := cond_Zopp sx (Zpos (fst (shl_align mx ex ez)))
              + cond_Zopp sy (Zpos (fst (shl_align my ey ez)))).
    assert (E : X = (IZR M * bpow ez)%R).
    { unfold M. rewrite plus_IZR, Rmult_plus_distr_r, !shl_align_value by (unfold ez; lia).
      reflexivity. }
    destruct (binary_normalize_rel M ez ltac:(unfold ez; lia)) as (V & N & S1 & S2 & R).
    rewrite <- E in R. pose proof (bpow_pos ez) as Pe.
    split; [exact V|]. split; [exact N|]. split; [|split; [|exact R]].
    + intros HX. apply S1. rewrite E in HX.
      destruct (Z.lt_ge_cases M 0) as [G|G]; [exact G|]. apply IZR_le in G. nra.
    + intros HX. apply S2. rewrite E in HX.
      destruct (Z.lt_ge_cases M 0) as [G|G]; [|exact G]. apply IZR_lt in G. nra.
Qed.

Lemma SFsub_SFadd_opp (x y : float) :
  SFsub prec emax x y = SFadd prec emax x (SFopp y).
Proof.
  destruct x as [sx|sx| |sx mx ex], y as [sy|sy| |sy my ey]; try reflexivity;
    try (destruct sx, sy; reflexivity).
Qed.

Lemma valid_SFopp (x : float) : valid (SFopp x) = valid x.
Proof. now destruct x. Qed.

Lemma is_finite_SFopp (x : float) : is_finite (SFopp x) = is_finite x.
Proof. now destruct x. Qed.

Lemma B2R_SFopp (x : float) : B2R (SFopp x) = (- B2R x)%R.
Proof.
  destruct x as [s|s| |s m e]; cbn [SFopp B2R]; try lra.
  rewrite !IZR_cond_Zopp. destruct s; cbn [negb]; lra.
Qed.

Lemma SFsub_spec (x y : float) :
  valid x = true -> valid y = true -> is_finite x = true -> is_finite y = true ->
  let X := (B2R x - B2R y)%R in
  valid (SFsub prec emax x y) = true /\ SFsub prec emax x y <> S754_nan
  /\ ((X < 0)%R -> sign_of (SFsub prec emax x y) = true)
  /\ ((0 < X)%R -> sign_of (SFsub prec emax x y) = false)
  /\ ((Rabs X < bpow 1023)%R ->
      is_finite (SFsub prec emax x y) = true
      /\ (Rabs (B2R (SFsub prec emax x y) - X) <= bpow (-53) * Rabs X)%R).
Proof.
  intros Vx Vy Fx Fy X. rewrite SFsub_SFadd_opp.
  pose proof (SFadd_spec x (SFopp y) Vx) as H.
  rewrite valid_SFopp, is_finite_SFopp, B2R_SFopp in H.
  exact (H Vy Fx Fy).
Qed.

Lemma Rcompare_Lt (x y : R) : (x < y)%R -> Rcompare x y = Lt.
Proof. intros H. unfold Rcompare. destruct (total_order_T x y) as [[|]|]; try reflexivity; lra. Qed.

Lemma Rcompare_Eq (x y : R) : x = y -> Rcompare x y = Eq.
Proof. intros H. unfold Rcompare. destruct (total_order_T x y) as [[|]|]; try reflexivity; lra. Qed.

Lemma Rcompare_Gt (x y : R) : (y < x)%R -> Rcompare x y = Gt.
Proof. intros H. unfold Rcompare. destruct (total_order_T x y) as [[|]|]; try reflexivity; lra. Qed.

Lemma Rcompare_spec (x y : R) :
  CompareSpec (x = y) (x < y)%R (y < x)%R (Rcompare x y).
Proof. unfold Rcompare. destruct (total_order_T x y) as [[|]|]; constructor; assumption. Qed.

Lemma SFcompare_finite (x y : float) :
  valid x = true -> valid y = true -> is_finite x = true -> is_finite y = true ->
  SFcompare x y = Some (Rcompare (B2R x) (B2R y)).
Proof.
  intros Vx Vy Fx Fy.
  assert (PZ : forall (m : positive) (e : Z), (0 < IZR (Zpos m) * bpow e)%R).
  { intros m e. pose proof (bpow_pos e). assert (0 < IZR (Zpos m))%R by (apply IZR_lt; lia). nra. }
  destruct x as [sx|sx| |sx mx ex]; try discriminate;
    destruct y as [sy|sy| |sy my ey]; try discriminate; cbn [SFcompare B2R].
  - now rewrite Rcompare_Eq.
  - rewrite IZR_cond_Zopp. pose proof (PZ my ey). f_equal. symmetry.
    destruct sy; [apply Rcompare_Gt|apply Rcompare_Lt]; lra.
  - rewrite IZR_cond_Zopp. pose proof (PZ mx ex). f_equal. symmetry.
    destruct sx; [apply Rcompare_Lt|apply Rcompare_Gt]; lra.
  - destruct (valid_finite _ _ _ Vx) as (Cx & _ & _).
    destruct (valid_finite _ _ _ Vy) as (Cy & _ & _).
    pose proof (PZ mx ex) as Px. pose proof (PZ my ey) as Py.
    pose proof (digits2_pos_bounds mx) as [Lx Ux].
    pose proof (digits2_pos_bounds my) as [Ly Uy].
    (* the order of the magnitudes *)
    assert (M : match Z.compare ex ey with
                | Lt => (IZR (Zpos mx) * bpow ex < IZR (Zpos my) * bpow ey)%R
                | Gt => (IZR (Zpos my) * bpow ey < IZR (Zpos mx) * bpow ex)%R
                | Eq => ex = ey
                end).
    { assert (G : forall (m1 m2 : positive) (e1 e2 : Z),
                 SpecFloat.fexp prec emax (Zpos (digits2_pos m1) + e1) = e1 ->
                 SpecFloat.fexp prec emax (Zpos (digits2_pos m2) + e2) = e2 ->
                 e1 < e2 -> (IZR (Zpos m1) * bpow e1 < IZR (Zpos m2) * bpow e2)%R).
      { intros m1 m2 e1 e2 C1 C2 L.
        pose proof (digits2_pos_bounds m1) as [_ U1].
        pose proof (digits2_pos_bounds m2) as [L2 _].
        rewrite fexp_unfold in C1, C2.
        assert (D2 : Zpos (digits2_pos m2) = 53) by lia.
        assert (D1 : Zpos (digits2_pos m1) <= 53) by lia.
        rewrite D2 in L2.
        assert (Zpos m1 < 2 ^ 53).
        { eapply Z.lt_le_trans; [exact U1|]. apply Z.pow_le_mono_r; lia. }
        replace e2 with (e1 + (e2 - e1)) by lia. rewrite bpow_add.
        rewrite (bpow_IZR (e2 - e1)) by lia.
        assert (2 <= 2 ^ (e2 - e1)).
        { change 2 with (2 ^ 1) at 1. apply Z.pow_le_mono_r; lia. }
        pose proof (bpow_pos e1).
        apply IZR_lt in H. apply IZR_le in L2, H0.
        change (2 ^ (53 - 1)) with 4503599627370496 in L2.
        change (2 ^ 53) with 9007199254740992 in H.
        assert (K : (9007199254740992 <= IZR (Zpos m2) * IZR (2 ^ (e2 - e1)))%R) by nra.
        replace (IZR (Zpos m2) * (bpow e1 * IZR (2 ^ (e2 - e1))))%R
          with (IZR (Zpos m2) * IZR (2 ^ (e2 - e1)) * bpow e1)%R by ring.
        apply Rlt_le_trans with (9007199254740992 * bpow e1)%R; nra. }
      destruct (Z.compare_spec ex ey) as [E|L|L]; [exact E| |]; now apply G. }
    assert (Q : forall c, Some c = Some (Rcompare (IZR (Zpos mx) * bpow ex) (IZR (Zpos my) * bpow ey)) ->
                match sx, sy with
                | true, false => Some Lt
                | false, true => Some Gt
                | false, false => Some c
                | true, true => Some (CompOpp c)
                end = Some (Rcompare (IZR (cond_Zopp sx (Zpos mx)) * bpow ex)
                                     (IZR (cond_Zopp sy (Zpos my)) * bpow ey))).
    { intros c [= ->]. rewrite !IZR_cond_Zopp. 
      destruct sx, sy; f_equal.
      - rewrite <- !Ropp_mult_distr_l. 
        destruct (Rcompare_spec (IZR (Zpos mx) * bpow ex) (IZR (Zpos my) * bpow ey));
          cbn [CompOpp]; symmetry;
          [apply Rcompare_Eq|apply Rcompare_Gt|apply Rcompare_Lt]; lra.
      - symmetry. apply Rcompare_Lt. lra.
      - symmetry. apply Rcompare_Gt. lra. }
    assert (C : match Z.compare ex ey with
                | Lt => Lt | Gt => Gt | Eq => Pos.compare_cont Eq mx my end
                = Rcompare (IZR (Zpos mx) * bpow ex) (IZR (Zpos my) * bpow ey)).
    { destruct (Z.compare ex ey).
      - subst ey. symmetry. pose proof (bpow_pos ex).
        change (Pos.compare_cont Eq mx my) with (Pos.compare mx my).
        destruct (Pos.compare_spec mx my) as [E|L|L].
        + subst. now apply Rcompare_Eq.
        + apply Rcompare_Lt. assert (IZR (Zpos mx) < IZR (Zpos my))%R by (apply IZR_lt; lia). nra.
        + apply Rcompare_Gt. assert (IZR (Zpos my) < IZR (Zpos mx))%R by (apply IZR_lt; lia). nra.
      - symmetry. now apply Rcompare_Lt.
      - symmetry. now apply Rcompare_Gt. }
    specialize (Q _ (f_equal Some C)).
    rewrite <- Q. destruct sx, sy; try reflexivity.
    f_equal. now destruct (Z.compare ex ey).
Qed.

Lemma new_location_spec (nb k : Z) :
  0 < nb -> 0 <= k < nb ->
  located (shr_record_of_loc 0 (new_location nb k)) (IZR k / IZR nb).
Proof.
  intros Hn Hk.
  assert (Pn : (0 < IZR nb)%R) by (apply IZR_lt; lia).
  assert (Q : forall c : comparison,
             k <> 0 ->
             match c with Lt => 2 * k < nb | Eq => 2 * k = nb | Gt => nb < 2 * k end ->
             located (shr_record_of_loc 0 (loc_Inexact c)) (IZR k / IZR nb)).
  { intros c Nk Hc.
    assert (0 < IZR k)%R by (apply IZR_lt; lia).
    assert (IZR k < IZR nb)%R by (apply IZR_lt; lia).
    assert (0 < IZR k / IZR nb < 1)%R.
    { split; [apply Rdiv_lt_0_compat; lra|]. apply Rmult_lt_reg_r with (IZR nb); [lra|].
      unfold Rdiv. rewrite Rmult_assoc, Rinv_l by lra. lra. }
    assert (E : (IZR k = IZR k / IZR nb * IZR nb)%R) by (field; lra).
    unfold located. destruct c; cbn [shr_record_of_loc shr_m shr_r shr_s].
    - assert (2 * IZR k = IZR nb)%R by (rewrite <- mult_IZR; f_equal; exact Hc). nra.
    - assert (2 * IZR k < IZR nb)%R by (rewrite <- mult_IZR; apply IZR_lt; exact Hc). nra.
    - assert (IZR nb < 2 * IZR k)%R by (rewrite <- mult_IZR; apply IZR_lt; exact Hc). nra. }
  unfold new_location.
  destruct (Z.even nb) eqn:Ev; [unfold new_location_even|unfold new_location_odd];
    destruct (Z.eqb_spec k 0) as [->|Nk];
    try (unfold located; cbn [shr_record_of_loc shr_m shr_r shr_s]; lra).
  - apply Q; [exact Nk|]. destruct (Z.compare_spec (2 * k) nb); lia.
  - assert (Od : Z.odd nb = true) by (rewrite <- Z.negb_even, Ev; reflexivity).
    apply Z.odd_spec in Od. destruct Od as [j Od].
    destruct (Z.compare_spec (2 * k + 1) nb); apply Q; try exact Nk; lia.
Qed.

Lemma located_shift (m : Z) (l : location) (y : R) :
  located (shr_record_of_loc 0 l) y -> located (shr_record_of_loc m l) (IZR m + y).
Proof. unfold located. destruct l as [|[]]; cbn [shr_record_of_loc shr_m shr_r shr_s]; lra. Qed.

Lemma fexp_mono (a b : Z) : a <= b -> SpecFloat.fexp prec emax a <= SpecFloat.fexp prec emax b.
Proof. rewrite !fexp_unfold. lia. Qed.

Lemma SFdiv_core_spec (mx my : positive) (ex ey : Z) :
  let '(q, e', l) := SFdiv_core_binary prec emax (Zpos mx) ex (Zpos my) ey in
  let X := (IZR (Zpos mx) * bpow ex / (IZR (Zpos my) * bpow ey))%R in
  0 <= q
  /\ located (shr_record_of_loc q l) (X / bpow e')
  /\ e' <= SpecFloat.fexp prec emax (Zdigits2 q + e')
  /\ (IZR q * bpow e' <= X)%R.
Proof.
  unfold SFdiv_core_binary.
  set (d1 := Zdigits2 (Zpos mx)). set (d2 := Zdigits2 (Zpos my)).
  set (e' := Z.min (SpecFloat.fexp prec emax (d1 + ex - (d2 + ey))) (ex - ey)).
  set (s := ex - ey - e').
  assert (Hs : 0 <= s) by (unfold s, e'; lia).
  set (m' := match s with Zpos _ => Z.shiftl (Zpos mx) s | Z0 => Zpos mx | Zneg _ => 0 end).
  assert (Hm' : m' = Zpos mx * 2 ^ s).
  { unfold m'. destruct s as [|p|p]; [simpl; lia| |lia]. apply Z.shiftl_mul_pow2. lia. }
  pose proof (Z_div_mod m' (Zpos my) ltac:(lia)) as DM.
  destruct (Z.div_eucl m' (Zpos my)) as [q r]. destruct DM as [DM Hr].
  assert (P2 : 0 < 2 ^ s) by (apply Z.pow_pos_nonneg; lia).
  assert (Hq : 0 <= q) by nia.
  pose proof (bpow_pos ex) as Pex. pose proof (bpow_pos ey) as Pey.
  pose proof (bpow_pos e') as Pe'.
  assert (Py : (0 < IZR (Zpos my))%R) by (apply IZR_lt; lia).
  assert (Px : (0 < IZR (Zpos mx))%R) by (apply IZR_lt; lia).
  assert (XE : (IZR (Zpos mx) * bpow ex / (IZR (Zpos my) * bpow ey) / bpow e'
                = IZR q + IZR r / IZR (Zpos my))%R).
  { assert (B : (bpow ex = bpow ey * bpow e' * bpow s)%R).
    { rewrite <- !bpow_add. f_equal. unfold s. lia. }
    rewrite B, (bpow_IZR s) by lia.
    assert (IZR (Zpos mx) * IZR (2 ^ s) = IZR (Zpos my) * IZR q + IZR r)%R.
    { rewrite <- !mult_IZR, <- plus_IZR. f_equal. lia. }
    field_simplify_eq; [|lra].
    replace (IZR (Zpos mx) * bpow ey * bpow e' * IZR (2 ^ s))%R
      with ((IZR (Zpos mx) * IZR (2 ^ s)) * bpow ey * bpow e')%R by ring.
    rewrite H. ring. }
  split; [exact Hq|]. split.
  { rewrite XE. apply located_shift. apply new_location_spec; lia. }
  split.
  { pose proof (digits2_pos_bounds mx) as [Lx Ux].
    pose proof (digits2_pos_bounds my) as [Ly Uy]. fold (Zdigits2 (Zpos mx)) in Lx, Ux.
    fold (Zdigits2 (Zpos my)) in Ly, Uy. fold d1 in Lx, Ux. fold d2 in Ly, Uy.
    assert (D1 : 0 < d1) by (unfold d1; simpl; lia).
    assert (D2 : 0 < d2) by (unfold d2; simpl; lia).
    assert (Le' : e' <= SpecFloat.fexp prec emax (d1 + ex - (d2 + ey))) by (unfold e'; lia).
    assert (M1 : 2 ^ (d1 - 1 + s) <= m').
    { rewrite Hm', Z.pow_add_r by lia. nia. }
    destruct (Z.eq_dec q 0) as [Q0|Q0].
    - subst q. cbn [Zdigits2]. 
      assert (d1 - 1 + s < d2).
      { destruct (Z.lt_ge_cases (d1 - 1 + s) d2) as [G|G]; [exact G|].
        assert (2 ^ d2 <= 2 ^ (d1 - 1 + s)) by (apply Z.pow_le_mono_r; lia). lia. }
      rewrite fexp_unfold in *. unfold s in *. lia.
    - eapply Z.le_trans; [exact Le'|]. apply fexp_mono.
      assert (Qp : 0 < q) by lia. pose proof (Zdigits2_pos q Qp) as Dq.
      destruct (Z.le_gt_cases 0 (d1 - 1 + s - d2)) as [J|J].
      + assert (2 ^ (d1 - 1 + s - d2) <= q).
        { replace q with (m' / Zpos my).
          - apply Z.div_le_lower_bound; [lia|].
            apply Z.le_trans with (2 ^ d2 * 2 ^ (d1 - 1 + s - d2)).
            + apply Z.mul_le_mono_nonneg_r; [apply Z.pow_nonneg|]; lia.
            + rewrite <- Z.pow_add_r by lia.
              replace (d2 + (d1 - 1 + s - d2)) with (d1 - 1 + s) by lia. exact M1.
          - symmetry. apply (Z.div_unique_pos m' (Zpos my) q r); lia. }
        pose proof (Zdigits2_bounds q Qp) as [_ Uq].
        assert (d1 - 1 + s - d2 < Zdigits2 q).
        { destruct (Z.lt_ge_cases (d1 - 1 + s - d2) (Zdigits2 q)) as [G|G]; [exact G|].
          assert (2 ^ Zdigits2 q <= 2 ^ (d1 - 1 + s - d2)) by (apply Z.pow_le_mono_r; lia).
          lia. }
        unfold s in *. lia.
      + unfold s in *. lia. }
  { assert (X2 : (IZR (Zpos mx) * bpow ex / (IZR (Zpos my) * bpow ey)
                  = (IZR q + IZR r / IZR (Zpos my)) * bpow e')%R).
    { rewrite <- XE. field. lra. }
    rewrite X2.
    assert (0 <= IZR r / IZR (Zpos my))%R.
    { apply Rmult_le_pos; [apply IZR_le; lia|]. apply Rlt_le, Rinv_0_lt_compat. lra. }
    nra. }
Qed.

Lemma SFdiv_spec (x : float) (sy : bool) (my : positive) (ey : Z) :
  is_finite x = true ->
  let y := S754_finite sy my ey in
  let X := (B2R x / B2R y)%R in
  let z := SFdiv prec emax x y in
  valid z = true /\ z <> S754_nan /\ sign_of z = xorb (sign_of x) sy
  /\ ((Rabs X < bpow 1023)%R ->
      is_finite z = true
      /\ (Rabs (B2R z - X) <= bpow (-53) * Rabs X + bpow (-1075))%R).
Proof.
  intros Fx y X z. destruct x as [sx|sx| |sx mx ex]; try discriminate.
  - split; [reflexivity|]. split; [discriminate|]. split; [reflexivity|].
    intros _. split; [reflexivity|].
    unfold z, X. cbn [SFdiv B2R]. unfold Rdiv. rewrite Rmult_0_l, Rminus_diag, Rabs_R0.
    pose proof (bpow_pos (-1075)). lra.
  - unfold z, y. cbn [SFdiv sign_of].
    pose proof (SFdiv_core_spec mx my ex ey) as CS.
    destruct (SFdiv_core_binary prec emax (Zpos mx) ex (Zpos my) ey) as [[q e'] l].
    set (A := (IZR (Zpos mx) * bpow ex / (IZR (Zpos my) * bpow ey))%R) in *.
    destruct CS as (Hq & L & Pre & Low).
    destruct (binary_round_aux_spec (xorb sx sy) q e' l A Hq L Pre)
      as (m2 & e2 & mr & E & P & B & V & ERR & C).
    set (e1 := SpecFloat.fexp prec emax (Zdigits2 q + e')) in *.
    cbv beta iota. rewrite E.
    split; [now apply float_of_valid|]. split; [now apply float_of_not_nan|].
    split; [now apply float_of_sign|].
    pose proof (bpow_pos ex) as Pex. pose proof (bpow_pos ey) as Pey.
    assert (Py : (0 < IZR (Zpos my))%R) by (apply IZR_lt; lia).
    assert (Px : (0 < IZR (Zpos mx))%R) by (apply IZR_lt; lia).
    assert (PA : (0 < A)%R).
    { unfold A. apply Rdiv_lt_0_compat; nra. }
    assert (XA : X = ((if xorb sx sy then -1 else 1) * A)%R).
    { unfold X, A, y. cbn [B2R]. rewrite !IZR_cond_Zopp.
      destruct sx, sy; cbn [xorb]; field; lra. }
    assert (AX : Rabs X = A).
    { rewrite XA, Rabs_mult, (Rabs_pos_eq A) by lra.
      destruct (xorb sx sy); unfold Rabs; destruct Rcase_abs; lra. }
    rewrite AX. intros HA.
    assert (E1b : -1074 <= e1) by (unfold e1; rewrite fexp_unfold; lia).
    assert (D : q = 0 \/ (0 < q /\ Zdigits2 q + e' <= 1023
                         /\ (bpow (Zdigits2 q - 1 + e') <= A)%R)).
    { destruct (Z.eq_dec q 0) as [Q0|Q0]; [now left|right].
      assert (Qp : 0 < q) by lia. split; [exact Qp|].
      pose proof (bpow_digits_le q e' Qp) as LB.
      split; [|lra].
      destruct (Z.le_gt_cases (Zdigits2 q + e') 1023) as [G|G]; [exact G|].
      assert (bpow 1023 <= bpow (Zdigits2 q - 1 + e'))%R by (apply bpow_le; lia).
      lra. }
    assert (F : is_finite (float_of (xorb sx sy) m2 e2) = true).
    { apply float_of_finite; [exact P|]. unfold emax, prec.
      destruct D as [Q0|(Qp & Dq & _)].
      - subst q. unfold e1 in *. cbn [Zdigits2] in *. rewrite fexp_unfold in *. lia.
      - unfold e1 in *. rewrite fexp_unfold in *. lia. }
    split; [exact F|]. rewrite (float_of_B2R _ _ _ P F).
    assert (VS : (IZR (cond_Zopp (xorb sx sy) m2) * bpow e2 - X
                  = (if xorb sx sy then -1 else 1) * (IZR mr * bpow e1 - A))%R).
    { rewrite XA, IZR_cond_Zopp. destruct (xorb sx sy); lra. }
    rewrite VS, Rabs_mult.
    replace (Rabs (if xorb sx sy then -1 else 1))%R with 1%R
      by (destruct (xorb sx sy); unfold Rabs; destruct Rcase_abs; lra).
    rewrite Rmult_1_l. eapply Rle_trans; [exact ERR|].
    pose proof (bpow_pos (-53)) as P53. pose proof (bpow_pos (-1075)) as P1075.
    destruct (Z.eq_dec e1 (-1074)) as [U|U].
    + rewrite U. replace (-1074) with (-1075 + 1) by lia. rewrite bpow_succ. nra.
    + destruct D as [Q0|(Qp & Dq & LA)].
      * exfalso. subst q. unfold e1 in *. cbn [Zdigits2] in *. rewrite fexp_unfold in *. lia.
      * assert (E1 : e1 = Zdigits2 q + e' - 53).
        { unfold e1 in *. rewrite fexp_unfold in *. lia. }
        assert (bpow e1 / 2 = bpow (-53) * bpow (Zdigits2 q - 1 + e'))%R.
        { rewrite <- bpow_add. replace (-53 + (Zdigits2 q - 1 + e')) with (e1 - 1) by lia.
          rewrite bpow_sub, bpow_1. reflexivity. }
        nra.
Qed.

Lemma mag_unique (m1 m2 e1 e2 : Z) :
  0 < m1 -> 0 < m2 -> (IZR m1 * bpow e1 = IZR m2 * bpow e2)%R ->
  Zdigits2 m1 + e1 = Zdigits2 m2 + e2.
Proof.
  assert (G : forall a b ea eb, 0 < a -> 0 < b ->
              (IZR a * bpow ea = IZR b * bpow eb)%R ->
              ~ (Zdigits2 a + ea < Zdigits2 b + eb)).
  { intros a b ea eb Ha Hb E L.
    pose proof (bpow_digits_le b eb Hb) as Lb.
    pose proof (Zdigits2_bounds a Ha) as [_ Ua]. pose proof (Zdigits2_pos a Ha).
    assert (IZR a * bpow ea < bpow (Zdigits2 a + ea))%R.
    { rewrite bpow_add, (bpow_IZR (Zdigits2 a)) by lia.
      apply IZR_lt in Ua. pose proof (bpow_pos ea). nra. }
    assert (bpow (Zdigits2 a + ea) <= bpow (Zdigits2 b - 1 + eb))%R by (apply bpow_le; lia).
    lra. }
  intros H1 H2 E.
  pose proof (G m1 m2 e1 e2 H1 H2 E). pose proof (G m2 m1 e2 e1 H2 H1 (eq_sym E)). lia.
Qed.

Lemma binary_round_aux_exact (s : bool) (m e : Z) (mf : positive) (ef : Z) :
  0 < m -> e <= SpecFloat.fexp prec emax (Zdigits2 m + e) ->
  valid (S754_finite s mf ef) = true ->
  (IZR m * bpow e = IZR (Zpos mf) * bpow ef)%R ->
  binary_round_aux prec emax s m e loc_Exact = S754_finite s mf ef.
Proof.
  intros Hm Pre V E.
  destruct (valid_finite _ _ _ V) as (C & U & L).
  destruct (binary_round_aux_spec s m e loc_Exact (IZR m * bpow e) ltac:(lia))
    as (m2 & e2 & mr & R & P & B & W & ERR & K); [|exact Pre|].
  { unfold located. cbn [shr_record_of_loc shr_m shr_r shr_s]. field.
    apply Rgt_not_eq, bpow_pos. }
  pose proof (mag_unique m (Zpos mf) e ef Hm ltac:(lia) E) as MG.
  cbn [Zdigits2] in MG. rewrite MG, C in *.
  pose proof (bpow_pos ef) as Pf.
  assert (MR : mr = Zpos mf).
  { rewrite E in ERR.
    replace (IZR mr * bpow ef - IZR (Zpos mf) * bpow ef)%R
      with (IZR (mr - Zpos mf) * bpow ef)%R in ERR by (rewrite minus_IZR; ring).
    rewrite Rabs_mult, (Rabs_pos_eq (bpow ef)) in ERR by lra.
    assert (mr - Zpos mf = 0); [|lia].
    apply half_integer. apply Rmult_le_reg_r with (bpow ef); lra. }
  subst mr.
  assert (M2 : 0 < m2).
  { destruct (Z.eq_dec m2 0) as [Z0|]; [|lia]. subst m2. rewrite Rmult_0_l in W.
    assert (0 < IZR (Zpos mf))%R by (apply IZR_lt; lia). nra. }
  specialize (K M2).
  pose proof (mag_unique m2 (Zpos mf) e2 ef M2 ltac:(lia) W) as MG2.
  cbn [Zdigits2] in MG2. rewrite MG2, C in K. subst e2.
  assert (m2 = Zpos mf).
  { apply eq_IZR. apply Rmult_eq_reg_r with (bpow ef); lra. }
  subst m2. rewrite R. unfold float_of.
  assert (Z.leb ef (emax - prec) = true) by (apply Z.leb_le; unfold emax, prec; lia).
  now rewrite H.
Qed.

Lemma binary_round_exact (s : bool) (mx : positive) (ex : Z) (mf : positive) (ef : Z) :
  valid (S754_finite s mf ef) = true ->
  (IZR (Zpos mx) * bpow ex = IZR (Zpos mf) * bpow ef)%R ->
  binary_round prec emax s mx ex = S754_finite s mf ef.
Proof.
  intros V E. unfold binary_round.
  pose proof (shl_align_spec mx ex (SpecFloat.fexp prec emax (Zpos (digits2_pos mx) + ex))) as A.
  destruct (shl_align mx ex (SpecFloat.fexp prec emax (Zpos (digits2_pos mx) + ex))) as [mz ez].
  destruct A as [Ez Mz].
  assert (D : Zdigits2 (Zpos mz) + ez = Zpos (digits2_pos mx) + ex).
  { rewrite Mz, Zdigits2_mul_pow by lia. cbn [Zdigits2]. lia. }
  assert (X : (IZR (Zpos mx) * bpow ex = IZR (Zpos mz) * bpow ez)%R).
  { rewrite Mz, mult_IZR.
    assert (B : (bpow ex = bpow ez * bpow (ex - ez))%R) by (rewrite <- bpow_add; f_equal; lia).
    rewrite B, (bpow_IZR (ex - ez)) by lia. lra. }
  apply binary_round_aux_exact; [lia| |exact V|].
  - rewrite D. lia.
  - rewrite <- X. exact E.
Qed.

Lemma valid_B2R_eq (x y : float) :
  valid x = true -> valid y = true -> is_finite x = true -> is_finite y = true ->
  B2R x = B2R y -> B2R x <> 0%R -> x = y.
Proof.
  intros Vx Vy Fx Fy E N.
  pose proof (SFcompare_finite x y Vx Vy Fx Fy) as C.
  rewrite (Rcompare_Eq _ _ E) in C.
  destruct x as [sx|sx| |sx mx ex]; try discriminate; [cbn in N; lra|].
  destruct y as [sy|sy| |sy my ey]; try discriminate; [destruct sx; discriminate|].
  cbn [SFcompare] in C.
  change (Pos.compare_cont Eq mx my) with (Pos.compare mx my) in C.
  assert (Q : sx = sy /\ (ex ?= ey) = Eq /\ (mx ?= my)%positive = Eq).
  { destruct sx, sy; try discriminate; destruct (ex ?= ey); try discriminate;
      destruct (mx ?= my)%positive; try discriminate; auto. }
  destruct Q as (-> & Q1 & Q2).
  apply Z.compare_eq in Q1. apply Pos.compare_eq in Q2. now subst.
Qed.

Lemma SFadd_exact (x y f : float) :
  valid x = true -> valid y = true -> is_finite x = true -> is_finite y = true ->
  valid f = true -> is_finite f = true ->
  B2R f = (B2R x + B2R y)%R -> B2R f <> 0%R ->
  SFadd prec emax x y = f.
Proof.
  intros Vx Vy Fx Fy Vf Ff E N.
  destruct (SFadd_spec x y Vx Vy Fx Fy) as (V & NN & S1 & S2 & R).
  destruct f as [sf|sf| |sf mf ef]; try discriminate; [cbn in N; lra|].
  destruct x as [sx|sx| |sx mx ex]; try discriminate;
    destruct y as [sy|sy| |sy my ey]; try discriminate.
  - exfalso. apply N. rewrite E. cbn [B2R]. lra.
  - cbn [SFadd]. symmetry. apply valid_B2R_eq; try assumption. rewrite E. cbn [B2R]. lra.
  - cbn [SFadd]. symmetry. apply valid_B2R_eq; try assumption. rewrite E. cbn [B2R]. lra.
  - destruct (valid_finite _ _ _ Vx) as (_ & _ & Ex).
    destruct (valid_finite _ _ _ Vy) as (_ & _ & Ey).
    cbn [SFadd]. set (ez := Z.min ex ey).
    set (M := cond_Zopp sx (Zpos (fst (shl_align mx ex ez)))
              + cond_Zopp sy (Zpos (fst (shl_align my ey ez)))).
    assert (XE : (B2R (S754_finite sx mx ex) + B2R (S754_finite sy my ey)
                  = IZR M * bpow ez)%R).
    { unfold M. rewrite plus_IZR, Rmult_plus_distr_r, !shl_align_value by (unfold ez; lia).
      reflexivity. }
    rewrite XE in E. cbn [B2R] in E. rewrite IZR_cond_Zopp in E.
    pose proof (bpow_pos ez) as Pe. pose proof (bpow_pos ef) as Pf.
    assert (Pm : (0 < IZR (Zpos mf))%R) by (apply IZR_lt; lia).
    assert (Pv : (0 < IZR (Zpos mf) * bpow ef)%R) by (apply Rmult_lt_0_compat; lra).
    destruct M as [|p|p]; cbn [binary_normalize].
    + exfalso. destruct sf; cbv iota in E; lra.
    + assert (0 < IZR (Zpos p) * bpow ez)%R
        by (apply Rmult_lt_0_compat; [apply IZR_lt; lia|lra]).
      destruct sf; cbv iota in E; [exfalso; lra|].
      apply binary_round_exact; [exact Vf|]. lra.
    + assert (IZR (Zneg p) = - IZR (Zpos p))%R by (rewrite <- opp_IZR; reflexivity).
      assert (0 < IZR (Zpos p) * bpow ez)%R
        by (apply Rmult_lt_0_compat; [apply IZR_lt; lia|lra]).
      rewrite H in E.
      destruct sf; cbv iota in E; [|exfalso; lra].
      apply binary_round_exact; [exact Vf|]. lra.
Qed.

Lemma binary_round_small (s : bool) (mx : positive) (ex : Z) :
  SpecFloat.fexp prec emax (Zdigits2 (Zpos mx) + ex) <= ex -> Zdigits2 (Zpos mx) + ex <= 1024 ->
  let z := binary_round prec emax s mx ex in
  valid z = true /\ is_finite z = true
  /\ B2R z = (IZR (cond_Zopp s (Zpos mx)) * bpow ex)%R.
Proof.
  intros G D z.
  destruct (binary_round_spec s mx ex) as (m2 & e2 & mr & E & P & B & V & ERR & C).
  set (e1 := SpecFloat.fexp prec emax (Zdigits2 (Zpos mx) + ex)) in *.
  fold z in E. rewrite E.
  assert (K : (IZR mr * bpow e1 - IZR (Zpos mx) * bpow ex
               = IZR (mr - Zpos mx * 2 ^ (ex - e1)) * bpow e1)%R).
  { rewrite minus_IZR, mult_IZR, <- (bpow_IZR (ex - e1)) by lia.
    assert (Bq : (bpow ex = bpow e1 * bpow (ex - e1))%R) by (rewrite <- bpow_add; f_equal; lia).
    rewrite Bq. lra. }
  rewrite K in ERR. pose proof (bpow_pos e1) as Pe.
  rewrite Rabs_mult, (Rabs_pos_eq (bpow e1)) in ERR by lra.
  assert (Z0 : mr - Zpos mx * 2 ^ (ex - e1) = 0).
  { apply half_integer. apply Rmult_le_reg_r with (bpow e1); lra. }
  rewrite Z0, Rmult_0_l in K.
  assert (W : (IZR m2 * bpow e2 = IZR (Zpos mx) * bpow ex)%R) by lra.
  assert (M2 : 0 < m2).
  { destruct (Z.eq_dec m2 0) as [Q|]; [|lia]. subst m2. rewrite Rmult_0_l in W.
    pose proof (bpow_pos ex). assert (0 < IZR (Zpos mx))%R by (apply IZR_lt; lia). nra. }
  pose proof (mag_unique m2 (Zpos mx) e2 ex M2 ltac:(lia) W) as MG.
  pose proof (C M2) as Ce. rewrite MG in Ce. fold e1 in Ce.
  assert (F : is_finite (float_of s m2 e2) = true).
  { apply float_of_finite; [lia|]. unfold emax, prec. subst e2. unfold e1.
    rewrite fexp_unfold. lia. }
  split; [now apply float_of_valid|]. split; [exact F|].
  rewrite (float_of_B2R _ _ _ P F), !IZR_cond_Zopp. destruct s; lra.
Qed.


End Rounding.

(* ------------------------------------------------------------------ *)
(** ** Sums, quotients and the softmax on floats *)

Section FloatSums.

Lemma fsub_self (x : float) : is_finite x = true -> fsub x x = S754_zero false.
Proof.
  destruct x as [s|s| |s m e]; try discriminate; intros _.
  - now destruct s.
  - unfold fsub, SFsub. rewrite Z.min_id, Z.sub_diag. reflexivity.
Qed.

Lemma lit_one : lit 1.0 = S754_finite false 4503599627370496 (-52).
Proof. vm_compute. reflexivity. Qed.

Local Open Scope R_scope.

Lemma u53_bounds : 0 < u53 < 1 / 4.
Proof.
  unfold u53. split; [apply bpow_pos|].
  replace (1 / 4) with (bpow (-2)) by (unfold bpow; simpl; lra).
  apply bpow_lt. lia.
Qed.

Lemma real_sum_nonneg (l : list float) :
  Forall unit_float l -> 0 <= real_sum l <= INR (length l).
Proof.
  induction 1 as [|x l (_ & _ & B) _ IH]; [simpl; lra|].
  cbn [real_sum fold_right length]. fold (real_sum l). rewrite S_INR. lra.
Qed.

Lemma fadd_nonneg (a x : float) :
  valid a = true -> is_finite a = true -> 0 <= B2R a ->
  valid x = true -> is_finite x = true -> 0 <= B2R x ->
  B2R a + B2R x < bpow 1023 ->
  valid (fadd a x) = true /\ is_finite (fadd a x) = true
  /\ (B2R a + B2R x) * (1 - u53) <= B2R (fadd a x) <= (B2R a + B2R x) * (1 + u53).
Proof.
  intros Va Fa Pa Vx Fx Px H.
  destruct (SFadd_spec a x Va Vx Fa Fx) as (V & _ & _ & _ & R).
  rewrite Rabs_pos_eq in R by lra. destruct (R H) as [F E].
  split; [exact V|]. split; [exact F|].
  unfold fadd, u53. set (X := B2R a + B2R x) in *. set (z := B2R (SFadd prec emax a x)) in *.
  unfold Rabs in E. destruct (Rcase_abs (z - X)); lra.
Qed.

Lemma fold_fadd_bounds (l : list float) :
  Forall unit_float l ->
  forall acc : float,
    valid acc = true -> is_finite acc = true -> 0 <= B2R acc ->
    (B2R acc + real_sum l) * (1 + u53) ^ length l < bpow 1023 ->
    valid (fold_left fadd l acc) = true /\ is_finite (fold_left fadd l acc) = true
    /\ (B2R acc + real_sum l) * (1 - u53) ^ length l <= B2R (fold_left fadd l acc)
       <= (B2R acc + real_sum l) * (1 + u53) ^ length l.
Proof.
  pose proof u53_bounds as U.
  induction 1 as [|x l (Vx & Fx & Bx) Hl IH]; intros acc Va Fa Pa H.
  - cbn [fold_left real_sum fold_right length pow] in *. repeat split; try assumption; lra.
  - cbn [fold_left real_sum fold_right length] in *. fold (real_sum l) in *.
    pose proof (real_sum_nonneg l Hl) as [S0 _].
    assert (P1 : 1 <= (1 + u53) ^ length l) by (apply pow_R1_Rle; lra).
    assert (P2 : 0 < (1 - u53) ^ length l <= 1).
    { split; [apply pow_lt; lra|].
      apply Rle_trans with (1 ^ length l); [apply pow_incr; lra|rewrite pow1; lra]. }
    rewrite <- !tech_pow_Rmult in *.
    set (P := (1 + u53) ^ length l) in *. set (Q := (1 - u53) ^ length l) in *.
    set (S := real_sum l) in *.
    assert (K : 1 <= (1 + u53) * P) by nra.
    assert (HX : B2R acc + B2R x < bpow 1023).
    { assert ((B2R acc + (B2R x + S)) * 1 <= (B2R acc + (B2R x + S)) * ((1 + u53) * P))
        by (apply Rmult_le_compat_l; lra).
      lra. }
    destruct (fadd_nonneg acc x Va Fa Pa Vx Fx ltac:(lra) HX) as (V' & F' & L' & U').
    assert (P' : 0 <= B2R (fadd acc x)) by nra.
    assert (H' : (B2R (fadd acc x) + S) * P < bpow 1023).
    { apply Rle_lt_trans with ((B2R acc + (B2R x + S)) * ((1 + u53) * P)); [|exact H].
      assert (SU : 0 <= S * u53) by (apply Rmult_le_pos; lra).
      assert (B2R (fadd acc x) + S <= (B2R acc + (B2R x + S)) * (1 + u53)) by lra.
      rewrite <- Rmult_assoc. apply Rmult_le_compat_r; lra. }
    destruct (IH (fadd acc x) V' F' P' H') as (V2 & F2 & L2 & U2).
    assert (SU : 0 <= S * u53) by (apply Rmult_le_pos; lra).
    split; [exact V2|]. split; [exact F2|]. split.
    + eapply Rle_trans; [|exact L2].
      assert ((B2R acc + (B2R x + S)) * (1 - u53) <= B2R (fadd acc x) + S) by lra.
      rewrite <- Rmult_assoc. apply Rmult_le_compat_r; lra.
    + eapply Rle_trans; [exact U2|].
      assert (B2R (fadd acc x) + S <= (B2R acc + (B2R x + S)) * (1 + u53)) by lra.
      rewrite <- Rmult_assoc. apply Rmult_le_compat_r; lra.
Qed.

Lemma bernoulli (x : R) (n : nat) : 0 <= x <= 1 -> 1 - INR n * x <= (1 - x) ^ n.
Proof.
  intros Hx. induction n as [|n IH]; [simpl; lra|].
  rewrite S_INR. cbn [pow].
  assert (0 <= (1 - x) ^ n) by (apply pow_le; lra).
  assert (0 <= INR n) by apply pos_INR.
  assert (0 <= INR n * x * x) by (apply Rmult_le_pos; [apply Rmult_le_pos|]; lra).
  apply Rle_trans with ((1 - x) * (1 - INR n * x)); [lra|].
  apply Rmult_le_compat_l; lra.
Qed.

Lemma pow_bounds (n : nat) :
  INR n * u53 <= 1 / 4 ->
  1 - INR n * u53 <= (1 - u53) ^ n <= 1
  /\ 1 <= (1 + u53) ^ n /\ (1 + u53) ^ n * (1 - INR n * u53) <= 1.
Proof.
  intros H. pose proof u53_bounds as U.
  assert (B : 1 - INR n * u53 <= (1 - u53) ^ n) by (apply bernoulli; lra).
  assert (L1 : (1 - u53) ^ n <= 1).
  { apply Rle_trans with (1 ^ n); [apply pow_incr; lra|rewrite pow1; lra]. }
  assert (G1 : 1 <= (1 + u53) ^ n) by (apply pow_R1_Rle; lra).
  split; [split; assumption|]. split; [exact G1|].
  apply Rle_trans with ((1 + u53) ^ n * (1 - u53) ^ n).
  - apply Rmult_le_compat_l; lra.
  - rewrite <- Rpow_mult_distr.
    apply Rle_trans with (1 ^ n); [|rewrite pow1; lra].
    apply pow_incr. nra.
Qed.

Lemma B2R_sign_false (z : float) : sign_of z = false -> 0 <= B2R z.
Proof.
  destruct z as [s|s| |s m e]; cbn [B2R sign_of]; try lra. intros ->.
  cbn [cond_Zopp]. apply Rmult_le_pos; [apply IZR_le; lia|apply Rlt_le, bpow_pos].
Qed.

Lemma B2R_pos_finite (z : float) :
  0 < B2R z -> exists m e, z = S754_finite false m e.
Proof.
  destruct z as [s|s| |s m e]; cbn [B2R]; try lra. intros H. exists m, e.
  destruct s; [|reflexivity]. exfalso. rewrite IZR_cond_Zopp in H.
  pose proof (bpow_pos e). assert (0 < IZR (Zpos m)) by (apply IZR_lt; lia). nra.
Qed.

Lemma fdiv_unit (e t : float) :
  unit_float e -> is_finite t = true -> 3 / 4 <= B2R t ->
  valid (fdiv e t) = true /\ is_finite (fdiv e t) = true /\ 0 <= B2R (fdiv e t)
  /\ Rabs (B2R (fdiv e t) - B2R e / B2R t) <= u53 * (B2R e / B2R t) + eta.
Proof.
  intros (Ve & Fe & Be) Ft Bt.
  destruct (B2R_pos_finite t ltac:(lra)) as (mt & et & ->).
  destruct (SFdiv_spec e false mt et Fe) as (V & NN & S & R).
  set (T := B2R (S754_finite false mt et)) in *.
  assert (X0 : 0 <= B2R e / T <= 4 / 3).
  { split; [apply Rmult_le_pos; [lra|apply Rlt_le, Rinv_0_lt_compat; lra]|].
    apply Rmult_le_reg_r with T; [lra|]. unfold Rdiv. rewrite Rmult_assoc, Rinv_l by lra. lra. }
  rewrite Rabs_pos_eq in R by lra.
  assert (4 / 3 < bpow 1023).
  { apply Rlt_le_trans with (bpow 1); [rewrite bpow_1; lra|apply bpow_le; lia]. }
  destruct (R ltac:(lra)) as [F E].
  split; [exact V|]. split; [exact F|]. split; [|exact E].
  unfold fdiv. destruct e as [se|se| |se me ee]; try discriminate.
  - cbn. lra.
  - apply B2R_sign_false. rewrite S. cbn [sign_of]. 
    destruct se; [|reflexivity]. exfalso. cbn [B2R] in Be. rewrite IZR_cond_Zopp in Be.
    pose proof (bpow_pos ee). assert (0 < IZR (Zpos me)) by (apply IZR_lt; lia). nra.
Qed.

Lemma weights_sum (l : list float) (t : float) :
  Forall unit_float l -> is_finite t = true -> 3 / 4 <= B2R t ->
  Forall (fun w => valid w = true /\ is_finite w = true /\ 0 <= B2R w)
         (map (fun v => fdiv v t) l)
  /\ Rabs (real_sum (map (fun v => fdiv v t) l) - real_sum l / B2R t)
     <= u53 * (real_sum l / B2R t) + INR (length l) * eta.
Proof.
  intros Hl Ft Bt. induction Hl as [|e l He Hl [IH1 IH2]].
  - split; [constructor|]. cbn [map real_sum fold_right length INR].
    unfold Rdiv. rewrite !Rmult_0_l, Rminus_diag, Rabs_R0. lra.
  - destruct (fdiv_unit e t He Ft Bt) as (V & F & P & E).
    split; [constructor; [tauto|exact IH1]|].
    cbn [map real_sum fold_right length]. fold (real_sum l).
    fold (real_sum (map (fun v => fdiv v t) l)). rewrite S_INR.
    replace (B2R (fdiv e t) + real_sum (map (fun v => fdiv v t) l)
             - (B2R e + real_sum l) / B2R t)
      with ((B2R (fdiv e t) - B2R e / B2R t)
            + (real_sum (map (fun v => fdiv v t) l) - real_sum l / B2R t))
      by (field; lra).
    eapply Rle_trans; [apply Rabs_triang|].
    replace ((B2R e + real_sum l) / B2R t) with (B2R e / B2R t + real_sum l / B2R t)
      by (field; lra).
    lra.
Qed.

Lemma normalised_sum (l : list float) :
  Forall unit_float l -> 1 <= real_sum l -> INR (length l) * u53 <= 1 / 4 ->
  let total := fsum l in
  is_finite total = true /\ 3 / 4 <= B2R total /\ flt (S754_zero false) total = true
  /\ Rabs (real_sum (map (fun v => fdiv v total) l) - 1) <= INR (length l + 1) * bpow (-52).
Proof.
  intros Hl S1 Hn total. pose proof u53_bounds as U.
  destruct (pow_bounds (length l) Hn) as ((Q1 & Q2) & P1 & P2).
  pose proof (real_sum_nonneg l Hl) as [S0 Sn].
  set (n := INR (length l)) in *. set (S := real_sum l) in *.
  set (p := (1 + u53) ^ length l) in *. set (q := (1 - u53) ^ length l) in *.
  assert (N0 : 0 <= n) by apply pos_INR.
  assert (Pp : p <= 4 / 3) by nra.
  assert (N51 : n <= bpow 51).
  { assert (E : bpow 51 * u53 = 1 / 4).
    { unfold u53. rewrite <- bpow_add. unfold bpow. simpl. lra. }
    apply Rmult_le_reg_r with u53; lra. }
  assert (OV : (B2R (S754_zero false) + S) * p < bpow 1023).
  { cbn [B2R]. rewrite Rplus_0_l.
    apply Rle_lt_trans with (bpow 51 * (4 / 3)).
    - apply Rmult_le_compat; lra.
    - apply Rlt_le_trans with (bpow 51 * bpow 1).
      + apply Rmult_lt_compat_l; [apply bpow_pos|rewrite bpow_1; lra].
      + rewrite <- bpow_add. apply bpow_le. lia. }
  destruct (fold_fadd_bounds l Hl (S754_zero false) eq_refl eq_refl ltac:(cbn; lra) OV)
    as (V & F & L & Ub).
  fold (fsum l) in V, F, L, Ub. fold total in V, F, L, Ub. fold p in Ub. fold q in L.
  cbn [B2R] in L, Ub. rewrite Rplus_0_l in L, Ub. fold S in L, Ub.
  set (T := B2R total) in *.
  assert (T34 : 3 / 4 <= T) by nra.
  split; [exact F|]. split; [exact T34|]. split.
  { destruct (B2R_pos_finite total ltac:(fold T; lra)) as (m & e & ->). reflexivity. }
  destruct (weights_sum l total Hl F T34) as [_ W]. fold n S T in W.
  set (Wt := real_sum (map (fun v => fdiv v total) l)) in *.
  set (r := S / T) in *.
  assert (RT : S = r * T) by (unfold r; field; lra).
  assert (A : S * (1 - n * u53) <= T) by nra.
  assert (B : T * (1 - n * u53) <= S).
  { apply Rle_trans with (S * p * (1 - n * u53)).
    - apply Rmult_le_compat_r; lra.
    - rewrite Rmult_assoc. rewrite <- (Rmult_1_r S) at 2. apply Rmult_le_compat_l; lra. }
  assert (R1 : r * (1 - n * u53) <= 1).
  { apply Rmult_le_reg_r with T; [lra|]. rewrite RT in A. nra. }
  assert (R2 : 1 - n * u53 <= r).
  { apply Rmult_le_reg_r with T; [lra|]. rewrite RT in B. nra. }
  assert (R3 : 0 <= r <= 4 / 3) by nra.
  assert (D : Rabs (r - 1) <= 4 / 3 * (n * u53)).
  { apply Rabs_le. split; nra. }
  assert (EU : eta <= u53 / 2).
  { unfold eta, u53. replace (bpow (-53) / 2) with (bpow (-54)).
    - apply bpow_le. lia.
    - replace (-53)%Z with (-54 + 1)%Z by lia. rewrite bpow_succ. lra. }
  assert (E0 : 0 < eta) by apply bpow_pos.
  replace (Wt - 1) with ((Wt - r) + (r - 1)) by ring.
  eapply Rle_trans; [apply Rabs_triang|].
  rewrite plus_INR. fold n. change (INR 1) with 1.
  replace (bpow (-52)) with (2 * u53).
  2:{ unfold u53. replace (-52)%Z with (-53 + 1)%Z by lia. rewrite bpow_succ. reflexivity. }
  assert (n * eta <= n * (u53 / 2)) by (apply Rmult_le_compat_l; lra).
  assert (u53 * r <= u53 * (4 / 3)) by (apply Rmult_le_compat_l; lra).
  lra.
Qed.

Local Open Scope Z_scope.

Lemma of_int_spec (n : Z) :
  1 <= n < 2 ^ 53 ->
  valid (of_int n) = true /\ is_finite (of_int n) = true /\ B2R (of_int n) = IZR n.
Proof.
  intros H. destruct n as [|p|p]; try lia. unfold of_int. cbn [binary_normalize].
  pose proof (Zdigits2_bounds (Zpos p) ltac:(lia)) as [L U].
  pose proof (Zdigits2_pos (Zpos p) ltac:(lia)) as D.
  assert (D53 : Zdigits2 (Zpos p) <= 53).
  { destruct (Z.le_gt_cases (Zdigits2 (Zpos p)) 53) as [G|G]; [exact G|].
    assert (2 ^ 53 <= 2 ^ (Zdigits2 (Zpos p) - 1)) by (apply Z.pow_le_mono_r; lia). lia. }
  destruct (binary_round_small false p 0) as (V & F & E).
  - rewrite fexp_unfold. lia.
  - lia.
  - split; [exact V|]. split; [exact F|]. rewrite E. cbn [cond_Zopp].
    rewrite bpow_0. lra.
Qed.

Lemma B2R_one : B2R one = 1%R.
Proof.
  unfold one. cbn [B2R cond_Zopp]. change 4503599627370496 with (2 ^ 52).
  rewrite <- bpow_IZR by lia. rewrite <- bpow_add. reflexivity.
Qed.

Lemma of_int_succ (k : Z) : 0 <= k -> k + 1 < 2 ^ 53 -> fadd (of_int k) one = of_int (k + 1).
Proof.
  intros H0 H1. destruct (Z.eq_dec k 0) as [->|N].
  - vm_compute. reflexivity.
  - destruct (of_int_spec k ltac:(lia)) as (Vk & Fk & Bk).
    destruct (of_int_spec (k + 1) ltac:(lia)) as (V1 & F1 & B1).
    apply SFadd_exact; try assumption; try reflexivity.
    + rewrite B1, Bk, B2R_one, plus_IZR. reflexivity.
    + rewrite B1. apply not_0_IZR. lia.
Qed.

Lemma fold_fadd_ones (n : nat) (k : Z) :
  0 <= k -> k + Z.of_nat n < 2 ^ 53 ->
  fold_left fadd (repeat one n) (of_int k) = of_int (k + Z.of_nat n).
Proof.
  revert k. induction n as [|n IH]; intros k H0 H1.
  - cbn [repeat fold_left]. f_equal. lia.
  - cbn [repeat fold_left]. rewrite of_int_succ by lia.
    rewrite IH by lia. f_equal. lia.
Qed.

Lemma fsum_ones (n : nat) :
  Z.of_nat n < 2 ^ 53 -> fsum (repeat one n) = of_int (Z.of_nat n).
Proof. intros H. exact (fold_fadd_ones n 0 ltac:(lia) ltac:(lia)). Qed.

Lemma flt_spec (a b : float) :
  valid a = true -> valid b = true -> is_finite a = true -> is_finite b = true ->
  (flt a b = true <-> (B2R a < B2R b)%R).
Proof.
  intros Va Vb Fa Fb. unfold flt, SFltb. rewrite (SFcompare_finite a b Va Vb Fa Fb).
  destruct (Rcompare_spec (B2R a) (B2R b)); split; intros; try lra; try discriminate; reflexivity.
Qed.

Lemma fold_fmax_spec (l : list float) (acc : float) :
  Forall finite_float l -> finite_float acc ->
  let m := fold_left fmax l acc in
  finite_float m /\ (m = acc \/ In m l) /\ (B2R acc <= B2R m)%R
  /\ Forall (fun v => (B2R v <= B2R m)%R) l.
Proof.
  intros Hl. revert acc. induction Hl as [|x l Hx Hl IH]; intros acc Ha.
  - cbn. repeat split; try apply Ha; auto. lra.
  - cbn [fold_left].
    assert (Hm : finite_float (fmax acc x)) by (unfold fmax; now destruct (flt acc x)).
    assert (Bm : (B2R acc <= B2R (fmax acc x) /\ B2R x <= B2R (fmax acc x))%R).
    { unfold fmax. destruct (flt acc x) eqn:E.
      - apply flt_spec in E; try apply Ha; try apply Hx. lra.
      - assert (~ (B2R acc < B2R x)%R).
        { intros C. apply flt_spec in C; try apply Ha; try apply Hx. congruence. }
        lra. }
    destruct (IH (fmax acc x) Hm) as (F & I & B & A).
    split; [exact F|]. split; [|split; [lra|]].
    + destruct I as [I|I]; [|right; now right].
      rewrite I. unfold fmax. destruct (flt acc x); [right; now left|now left].
    + constructor; [lra|exact A].
Qed.

Lemma max_float_spec (l : list float) :
  l <> [] -> Forall finite_float l ->
  finite_float (max_float l) /\ In (max_float l) l
  /\ Forall (fun v => (B2R v <= B2R (max_float l))%R) l.
Proof.
  intros N Hl. destruct l as [|x l]; [congruence|]. cbn [max_float].
  inversion Hl as [|? ? Hx Hl']; subst.
  destruct (fold_fmax_spec l x Hl' Hx) as (F & I & B & A).
  split; [exact F|]. split; [|constructor; assumption].
  destruct I as [I|I]; [left; now rewrite I|now right].
Qed.

Lemma fle_sign_true (z : float) :
  z <> S754_nan -> sign_of z = true -> fle z (S754_zero false) = true.
Proof. destruct z as [s|s| |s m e]; cbn [sign_of]; try congruence; now intros _ ->. Qed.

Lemma finite_zero (z : float) : is_finite z = true -> B2R z = 0%R -> exists s, z = S754_zero s.
Proof.
  destruct z as [s|s| |s m e]; try discriminate; intros _ H; [now exists s|].
  exfalso. cbn [B2R] in H. rewrite IZR_cond_Zopp in H. pose proof (bpow_pos e).
  assert (0 < IZR (Zpos m))%R by (apply IZR_lt; lia). destruct s; nra.
Qed.

Lemma exponent_nonpositive (v m : float) (mt : positive) (et : Z) :
  finite_float v -> finite_float m -> (B2R v <= B2R m)%R ->
  fle (fdiv (fsub v m) (S754_finite false mt et)) (S754_zero false) = true.
Proof.
  intros [Vv Fv] [Vm Fm] H.
  destruct (SFsub_spec v m Vv Vm Fv Fm) as (V & NN & S1 & _ & R).
  fold (fsub v m) in *.
  assert (C : (exists s, fsub v m = S754_zero s) \/ sign_of (fsub v m) = true).
  { destruct (Rle_lt_or_eq_dec _ _ H) as [L|E].
    - right. apply S1. lra.
    - left. replace (B2R v - B2R m)%R with 0%R in R by lra.
      rewrite Rabs_R0, Rmult_0_r in R. destruct (R (bpow_pos 1023)) as [F B].
      apply finite_zero; [exact F|].
      rewrite Rminus_0_r in B. pose proof (Rabs_pos (B2R (fsub v m))).
      destruct (Req_dec (B2R (fsub v m)) 0) as [Z|Z]; [exact Z|].
      apply Rabs_pos_lt in Z. lra. }
  destruct C as [[s ->]|S].
  - now destruct s.
  - destruct (fsub v m) as [s|s| |s md ed] eqn:D; cbn [sign_of] in S; try congruence; subst s.
    + reflexivity.
    + reflexivity.
    + destruct (SFdiv_spec (S754_finite true md ed) false mt et eq_refl) as (_ & N2 & S2 & _).
      apply fle_sign_true; [exact N2|exact S2].
Qed.

Section SoftmaxFacts.
Variable math_exp : float -> exn + float.
Hypothesis exp_zero : forall s : bool, math_exp (S754_zero s) = inr (lit 1.0).
Hypothesis exp_nonpositive :
  forall x : float, fle x (S754_zero false) = true ->
  exists y, math_exp x = inr y /\ unit_float y.

Lemma unit_one : unit_float (lit 1.0).
Proof.
  rewrite lit_one. fold one. split; [reflexivity|]. split; [reflexivity|].
  rewrite B2R_one. lra.
Qed.

Lemma exp_loop (scores : list (string * float)) (m : float) (mt : positive) (et : Z) :
  finite_float m ->
  Forall (fun v => finite_float v /\ (B2R v <= B2R m)%R) (dict_values scores) ->
  exists exp_s,
    for_each (fun '(k, v) =>
                match float_truediv (fsub v m) (S754_finite false mt et) with
                | inl x => inl x
                | inr q =>
                    match math_exp q with
                    | inl x => inl x
                    | inr y => inr (k, y)
                    end
                end) scores = inr exp_s
    /\ dict_keys exp_s = dict_keys scores
    /\ Forall unit_float (dict_values exp_s)
    /\ (In m (dict_values scores) -> (1 <= real_sum (dict_values exp_s))%R).
Proof.
  intros Hm. induction scores as [|[k v] scores IH]; intros H.
  - exists []. repeat split; [constructor|intros []].
  - cbn [dict_values map snd] in H. inversion H as [|? ? [Hv Bv] H']; subst.
    destruct (IH H') as (exp_s & E & K & U & S). clear IH.
    cbn [for_each].
    change (float_truediv (fsub v m) (S754_finite false mt et))
      with (@inr exn float (fdiv (fsub v m) (S754_finite false mt et))).
    cbv iota.
    destruct (exp_nonpositive _ (exponent_nonpositive v m mt et Hv Hm Bv)) as (y & Ey & Uy).
    rewrite Ey, E. exists ((k, y) :: exp_s).
    split; [reflexivity|]. split; [cbn; now f_equal|].
    split; [constructor; assumption|].
    cbn [dict_values map snd real_sum fold_right]. fold (real_sum (map snd exp_s)).
    pose proof (real_sum_nonneg _ U) as [S0 _]. unfold dict_values in S0.
    intros [I|I].
    + subst v. rewrite fsub_self in Ey by apply Hm.
      change (fdiv (S754_zero false) (S754_finite false mt et)) with (S754_zero false) in Ey.
      rewrite exp_zero in Ey. injection Ey as <-.
      rewrite lit_one. fold one. rewrite B2R_one. lra.
    + specialize (S I). unfold dict_values in S. destruct Uy as (_ & _ & By). lra.
Qed.

Lemma dict_values_map {A B : Type} (f : A -> B) (d : list (string * A)) :
  dict_values (map (fun '(k, v) => (k, f v)) d) = map f (dict_values d).
Proof.
  unfold dict_values. rewrite !map_map. apply map_ext. now intros [k v].
Qed.

Lemma dict_keys_map {A B : Type} (f : A -> B) (d : list (string * A)) :
  dict_keys (map (fun '(k, v) => (k, f v)) d) = dict_keys d.
Proof.
  unfold dict_keys. rewrite !map_map. apply map_ext. now intros [k v].
Qed.

Lemma softmax_sums_to_one (scores : list (string * float)) (temperature : float) :
  scores <> [] ->
  Forall finite_float (dict_values scores) ->
  finite_float temperature -> flt (S754_zero false) temperature = true ->
  (Z.of_nat (length scores) <= 2 ^ 51) ->
  exists weights,
    _softmax math_exp scores temperature = inr weights
    /\ dict_keys weights = dict_keys scores
    /\ Forall (fun w => valid w = true /\ is_finite w = true /\ (0 <= B2R w)%R)
              (dict_values weights)
    /\ (Rabs (real_sum (dict_values weights) - 1)
        <= INR (length scores + 1) * bpow (-52))%R.
Proof.
  intros N Hs [Vt Ft] Pt Hn.
  assert (Tf : exists mt et, temperature = S754_finite false mt et).
  { destruct temperature as [s|s| |s mt et]; try discriminate.
    destruct s; [discriminate|]. now exists mt, et. }
  destruct Tf as (mt & et & ->).
  assert (Nv : dict_values scores <> []) by (destruct scores; [congruence|discriminate]).
  destruct (max_float_spec (dict_values scores) Nv Hs) as (Fm & Im & Bm).
  set (m := max_float (dict_values scores)) in *.
  assert (H : Forall (fun v => finite_float v /\ (B2R v <= B2R m)%R) (dict_values scores)).
  { rewrite Forall_forall in *. intros v Hv. split; [apply Hs, Hv|apply Bm, Hv]. }
  destruct (exp_loop scores m mt et Fm H) as (exp_s & E & K & U & S).
  specialize (S Im).
  unfold _softmax. fold m. rewrite E.
  assert (L : length (dict_values exp_s) = length scores).
  { unfold dict_values. rewrite length_map. 
    rewrite <- (length_map fst exp_s). fold (dict_keys exp_s). rewrite K.
    unfold dict_keys. apply length_map. }
  assert (Hu : (INR (length (dict_values exp_s)) * u53 <= 1 / 4)%R).
  { rewrite L.
    assert (E51 : (bpow 51 * u53 = 1 / 4)%R).
    { unfold u53. rewrite <- bpow_add. unfold bpow. simpl. lra. }
    rewrite <- E51. apply Rmult_le_compat_r; [apply Rlt_le, u53_bounds|].
    rewrite bpow_IZR by lia. rewrite INR_IZR_INZ. apply IZR_le. exact Hn. }
  destruct (normalised_sum (dict_values exp_s) U S Hu) as (F & T34 & P & B).
  rewrite P. eexists. split; [reflexivity|].
  rewrite dict_keys_map, dict_values_map. split; [exact K|]. split.
  - apply (weights_sum (dict_values exp_s) _ U F T34).
  - rewrite L in B. exact B.
Qed.

Lemma softmax_uniform (scores : list (string * float)) (temperature v : float) :
  scores <> [] ->
  Forall (fun x => x = v) (dict_values scores) -> is_finite v = true ->
  temperature <> S754_nan -> (forall s, temperature <> S754_zero s) ->
  (Z.of_nat (length scores) < 2 ^ 53) ->
  _softmax math_exp scores temperature
  = inr (map (fun '(k, _) => (k, fdiv (lit 1.0) (of_int (Z.of_nat (length scores))))) scores).
Proof.
  intros N Hv Fv Tn Tz Hn.
  assert (M : max_float (dict_values scores) = v).
  { destruct scores as [|[k x] scores]; [congruence|]. cbn [dict_values map snd max_float].
    cbn [dict_values map snd] in Hv.
    pose proof (Forall_inv Hv) as Hx. pose proof (Forall_inv_tail Hv) as Hv'.
    cbn beta in Hx. subst x.
    clear - Hv'. induction Hv' as [|y l -> _ IH]; [reflexivity|].
    cbn [fold_left]. replace (fmax v v) with v; [exact IH|].
    unfold fmax. now destruct (flt v v). }
  unfold _softmax. rewrite M.
  assert (E : for_each (fun '(k, x) =>
                match float_truediv (fsub x v) temperature with
                | inl e => inl e
                | inr q =>
                    match math_exp q with
                    | inl e => inl e
                    | inr y => inr (k, y)
                    end
                end) scores = inr (map (fun '(k, _) => (k, lit 1.0)) scores)).
  { clear N M Hn. induction scores as [|[k x] scores IH]; [reflexivity|].
    cbn [dict_values map snd] in Hv.
    pose proof (Forall_inv Hv) as Hx. pose proof (Forall_inv_tail Hv) as Hv'.
    cbn beta in Hx. subst x.
    cbn [for_each map]. rewrite fsub_self by exact Fv.
    assert (Q : exists s, float_truediv (S754_zero false) temperature = inr (S754_zero s)).
    { destruct temperature as [s|s| |s mt et]; cbn [float_truediv].
      - exfalso. now apply (Tz s).
      - now exists (xorb false s).
      - congruence.
      - now exists (xorb false s). }
    destruct Q as [s ->]. rewrite exp_zero, (IH Hv'). reflexivity. }
  rewrite E.
  assert (V : dict_values (map (fun '(k, _) => (k, lit 1.0)) scores)
              = repeat one (length scores)).
  { rewrite lit_one. fold one. clear. induction scores as [|[k x] scores IH]; [reflexivity|].
    cbn [map dict_values snd length repeat]. f_equal. exact IH. }
  rewrite V, fsum_ones by exact Hn.
  assert (P : flt (S754_zero false) (of_int (Z.of_nat (length scores))) = true).
  { destruct (of_int_spec (Z.of_nat (length scores))) as (Vn & Fn & Bn).
    - destruct scores; [congruence|]. cbn [length] in *. lia.
    - destruct (B2R_pos_finite (of_int (Z.of_nat (length scores)))) as (mm & ee & ->);
        [|reflexivity].
      rewrite Bn. apply IZR_lt. destruct scores; [congruence|]. cbn [length]. lia. }
  rewrite P. f_equal. rewrite map_map. apply map_ext. now intros [k x].
Qed.

Lemma softmax_empty (temperature : float) : _softmax math_exp [] temperature = inr [].
Proof. reflexivity. Qed.

End SoftmaxFacts.

Lemma softmax_zero_temperature (math_exp : float -> exn + float)
  (scores : list (string * float)) (s : bool) :
  scores <> [] -> _softmax math_exp scores (S754_zero s) = inl ZeroDivisionError.
Proof.
  intros N. destruct scores as [|[k v] scores]; [congruence|]. reflexivity.
Qed.

Lemma fmul_one (d : float) : valid d = true -> fmul one d = d.
Proof.
  intros V. destruct d as [s|s| |s md ed]; try reflexivity.
  unfold fmul, one. cbn [SFmul xorb].
  destruct (valid_finite _ _ _ V) as (C & U & L).
  apply binary_round_aux_exact; [lia| |exact V|].
  - rewrite Pos2Z.inj_mul, Z.mul_comm.
    change (Zpos 4503599627370496) with (2 ^ 52).
    rewrite Zdigits2_mul_pow by lia. cbn [Zdigits2].
    replace (Zpos (digits2_pos md) + 52 + (-52 + ed)) with (Zpos (digits2_pos md) + ed) by lia.
    rewrite C. lia.
  - rewrite Pos2Z.inj_mul, mult_IZR.
    change (Zpos 4503599627370496) with (2 ^ 52). rewrite <- (bpow_IZR 52) by lia.
    rewrite bpow_add. replace (bpow 52 * IZR (Zpos md) * (bpow (-52) * bpow ed))%R
      with (IZR (Zpos md) * bpow ed * (bpow 52 * bpow (-52)))%R by ring.
    rewrite <- bpow_add. change (52 + -52) with 0. rewrite bpow_0. ring.
Qed.

Lemma abs_le_one (x : float) :
  valid x = true -> is_finite x = true ->
  fle (fabs x) (lit 1.0) = true -> (Rabs (B2R x) <= 1)%R.
Proof.
  intros V F H.
  assert (Va : valid (fabs x) = true) by (destruct x; exact V).
  assert (Fa : is_finite (fabs x) = true) by (destruct x; exact F).
  assert (Ba : B2R (fabs x) = Rabs (B2R x)).
  { destruct x as [s|s| |s m e]; cbn [fabs SFabs B2R]; try (now rewrite Rabs_R0).
    rewrite !IZR_cond_Zopp. pose proof (bpow_pos e).
    assert (0 < IZR (Zpos m))%R by (apply IZR_lt; lia).
    destruct s; [rewrite <- Ropp_mult_distr_l, Rabs_Ropp|]; symmetry; apply Rabs_pos_eq; nra. }
  rewrite lit_one in H. fold one in H. unfold fle, SFleb in H.
  rewrite (SFcompare_finite (fabs x) one Va eq_refl Fa eq_refl) in H.
  rewrite Ba, B2R_one in H.
  destruct (Rcompare_spec (Rabs (B2R x)) 1); try discriminate; lra.
Qed.

Lemma lerp_at_one (a b : float) :
  finite_float a -> finite_float b ->
  (Rabs (B2R a) + Rabs (B2R b) < bpow 1022)%R ->
  let r := fadd a (fmul (lit 1.0) (fsub b a)) in
  is_finite r = true
  /\ (Rabs (B2R r - B2R b) <= 3 * bpow (-53) * (Rabs (B2R a) + Rabs (B2R b)))%R.
Proof.
  intros [Va Fa] [Vb Fb] H r.
  pose proof u53_bounds as U. unfold u53 in U.
  destruct (SFsub_spec b a Vb Va Fb Fa) as (Vd & _ & _ & _ & Rd).
  fold (fsub b a) in Vd, Rd. set (d := fsub b a) in *.
  assert (T1 : (Rabs (B2R b - B2R a) <= Rabs (B2R a) + Rabs (B2R b))%R).
  { unfold Rminus. eapply Rle_trans; [apply Rabs_triang|]. rewrite Rabs_Ropp. lra. }
  assert (B22 : (bpow 1023 = 2 * bpow 1022)%R).
  { change 1023 with (1022 + 1). apply bpow_succ. }
  pose proof (bpow_pos 1022) as P22.
  destruct (Rd ltac:(lra)) as [Fd Ed].
  unfold r. rewrite lit_one. fold one. rewrite fmul_one by exact Vd.
  destruct (SFadd_spec a d Va Vd Fa Fd) as (_ & _ & _ & _ & Rr).
  fold (fadd a d) in Rr.
  assert (X2 : (B2R a + B2R d = B2R b + (B2R d - (B2R b - B2R a)))%R) by ring.
  assert (T2 : (Rabs (B2R a + B2R d)
                <= Rabs (B2R b) + bpow (-53) * (Rabs (B2R a) + Rabs (B2R b)))%R).
  { rewrite X2. eapply Rle_trans; [apply Rabs_triang|].
    assert (bpow (-53) * Rabs (B2R b - B2R a)
            <= bpow (-53) * (Rabs (B2R a) + Rabs (B2R b)))%R
      by (apply Rmult_le_compat_l; lra).
    lra. }
  pose proof (Rabs_pos (B2R a)) as PA. pose proof (Rabs_pos (B2R b)) as PB.
  assert (SM : (bpow (-53) * (Rabs (B2R a) + Rabs (B2R b))
                <= 1 / 4 * (Rabs (B2R a) + Rabs (B2R b)))%R)
    by (apply Rmult_le_compat_r; lra).
  destruct (Rr ltac:(lra)) as [Fr Er]. split; [exact Fr|].
  replace (B2R (fadd a d) - B2R b)%R
    with ((B2R (fadd a d) - (B2R a + B2R d)) + (B2R d - (B2R b - B2R a)))%R by ring.
  eapply Rle_trans; [apply Rabs_triang|].
  assert (bpow (-53) * Rabs (B2R a + B2R d)
          <= bpow (-53) * (Rabs (B2R b) + bpow (-53) * (Rabs (B2R a) + Rabs (B2R b))))%R
    by (apply Rmult_le_compat_l; lra).
  assert (bpow (-53) * Rabs (B2R b - B2R a)
          <= bpow (-53) * (Rabs (B2R a) + Rabs (B2R b)))%R
    by (apply Rmult_le_compat_l; lra).
  assert (bpow (-53) * (bpow (-53) * (Rabs (B2R a) + Rabs (B2R b)))
          <= bpow (-53) * (1 / 4 * (Rabs (B2R a) + Rabs (B2R b))))%R
    by (apply Rmult_le_compat_l; lra).
  assert (0 <= bpow (-53) * Rabs (B2R a))%R by (apply Rmult_le_pos; lra).
  assert (0 <= bpow (-53) * Rabs (B2R b))%R by (apply Rmult_le_pos; lra).
  lra.
Qed.


End FloatSums.

(** C7, as the code has it.  [math.exp] is taken to return 1.0 at the
    two zeros and a float between 0 and 1 at every argument that is not
    above 0.  For a finite temperature above 0 and a non-empty
    dictionary of at most 2^51 finite scores, [_softmax] returns one
    weight per key, in the order of the keys, each a finite float that is
    not negative, and the weights sum to 1 within (n + 1) * 2^-52.  When
    all n scores are the same finite float (n below 2^53; the temperature
    not 0 and not NaN), every weight is the float 1.0 / n.  For the empty
    dictionary the result is the empty dictionary, whatever the
    temperature.  The temperature is not checked: at a temperature of 0 a
    dictionary that is not empty raises ZeroDivisionError. *)
Theorem C7_softmax_distribution (math_exp : float -> exn + float) :
  (forall s : bool, math_exp (S754_zero s) = inr (lit 1.0)) ->
  (forall x : float, fle x (S754_zero false) = true ->
     exists y, math_exp x = inr y /\ unit_float y) ->
  (forall (scores : list (string * float)) (temperature : float),
     scores <> [] ->
     Forall finite_float (dict_values scores) ->
     finite_float temperature -> flt (S754_zero false) temperature = true ->
     (Z.of_nat (length scores) <= 2 ^ 51)%Z ->
     exists weights,
       _softmax math_exp scores temperature = inr weights
       /\ dict_keys weights = dict_keys scores
       /\ Forall (fun w => valid w = true /\ is_finite w = true /\ (0 <= B2R w)%R)
                 (dict_values weights)
       /\ (Rabs (real_sum (dict_values weights) - 1)
           <= INR (length scores + 1) * bpow (-52))%R)
  /\ (forall (scores : list (string * float)) (temperature v : float),
        scores <> [] ->
        Forall (fun x => x = v) (dict_values scores) -> is_finite v = true ->
        temperature <> S754_nan -> (forall s, temperature <> S754_zero s) ->
        (Z.of_nat (length scores) < 2 ^ 53)%Z ->
        _softmax math_exp scores temperature
        = inr (map (fun '(k, _) => (k, fdiv (lit 1.0) (of_int (Z.of_nat (length scores)))))
                   scores))
  /\ (forall temperature : float, _softmax math_exp [] temperature = inr [])
  /\ (forall (scores : list (string * float)) (s : bool),
        scores <> [] -> _softmax math_exp scores (S754_zero s) = inl ZeroDivisionError).
Proof.
  intros exp_zero exp_nonpositive.
  split; [|split; [|split]].
  - intros scores temperature.
    exact (softmax_sums_to_one math_exp exp_zero exp_nonpositive scores temperature).
  - intros scores temperature v.
    exact (softmax_uniform math_exp exp_zero scores temperature v).
  - intros temperature. exact (softmax_empty math_exp temperature).
  - intros scores s. exact (softmax_zero_temperature math_exp scores s).
Qed.

(** Two equal scores at the temperature 1.0, where [math.exp] is called
    at 0.0 only: a function that is 1.0 there stands for it. *)
Lemma C7_softmax_distribution_witness :
  let math_exp := fun _ : float => @inr exn float (lit 1.0) in
  (exists weights,
     _softmax math_exp [("a", lit 2.0); ("b", lit 2.0)] (lit 1.0) = inr weights
     /\ dict_keys weights = ["a"; "b"]
     /\ Forall (fun w => valid w = true /\ is_finite w = true /\ (0 <= B2R w)%R)
               (dict_values weights)
     /\ (Rabs (real_sum (dict_values weights) - 1) <= INR (2 + 1) * bpow (-52))%R)
  /\ _softmax math_exp [("a", lit 2.0); ("b", lit 2.0)] (lit 1.0)
     = inr [("a", fdiv (lit 1.0) (of_int 2)); ("b", fdiv (lit 1.0) (of_int 2))].
Proof.
  intros math_exp.
  assert (Z : forall s : bool, math_exp (S754_zero s) = inr (lit 1.0))
    by (intros s; reflexivity).
  assert (N : forall x : float, fle x (S754_zero false) = true ->
                exists y, math_exp x = inr y /\ unit_float y).
  { intros x _. exists (lit 1.0). split; [reflexivity|apply unit_one]. }
  destruct (C7_softmax_distribution math_exp Z N) as (S & U & _).
  split.
  - apply (S [("a", lit 2.0); ("b", lit 2.0)] (lit 1.0)).
    + discriminate.
    + repeat constructor; vm_compute; reflexivity.
    + split; vm_compute; reflexivity.
    + vm_compute. reflexivity.
    + vm_compute. discriminate.
  - apply (U [("a", lit 2.0); ("b", lit 2.0)] (lit 1.0) (lit 2.0)).
    + discriminate.
    + repeat constructor.
    + vm_compute. reflexivity.
    + vm_compute. discriminate.
    + intros s. vm_compute. discriminate.
    + vm_compute. reflexivity.
Defined.

(** C7, as the claim has it, fails for some dictionaries that are not
    empty: at the temperature 0.0 the call raises ZeroDivisionError and
    returns no weights; and at the temperature 1.0 the single score
    infinity gives the weight NaN (inf - inf), whatever [math.exp] is as
    long as it maps NaN to NaN. *)
Lemma C7_softmax_raises_or_gives_nan :
  (forall math_exp : float -> exn + float,
     _softmax math_exp [("a", lit 1.0)] (lit 0.0) = inl ZeroDivisionError)
  /\ (forall math_exp : float -> exn + float,
        math_exp S754_nan = inr S754_nan ->
        _softmax math_exp [("a", inf)] (lit 1.0) = inr [("a", S754_nan)]).
Proof.
  split.
  - intros math_exp. reflexivity.
  - intros math_exp H. unfold _softmax.
    change (dict_values [("a", inf)]) with [inf].
    change (max_float [inf]) with inf.
    cbn [for_each].
    assert (Q : float_truediv (fsub inf inf) (lit 1.0) = inr S754_nan)
      by (vm_compute; reflexivity).
    rewrite Q, H. reflexivity.
Qed.

(* ------------------------------------------------------------------ *)
(** ** Interpolation and trajectories *)

Lemma resolve_in_catalog (sid : string) (p : point float) :
  _resolve sid = Some p -> In p catalog_points.
Proof.
  unfold _resolve, catalog_points. rewrite !in_app_iff.
  destruct (dict_mem CANONICAL_STATES sid).
  - intros H. left. eapply dict_get_value; eassumption.
  - destruct (dict_mem VISUAL_TYPES sid).
    + destruct (dict_get VISUAL_TYPES sid) as [[n c]|] eqn:G; [|discriminate].
      intros [= <-]. right; left.
      change c with (snd (n, c)). apply in_map. eapply dict_get_value; eassumption.
    + destruct (dict_mem ATTRACTOR_PRESETS sid); [|discriminate].
      intros H. right; right. eapply dict_get_value; eassumption.
Qed.

Lemma new_location_zero (n : Z) : new_location n 0 = loc_Exact.
Proof. unfold new_location, new_location_even, new_location_odd. now destruct (Z.even n). Qed.

Lemma div_core_self (p : positive) :
  SFdiv_core_binary prec emax (Zpos p) 0 (Zpos p) 0 = (9007199254740992, -53, loc_Exact)%Z.
Proof.
  unfold SFdiv_core_binary.
  replace (Zdigits2 (Z.pos p) + 0 - (Zdigits2 (Z.pos p) + 0))%Z with 0%Z by lia.
  change (Z.min (fexp prec emax 0) (0 - 0)) with (-53)%Z.
  change (0 - 0 - -53)%Z with 53%Z.
  cbv beta iota zeta.
  assert (E : Z.div_eucl (Z.shiftl (Z.pos p) 53) (Z.pos p) = (9007199254740992, 0)%Z).
  { rewrite Z.shiftl_mul_pow2 by lia. rewrite Z.mul_comm.
    pose proof (Z.div_mul (2 ^ 53) (Z.pos p) ltac:(lia)) as D.
    pose proof (Z.mod_mul (2 ^ 53) (Z.pos p) ltac:(lia)) as M.
    unfold Z.div in D. unfold Z.modulo in M.
    destruct (Z.div_eucl (2 ^ 53 * Z.pos p) (Z.pos p)) as [q r].
    now subst. }
  rewrite E. now rewrite new_location_zero.
Qed.

(** [n / n] is the float 1.0 for every positive int, whatever its size. *)
Lemma int_truediv_self (n : Z) : (1 <= n)%Z -> int_truediv n n = inr (lit 1.0).
Proof.
  intros H. unfold int_truediv.
  destruct n as [|p|p]; try lia. simpl Z.eqb. cbv iota.
  unfold int_operand, fdiv, SFdiv. rewrite div_core_self. vm_compute. reflexivity.
Qed.

(** [0 / n] is the float 0.0. *)
Lemma int_truediv_zero (n : Z) : (1 <= n)%Z -> int_truediv 0 n = inr (lit 0.0).
Proof.
  intros H. unfold int_truediv. destruct n as [|p|p]; try lia. reflexivity.
Qed.

Lemma for_each_map {A B : Type} (body : A -> exn + B) (g : A -> B) (l : list A) :
  (forall a, In a l -> body a = inr (g a)) -> for_each body l = inr (map g l).
Proof.
  induction l as [|a rest IH]; intros H; simpl; [reflexivity|].
  rewrite (H a (or_introl eq_refl)), IH; [reflexivity|].
  intros b Hb. apply H. now right.
Qed.

Lemma nth_error_range (n : Z) (i : nat) :
  (i < Z.to_nat n)%nat -> nth_error (range n) i = Some (Z.of_nat i).
Proof.
  intros H. unfold range. rewrite nth_error_map.
  rewrite nth_error_seq. 
  destruct (Nat.ltb i (Z.to_nat n)) eqn:E; [reflexivity|].
  apply Nat.ltb_ge in E. lia.
Qed.

Lemma ts_state_entry (start end_ : point float) (i : Z) (t : float) :
  ts_state (trajectory_entry start end_ i t) = round_state (_lerp_state start end_ t).
Proof.
  unfold trajectory_entry. now destruct (_nearest_visual_type (_lerp_state start end_ t)).
Qed.

(** All pairs of states of the catalogs: the interpolation at 0.0 and at
    1.0, rounded to 4 decimals, is the start and the end. *)
Lemma catalog_endpoints :
  forallb (fun a =>
    forallb (fun b =>
      same_point (round_state (_lerp_state a b (lit 0.0))) a
      && same_point (round_state (_lerp_state a b (lit 1.0))) b)
      catalog_points) catalog_points = true.
Proof. vm_compute. reflexivity. Qed.

Lemma feq_refl_finite (x : float) : is_finite x = true -> feq x x = true.
Proof.
  destruct x as [s|s| |s m e]; simpl; try discriminate; intros _.
  - reflexivity.
  - unfold feq, SFeqb, SFcompare.
    rewrite Z.compare_refl, Pos.compare_cont_refl. now destruct s.
Qed.

(** [a + 0.0 * d] is [a] when [a] and [d] are finite. *)
Lemma add_zero_times (a d : float) :
  is_finite a = true -> is_finite d = true ->
  feq (fadd a (fmul (lit 0.0) d)) a = true.
Proof.
  intros Ha Hd.
  assert (Z0 : lit 0.0 = S754_zero false) by reflexivity.
  rewrite Z0. clear Z0.
  destruct a as [sa|sa| |sa ma ea]; try discriminate;
    destruct d as [sd|sd| |sd md ed]; try discriminate;
    unfold fadd, fmul; simpl.
  - destruct sa, sd; reflexivity.
  - destruct sa, sd; reflexivity.
  - now apply feq_refl_finite.
  - now apply feq_refl_finite.
Qed.

(** C6, as the code has it.  Interpolation at t = 0 returns a point equal
    to [a] in every coordinate where [a] and the difference [b - a] are
    finite.  At t = 1 the sum [a + 1.0 * (b - a)] is rounded twice and is
    [b] only up to that: in a coordinate where [a] and [b] are finite
    floats with |a| + |b| < 2^1022, the result is finite and differs from
    [b] by at most 3 * 2^-53 * (|a| + |b|).
    compute_dissolution_trajectory rounds every state to 4 decimals: for
    resolved identifiers and N >= 1 it returns N + 1 steps, the state of
    step 0 is the resolved start point and the state of step N is the
    resolved end point, exactly. *)
Theorem C6_lerp_start_exact_and_trajectory_endpoints :
  (forall (a b : point float) (k : param),
     is_finite (get a k) = true ->
     is_finite (fsub (get b k) (get a k)) = true ->
     feq (get (_lerp_state a b (lit 0.0)) k) (get a k) = true)
  /\ (forall (a b : point float) (k : param),
        finite_float (get a k) -> finite_float (get b k) ->
        (Rabs (B2R (get a k)) + Rabs (B2R (get b k)) < bpow 1022)%R ->
        is_finite (get (_lerp_state a b (lit 1.0)) k) = true
        /\ (Rabs (B2R (get (_lerp_state a b (lit 1.0)) k) - B2R (get b k))
            <= 3 * bpow (-53) * (Rabs (B2R (get a k)) + Rabs (B2R (get b k))))%R)
  /\ (forall (start_id end_id : string) (num_steps : Z) (start end_ : point float),
        (1 <= num_steps)%Z ->
        _resolve start_id = Some start ->
        _resolve end_id = Some end_ ->
        exists r first last,
          compute_dissolution_trajectory start_id end_id num_steps = Ok r
          /\ length (tr_trajectory r) = Z.to_nat (num_steps + 1)
          /\ nth_error (tr_trajectory r) 0 = Some first
          /\ ts_step first = 0%Z
          /\ ts_state first = start
          /\ nth_error (tr_trajectory r) (Z.to_nat num_steps) = Some last
          /\ ts_step last = num_steps
          /\ ts_state last = end_).
Proof.
  split; [|split].
  - intros a b k Ha Hd.
    assert (E : get (_lerp_state a b (lit 0.0)) k
                = fadd (get a k) (fmul (lit 0.0) (fsub (get b k) (get a k))))
      by (destruct k; reflexivity).
    rewrite E. now apply add_zero_times.
  - intros a b k Ha Hb H.
    assert (E : get (_lerp_state a b (lit 1.0)) k
                = fadd (get a k) (fmul (lit 1.0) (fsub (get b k) (get a k))))
      by (destruct k; reflexivity).
    rewrite E. exact (lerp_at_one (get a k) (get b k) Ha Hb H).
  - intros start_id end_id num_steps start end_ HN Hs He.
    unfold compute_dissolution_trajectory. rewrite Hs, He.
    set (entry := fun i : Z =>
           trajectory_entry start end_ i (fdiv (int_operand i) (int_operand num_steps))).
    rewrite (for_each_map _ entry).
    2:{ intros i _. unfold trajectory_body, int_truediv.
        destruct (Z.eqb num_steps 0) eqn:Z0; [apply Z.eqb_eq in Z0; lia|reflexivity]. }
    pose proof catalog_endpoints as T. rewrite forallb_forall in T.
    specialize (T start (resolve_in_catalog _ _ Hs)). rewrite forallb_forall in T.
    specialize (T end_ (resolve_in_catalog _ _ He)).
    apply andb_true_iff in T. destruct T as [T0 T1].
    apply same_point_eq in T0, T1.
    assert (D0 : fdiv (int_operand 0) (int_operand num_steps) = lit 0.0).
    { pose proof (int_truediv_zero num_steps HN) as D. unfold int_truediv in D.
      destruct (Z.eqb num_steps 0); [discriminate|]. now injection D. }
    assert (D1 : fdiv (int_operand num_steps) (int_operand num_steps) = lit 1.0).
    { pose proof (int_truediv_self num_steps HN) as D. unfold int_truediv in D.
      destruct (Z.eqb num_steps 0); [discriminate|]. now injection D. }
    eexists. exists (entry 0%Z), (entry num_steps).
    split; [reflexivity|]. cbn [tr_trajectory].
    split; [unfold range; now rewrite !length_map, length_seq|].
    split; [rewrite nth_error_map, nth_error_range by lia; reflexivity|].
    split; [unfold entry, trajectory_entry;
            now destruct (_nearest_visual_type _)|].
    split; [unfold entry; now rewrite ts_state_entry, D0|].
    split; [rewrite nth_error_map, nth_error_range by lia; simpl;
            now rewrite Z2Nat.id by lia|].
    split; [unfold entry, trajectory_entry;
            now destruct (_nearest_visual_type _)|].
    unfold entry. now rewrite ts_state_entry, D1.
Qed.

Lemma C6_lerp_start_exact_and_trajectory_endpoints_witness :
  feq (get (_lerp_state (point_map lit editorial_wash_center)
                        (point_map lit full_dissolution_center) (lit 0.0)) edge_coherence)
      (lit 0.85) = true
  /\ (is_finite (get (_lerp_state (point_map lit editorial_wash_center)
                                  (point_map lit full_dissolution_center) (lit 1.0))
                     edge_coherence) = true
      /\ (Rabs (B2R (get (_lerp_state (point_map lit editorial_wash_center)
                                      (point_map lit full_dissolution_center) (lit 1.0))
                         edge_coherence)
                - B2R (lit 0.15))
          <= 3 * bpow (-53) * (Rabs (B2R (lit 0.85)) + Rabs (B2R (lit 0.15))))%R)
  /\ exists r first last,
       compute_dissolution_trajectory "editorial_wash" "full_dissolution" 20 = Ok r
       /\ length (tr_trajectory r) = Z.to_nat (20 + 1)
       /\ nth_error (tr_trajectory r) 0 = Some first
       /\ ts_step first = 0%Z
       /\ ts_state first = point_map lit editorial_wash_center
       /\ nth_error (tr_trajectory r) (Z.to_nat 20) = Some last
       /\ ts_step last = 20%Z
       /\ ts_state last = point_map lit full_dissolution_center.
Proof.
  split; [|split].
  - apply (proj1 C6_lerp_start_exact_and_trajectory_endpoints
             (point_map lit editorial_wash_center)
             (point_map lit full_dissolution_center) edge_coherence);
      vm_compute; reflexivity.
  - apply (proj1 (proj2 C6_lerp_start_exact_and_trajectory_endpoints)
             (point_map lit editorial_wash_center)
             (point_map lit full_dissolution_center) edge_coherence).
    + split; vm_compute; reflexivity.
    + split; vm_compute; reflexivity.
    + apply Rle_lt_trans with (1 + 1)%R.
      * apply Rplus_le_compat; apply abs_le_one; vm_compute; reflexivity.
      * apply Rlt_le_trans with (bpow 2); [|apply bpow_le; lia].
        unfold bpow. simpl. lra.
  - apply (proj2 (proj2 C6_lerp_start_exact_and_trajectory_endpoints)
             "editorial_wash" "full_dissolution" 20%Z).
    + lia.
    + vm_compute. reflexivity.
    + vm_compute. reflexivity.
Defined.

(** C6, as the claim has it, fails at t = 1: from the center of
    editorial_wash to the center of full_dissolution the interpolated
    edge_coherence is 0.85 + 1.0 * (0.15 - 0.85), the float
    0.15000000000000002, which is not equal to 0.15. *)
Lemma C6_lerp_at_one_misses_end :
  get (_lerp_state (point_map lit editorial_wash_center)
                   (point_map lit full_dissolution_center) (lit 1.0)) edge_coherence
  = lit 0.15000000000000002
  /\ feq (get (_lerp_state (point_map lit editorial_wash_center)
                           (point_map lit full_dissolution_center) (lit 1.0)) edge_coherence)
         (get (point_map lit full_dissolution_center) edge_coherence) = false.
Proof. split; vm_compute; reflexivity. Qed.

(* ------------------------------------------------------------------ *)
(** ** Attractor prompts *)

Lemma attractor_state_fallback (attractor_id : string) :
  in_no_catalog attractor_id = true ->
  attractor_state attractor_id None = point_map lit contested_boundary_center.
Proof.
  unfold in_no_catalog. rewrite !andb_true_iff, !negb_true_iff.
  intros [[C V] A]. unfold attractor_state.
  now rewrite (dict_mem_false _ _ A), (dict_mem_false _ _ V), (dict_mem_false _ _ C).
Qed.

(** C10: with no custom_state and an attractor_id that is in none of the
    three catalogs, the state is the center of "contested_boundary" and
    the call is the call for "contested_boundary" itself, in every mode.
    It returns no unknown-id error: the only error record is the one of an
    unknown mode.  The composite mode, the default, returns the bundle of
    that center, whose nearest type is "contested_boundary"; the
    split_view mode returns its bundle for that center, and the sequence
    mode with the default of 4 keyframes returns 4 keyframes. *)
Theorem C10_unknown_attractor_falls_back (attractor_id mode style_modifier : string)
  (keyframe_count : Z) :
  in_no_catalog attractor_id = true ->
  attractor_state attractor_id None = point_map lit contested_boundary_center
  /\ generate_dissolution_attractor_prompt attractor_id None mode style_modifier keyframe_count
     = generate_dissolution_attractor_prompt "contested_boundary" None mode style_modifier
         keyframe_count
  /\ generate_dissolution_attractor_prompt attractor_id None "composite" style_modifier
       keyframe_count
     = Ok (Composite (describe (point_map lit contested_boundary_center))
                     (point_map lit contested_boundary_center) "contested_boundary")
  /\ generate_dissolution_attractor_prompt attractor_id None "split_view" style_modifier
       keyframe_count
     = Ok (SplitView (describe (point_map lit contested_boundary_center))
                     (point_map lit contested_boundary_center))
  /\ (exists keyframes,
        generate_dissolution_attractor_prompt attractor_id None "sequence" style_modifier 4
        = Ok (Sequence 4 keyframes)
        /\ length keyframes = 4%nat)
  /\ (forall e,
        generate_dissolution_attractor_prompt attractor_id None mode style_modifier
          keyframe_count = Error e ->
        e = [("error", JStr ("Unknown mode: " ++ mode))]
        /\ mode <> "composite" /\ mode <> "split_view" /\ mode <> "sequence").
Proof.
  intros H. pose proof (attractor_state_fallback _ H) as S.
  split; [exact S|].
  assert (S' : attractor_state "contested_boundary" None
               = point_map lit contested_boundary_center) by (vm_compute; reflexivity).
  assert (N : _nearest_visual_type (point_map lit contested_boundary_center)
              = ("contested_boundary", S754_zero false)) by (vm_compute; reflexivity).
  assert (G : dict_get VISUAL_TYPES "contested_boundary"
              = Some ("Contested Boundary", point_map lit contested_boundary_center))
    by (vm_compute; reflexivity).
  assert (R : point_map (fun v => fround v 4) (point_map lit contested_boundary_center)
              = point_map lit contested_boundary_center) by (vm_compute; reflexivity).
  unfold generate_dissolution_attractor_prompt. rewrite S, S', N, G.
  cbv beta iota zeta.
  split; [reflexivity|].
  split; [rewrite String.eqb_refl, R; reflexivity|].
  split; [rewrite R; reflexivity|].
  split.
  { change (String.eqb "sequence" "composite") with false.
    change (String.eqb "sequence" "split_view") with false.
    rewrite String.eqb_refl. cbv iota.
    assert (F : exists keyframes,
               for_each (keyframe_body (point_map lit editorial_wash_center)
                           (point_map lit contested_boundary_center) 4) (range 4)
               = inr keyframes /\ length keyframes = 4%nat)
      by (eexists; split; [vm_compute; reflexivity|reflexivity]).
    destruct F as (keyframes & F & L). rewrite F.
    exists keyframes. split; [reflexivity|exact L]. }
  intros e.
  destruct (String.eqb mode "composite") eqn:E1; [discriminate|].
  destruct (String.eqb mode "split_view") eqn:E2; [discriminate|].
  destruct (String.eqb mode "sequence") eqn:E3.
  - destruct (for_each _ _); discriminate.
  - intros [= <-]. apply String.eqb_neq in E1, E2, E3. repeat split; assumption.
Qed.

Lemma C10_unknown_attractor_falls_back_witness :
  attractor_state "" None = point_map lit contested_boundary_center
  /\ generate_dissolution_attractor_prompt "" None "composite" "" 4
     = Ok (Composite (describe (point_map lit contested_boundary_center))
                     (point_map lit contested_boundary_center) "contested_boundary").
Proof.
  destruct (C10_unknown_attractor_falls_back "" "composite" "" 4 eq_refl)
    as (S & _ & C & _).
  split; assumption.
Defined.

(* ------------------------------------------------------------------ *)
(** ** Softmax, over the real numbers *)

Section Softmax.

Local Open Scope R_scope.

Lemma fold_left_Rplus (l : list R) (a : R) :
  fold_left Rplus l a = a + Ideal.rsum l.
Proof.
  unfold Ideal.rsum. revert a. induction l as [|x l IH]; intros a; simpl.
  - lra.
  - rewrite (IH (a + x)), (IH (0 + x)). lra.
Qed.

Lemma rsum_cons (x : R) (l : list R) : Ideal.rsum (x :: l) = x + Ideal.rsum l.
Proof. unfold Ideal.rsum at 1. simpl. rewrite fold_left_Rplus. lra. Qed.

Lemma rsum_pos (l : list R) :
  l <> [] -> (forall x, In x l -> 0 < x) -> 0 < Ideal.rsum l.
Proof.
  induction l as [|x l IH]; [congruence|]. intros _ H. rewrite rsum_cons.
  pose proof (H x (or_introl eq_refl)) as Hx.
  destruct l as [|y l].
  - unfold Ideal.rsum. simpl. lra.
  - assert (0 < Ideal.rsum (y :: l)).
    { apply IH; [congruence|]. intros z Hz. apply H. now right. }
    lra.
Qed.


Lemma rsum_constant (l : list R) (e : R) :
  (forall x, In x l -> x = e) -> Ideal.rsum l = INR (length l) * e.
Proof.
  induction l as [|x l IH]; intros H.
  - unfold Ideal.rsum. simpl. lra.
  - rewrite rsum_cons, IH by (intros y Hy; apply H; now right).
    rewrite (H x (or_introl eq_refl)).
    simpl length. rewrite S_INR. lra.
Qed.

Lemma rlt_true (x y : R) : x < y -> Ideal.rlt x y = true.
Proof. intros H. unfold Ideal.rlt. now destruct (Rlt_dec x y). Qed.


Lemma exponentials_pos (scores : list (string * R)) (max_s temperature x : R) :
  In x (dict_values (exponentials scores max_s temperature)) -> 0 < x.
Proof.
  unfold exponentials, dict_values. rewrite map_map, in_map_iff.
  intros ([k v] & <- & _). simpl. apply exp_pos.
Qed.


(** What [_softmax] returns for a non-empty dictionary and a temperature
    that is not 0. *)
Lemma softmax_unfold (scores : list (string * R)) (temperature : R) :
  scores <> [] -> temperature <> 0 ->
  let exp_s := exponentials scores (Ideal.rmax_list (dict_values scores)) temperature in
  let total := Ideal.rsum (dict_values exp_s) in
  0 < total
  /\ Ideal._softmax scores temperature = inr (map (fun '(k, v) => (k, v / total)) exp_s).
Proof.
  intros N T exp_s total.
  assert (P : 0 < total).
  { apply rsum_pos.
    - subst exp_s. unfold exponentials, dict_values.
      destruct scores; [congruence|discriminate].
    - intros x. apply exponentials_pos. }
  split; [exact P|].
  unfold Ideal._softmax.
  replace (match scores with [] => 0 | _ :: _ => Ideal.rmax_list (dict_values scores) end)
    with (Ideal.rmax_list (dict_values scores)) by (destruct scores; [congruence|reflexivity]).
  rewrite (for_each_map _
             (fun '(k, v) =>
                (k, exp ((v - Ideal.rmax_list (dict_values scores)) / temperature)))).
  - fold (exponentials scores (Ideal.rmax_list (dict_values scores)) temperature).
    fold exp_s. fold total. now rewrite (rlt_true _ _ P).
  - intros [k v] _. unfold Ideal.rdiv.
    destruct (Req_dec_T temperature 0); [contradiction|reflexivity].
Qed.


End Softmax.

(* ------------------------------------------------------------------ *)
(** ** Decomposition *)

Section Decomposition.

Local Open Scope R_scope.




Lemma get_for_params {A : Type} (f : param -> A) (k : param) : get (for_params f) k = f k.
Proof. now destruct k. Qed.








Lemma get_point_map {A B : Type} (f : A -> B) (s : point A) (k : param) :
  get (point_map f s) k = f (get s k).
Proof. now destruct k. Qed.


End Decomposition.

(* ------------------------------------------------------------------ *)
(** ** The distance, bit for bit *)

(** X1: the distance from a state with finite coordinates to itself is
    0.0 exactly. *)
Theorem X1_distance_to_itself_is_zero (p : point float) :
  (forall k, is_finite (get p k) = true) ->
  _euclidean_distance p p = lit 0.0.
Proof.
  intros F. unfold _euclidean_distance, PARAMETER_NAMES. cbn [map].
  rewrite !fsub_self by apply F. reflexivity.
Qed.

Lemma X1_distance_to_itself_is_zero_witness :
  _euclidean_distance (point_map lit chromatic_flood_center)
                      (point_map lit chromatic_flood_center) = lit 0.0.
Proof.
  apply (X1_distance_to_itself_is_zero (point_map lit chromatic_flood_center)).
  intros []; vm_compute; reflexivity.
Defined.

Lemma binary_round_aux_opp (s : bool) (m e : Z) (l : location) :
  binary_round_aux prec emax (negb s) m e l = SFopp (binary_round_aux prec emax s m e l).
Proof.
  unfold binary_round_aux.
  destruct (shr_fexp prec emax m e l) as [mrs' e'].
  destruct (shr_fexp prec emax _ e' loc_Exact) as [mrs'' e''].
  destruct (shr_m mrs''); try reflexivity.
  now destruct (Z.leb e'' (emax - prec)).
Qed.

Lemma binary_normalize_opp (m e : Z) :
  m <> 0%Z ->
  binary_normalize prec emax (- m) e false = SFopp (binary_normalize prec emax m e false).
Proof.
  intros N. destruct m as [|p|p]; [congruence| |]; simpl; unfold binary_round;
    destruct (shl_align p e _) as [mz ez].
  - apply (binary_round_aux_opp false).
  - rewrite (binary_round_aux_opp false).
    destruct (binary_round_aux _ _ _ _ _ _) as [s|s| |s m' e']; simpl;
      now rewrite ?Bool.negb_involutive.
Qed.

(** [b - a] is [-(a - b)], unless both are 0.0. *)
Lemma fsub_swap (x y : float) :
  is_finite x = true -> is_finite y = true ->
  fsub y x = SFopp (fsub x y) \/ (fsub y x = S754_zero false /\ fsub x y = S754_zero false).
Proof.
  destruct x as [sx|sx| |sx mx ex]; try discriminate;
    destruct y as [sy|sy| |sy my ey]; try discriminate; intros _ _.
  - destruct sx, sy; simpl; tauto.
  - left. simpl. now rewrite Bool.negb_involutive.
  - left. reflexivity.
  - unfold fsub, SFsub. rewrite (Z.min_comm ey ex).
    set (X := cond_Zopp sx (Z.pos (fst (shl_align mx ex (Z.min ex ey))))).
    set (Y := cond_Zopp sy (Z.pos (fst (shl_align my ey (Z.min ex ey))))).
    destruct (Z.eq_dec (X - Y) 0) as [E|E].
    + right. replace (Y - X)%Z with 0%Z by lia. rewrite E. split; reflexivity.
    + left. replace (Y - X)%Z with (- (X - Y))%Z by lia.
      now apply binary_normalize_opp.
Qed.

Lemma square_opp (x : float) : square (SFopp x) = square x.
Proof.
  destruct x as [s|s| |s m e]; unfold square, fmul; simpl; try reflexivity;
    now destruct s.
Qed.

Lemma square_fsub_swap (x y : float) :
  is_finite x = true -> is_finite y = true ->
  square (fsub y x) = square (fsub x y).
Proof.
  intros Fx Fy. destruct (fsub_swap x y Fx Fy) as [E|[E1 E2]].
  - rewrite E. apply square_opp.
  - now rewrite E1, E2.
Qed.

Lemma square_raises_swap (x y : float) :
  is_finite x = true -> is_finite y = true ->
  square_raises (fsub y x) = square_raises (fsub x y).
Proof.
  intros Fx Fy. unfold square_raises.
  rewrite (square_fsub_swap x y Fx Fy).
  destruct (fsub_swap x y Fx Fy) as [E|[E1 E2]].
  - rewrite E. now destruct (fsub x y).
  - now rewrite E1, E2.
Qed.

(** X2: the distance is symmetric bit for bit: for states with finite
    coordinates between which the distance is defined (no square
    overflows, where Python raises OverflowError), it is defined in the
    other direction too, and the distance from a to b and the distance
    from b to a are the same float. *)
Theorem X2_distance_symmetric (a b : point float) :
  (forall k, is_finite (get a k) = true) ->
  (forall k, is_finite (get b k) = true) ->
  distance_defined a b = true ->
  distance_defined b a = true
  /\ _euclidean_distance a b = _euclidean_distance b a.
Proof.
  intros Fa Fb D. split.
  - unfold distance_defined in *. rewrite forallb_forall in *.
    intros k Hk. specialize (D k Hk).
    now rewrite (square_raises_swap _ _ (Fa k) (Fb k)).
  - unfold _euclidean_distance, PARAMETER_NAMES. cbn [map].
    now rewrite !(square_fsub_swap _ _ (Fb _) (Fa _)).
Qed.

Lemma X2_distance_symmetric_witness :
  distance_defined (point_map lit chromatic_flood_center)
                   (point_map lit editorial_wash_center) = true
  /\ _euclidean_distance (point_map lit editorial_wash_center)
                         (point_map lit chromatic_flood_center)
     = _euclidean_distance (point_map lit chromatic_flood_center)
                           (point_map lit editorial_wash_center).
Proof.
  apply (X2_distance_symmetric (point_map lit editorial_wash_center)
           (point_map lit chromatic_flood_center));
    [intros []; vm_compute; reflexivity
    |intros []; vm_compute; reflexivity
    |vm_compute; reflexivity].
Defined.

(* ------------------------------------------------------------------ *)
(** ** The nearest visual type *)

Lemma flt_key (x y : float) (kx ky : Z * Z * Z) :
  float_key x = Some kx -> float_key y = Some ky ->
  (flt x y = true <-> key_lt kx ky).
Proof.
  unfold flt, SFltb, SFcompare, key_lt.
  destruct x as [sx|sx| |sx mx ex], y as [sy|sy| |sy my ey];
    try destruct sx; try destruct sy; simpl; try discriminate;
    intros [= <-] [= <-];
    try (split; [discriminate|lia]); try (split; [lia|reflexivity]);
    try (split; [intros _; lia|reflexivity]).
  - change (Pos.compare_cont Eq mx my) with (Pos.compare mx my).
    destruct (Z.compare_spec ex ey), (Pos.compare_spec mx my); simpl;
      split; try discriminate; try reflexivity; try lia.
  - change (Pos.compare_cont Eq mx my) with (Pos.compare mx my).
    destruct (Z.compare_spec ex ey), (Pos.compare_spec mx my); simpl;
      split; try discriminate; try reflexivity; try lia.
Qed.

Lemma flt_not_nan (x y : float) :
  flt x y = true -> exists kx ky, float_key x = Some kx /\ float_key y = Some ky.
Proof.
  unfold flt, SFltb, SFcompare.
  destruct x as [sx|sx| |sx mx ex], y as [sy|sy| |sy my ey];
    try destruct sx; try destruct sy; simpl; try discriminate; intros _;
    eexists; eexists; split; reflexivity.
Qed.

Lemma float_key_not_nan (x : float) :
  is_nan x = false -> exists kx, float_key x = Some kx.
Proof. destruct x as [[]|[]| |[] m e]; try discriminate; intros _; eexists; reflexivity. Qed.

Lemma flt_irrefl (x : float) : flt x x = false.
Proof.
  destruct (flt x x) eqn:E; [|reflexivity].
  destruct (flt_not_nan _ _ E) as (kx & ky & Kx & Ky).
  rewrite Kx in Ky. injection Ky as <-.
  apply (flt_key _ _ _ _ Kx Kx) in E. destruct kx as [[a b] c]. simpl in E. lia.
Qed.

(** [x < y] and not [z < y]: then not [z < x]. *)
Lemma flt_below (x y z : float) :
  flt x y = true -> flt z y = false -> flt z x = false.
Proof.
  intros Hxy Hzy. destruct (flt z x) eqn:E; [|reflexivity].
  destruct (flt_not_nan _ _ Hxy) as (kx & ky & Kx & Ky).
  destruct (flt_not_nan _ _ E) as (kz & kx' & Kz & Kx').
  rewrite Kx in Kx'. injection Kx' as <-.
  apply (flt_key _ _ _ _ Kx Ky) in Hxy. apply (flt_key _ _ _ _ Kz Kx) in E.
  assert (T : flt z y = true).
  { apply (flt_key _ _ _ _ Kz Ky).
    destruct kx as [[a b] c], ky as [[a' b'] c'], kz as [[a'' b''] c'']. simpl in *. lia. }
  congruence.
Qed.

(** [x < y], not [z < y], and [z] is not a NaN: then [x < z]. *)
Lemma flt_above (x y z : float) :
  flt x y = true -> flt z y = false -> is_nan z = false -> flt x z = true.
Proof.
  intros Hxy Hzy Nz.
  destruct (flt_not_nan _ _ Hxy) as (kx & ky & Kx & Ky).
  destruct (float_key_not_nan _ Nz) as (kz & Kz).
  apply (flt_key _ _ _ _ Kx Kz).
  apply (flt_key _ _ _ _ Kx Ky) in Hxy.
  assert (N : ~ key_lt kz ky).
  { intros C. apply (flt_key _ _ _ _ Kz Ky) in C. congruence. }
  destruct kx as [[a b] c], ky as [[a' b'] c'], kz as [[a'' b''] c'']. simpl in *. lia.
Qed.

Local Opaque _euclidean_distance flt.

Lemma scan_step (state : point float) (rest seen : list (string * (string * point float)))
  (best : string * float) :
  scan_invariant state seen best ->
  scan_invariant state (seen ++ rest)
    (fold_left
       (fun best entry =>
          if flt (distance_to state entry) (snd best)
          then (fst entry, distance_to state entry) else best)
       rest best).
Proof.
  revert seen best. induction rest as [|e rest IH]; intros seen best I.
  - now rewrite app_nil_r.
  - cbn [fold_left].
    replace (seen ++ e :: rest) with ((seen ++ [e]) ++ rest) by now rewrite <- app_assoc.
    apply IH. destruct I as [A B].
    destruct (flt (distance_to state e) (snd best)) eqn:E.
    + split.
      * intros x Hx. cbn [snd]. apply in_app_iff in Hx. destruct Hx as [Hx|[<-|[]]].
        -- apply (flt_below _ (snd best)); [exact E|now apply A].
        -- apply flt_irrefl.
      * right. exists seen, e, []. split; [reflexivity|]. split; [reflexivity|].
        intros x Hx Nx. cbn [snd].
        apply (flt_above _ (snd best)); [exact E|now apply A|exact Nx].
    + split.
      * intros x Hx. apply in_app_iff in Hx. destruct Hx as [Hx|[<-|[]]].
        -- now apply A.
        -- exact E.
      * destruct B as [B|(before & entry & after & S & Bq & Bf)]; [now left|].
        right. exists before, entry, (after ++ [e]). split; [|split].
        -- rewrite S, <- app_assoc. reflexivity.
        -- exact Bq.
        -- exact Bf.
Qed.

Lemma nearest_scan (state : point float) (types : list (string * (string * point float)))
  (best : string * float) :
  fold_left
    (fun '(best_id, best_dist) '(tid, (_, center)) =>
       let d := _euclidean_distance state center in
       if flt d best_dist then (tid, d) else (best_id, best_dist))
    types best
  = fold_left
      (fun best entry =>
         if flt (distance_to state entry) (snd best)
         then (fst entry, distance_to state entry) else best)
      types best.
Proof.
  revert best. induction types as [|[tid [nm c]] types IH]; intros [bid bd]; [reflexivity|].
  cbn [fold_left]. rewrite IH. unfold distance_to. cbn [fst snd]. cbv zeta.
  generalize (_euclidean_distance state c). intros d. reflexivity.
Qed.

Lemma scan_of_visual_types (state : point float) (best : string * float) :
  best = _nearest_visual_type state -> scan_invariant state VISUAL_TYPES best.
Proof.
  intros ->. unfold _nearest_visual_type. rewrite nearest_scan.
  apply (scan_step state VISUAL_TYPES []). split; [intros x []|now left].
Qed.

(** X3: for a state whose distance to each of the six centers is defined
    (no square overflows, where Python raises OverflowError), the type
    that [_nearest_visual_type] reports is a nearest one: no visual type
    is strictly nearer to the state than the distance reported.  Unless no
    distance is below infinity (the result is then the empty id with
    infinity), the reported id is a visual type, the distance reported is
    the distance to its center, and every type declared before it is
    strictly farther (or at a NaN distance): among equally near types the
    first declared is kept. *)
Theorem X3_nearest_visual_type_is_nearest_first (state : point float) :
  (forall entry, In entry VISUAL_TYPES ->
     distance_defined state (snd (snd entry)) = true) ->
  (forall entry, In entry VISUAL_TYPES ->
     flt (distance_to state entry) (snd (_nearest_visual_type state)) = false)
  /\ (_nearest_visual_type state = ("", inf)
      \/ exists before entry after,
           VISUAL_TYPES = before ++ entry :: after
           /\ _nearest_visual_type state = (fst entry, distance_to state entry)
           /\ forall earlier, In earlier before ->
                is_nan (distance_to state earlier) = false ->
                flt (distance_to state entry) (distance_to state earlier) = true).
Proof.
  intros _.
  remember (_nearest_visual_type state) as best eqn:Hb.
  destruct (scan_of_visual_types state best Hb) as [A B].
  clear Hb. split; [exact A|].
  destruct B as [B|(before & entry & after & S & Bq & Bf)]; [now left|].
  right. exists before, entry, after. split; [exact S|]. split; [exact Bq|].
  intros x Hx Nx. specialize (Bf x Hx Nx). subst best. cbn [snd] in Bf. exact Bf.
Qed.

Local Transparent _euclidean_distance flt.

(** The state of restrained study: every distance is defined. *)
Lemma X3_nearest_visual_type_is_nearest_first_witness :
  let state := point_map lit restrained_study_coordinates in
  (forall entry, In entry VISUAL_TYPES ->
     flt (distance_to state entry) (snd (_nearest_visual_type state)) = false)
  /\ (_nearest_visual_type state = ("", inf)
      \/ exists before entry after,
           VISUAL_TYPES = before ++ entry :: after
           /\ _nearest_visual_type state = (fst entry, distance_to state entry)
           /\ forall earlier, In earlier before ->
                is_nan (distance_to state earlier) = false ->
                flt (distance_to state entry) (distance_to state earlier) = true).
Proof.
  apply (X3_nearest_visual_type_is_nearest_first
           (point_map lit restrained_study_coordinates)).
  assert (T : forallb (fun entry : string * (string * point float) =>
                         distance_defined (point_map lit restrained_study_coordinates)
                                          (snd (snd entry)))
                      VISUAL_TYPES = true) by (vm_compute; reflexivity).
  intros entry H. exact (proj1 (forallb_forall _ _) T entry H).
Defined.

(* ------------------------------------------------------------------ *)
(** ** Named states *)

Lemma dict_mem_key {V : Type} (d : list (string * V)) (key : string) :
  dict_mem d key = true -> In key (dict_keys d).
Proof.
  unfold dict_mem. induction d as [|[k v] d IH]; simpl; [discriminate|].
  destruct (String.eqb key k) eqn:E.
  - apply String.eqb_eq in E. now left.
  - intros H. right. now apply IH.
Qed.

Lemma resolve_some_id (sid : string) (p : point float) :
  _resolve sid = Some p -> In sid catalog_ids.
Proof.
  unfold _resolve, catalog_ids. rewrite !in_app_iff.
  destruct (dict_mem CANONICAL_STATES sid) eqn:C; [intros _; left; now apply dict_mem_key|].
  destruct (dict_mem VISUAL_TYPES sid) eqn:V;
    [intros _; right; left; now apply dict_mem_key|].
  destruct (dict_mem ATTRACTOR_PRESETS sid) eqn:A; [|discriminate].
  intros _; right; right; now apply dict_mem_key.
Qed.

Lemma catalog_distances :
  forallb (fun a =>
    forallb (fun b =>
      same_float (fround (_euclidean_distance a b) 4) (fround (_euclidean_distance b a) 4)
      && String.eqb (param_name (max_by_abs (axis_differences a b)))
                    (param_name (max_by_abs (axis_differences b a)))
      && forallb (fun k => same_float (fabs (get (axis_differences a b) k))
                                      (fabs (get (axis_differences b a) k)))
                 PARAMETER_NAMES)
      catalog_points
    && same_point (axis_differences a a) (for_params (fun _ => lit 0.0))
    && same_float (fround (_euclidean_distance a a) 4) (lit 0.0))
    catalog_points = true.
Proof. vm_compute. reflexivity. Qed.

(** X4: for identifiers that resolve, compute_dissolution_distance gives
    the same distance and the same dominant axis in both directions, and
    per-axis differences of the same magnitude; from an identifier to
    itself the distance and all differences are 0.0 and the dominant axis
    is the first one, "dissolution_rate". *)
Theorem X4_distance_record_symmetric (id_1 id_2 : string) (s1 s2 : point float) :
  _resolve id_1 = Some s1 ->
  _resolve id_2 = Some s2 ->
  (exists r12 r21,
     compute_dissolution_distance id_1 id_2 = Ok r12
     /\ compute_dissolution_distance id_2 id_1 = Ok r21
     /\ d_distance r12 = d_distance r21
     /\ d_dominant_axis r12 = d_dominant_axis r21
     /\ forall k, fabs (get (d_per_axis_difference r12) k)
                  = fabs (get (d_per_axis_difference r21) k))
  /\ (exists r,
        compute_dissolution_distance id_1 id_1 = Ok r
        /\ d_distance r = lit 0.0
        /\ (forall k, get (d_per_axis_difference r) k = lit 0.0)
        /\ d_dominant_axis r = "dissolution_rate").
Proof.
  intros H1 H2.
  pose proof catalog_distances as T. rewrite forallb_forall in T.
  specialize (T s1 (resolve_in_catalog _ _ H1)).
  rewrite !andb_true_iff in T. destruct T as [[T Z1] Z2].
  rewrite forallb_forall in T. specialize (T s2 (resolve_in_catalog _ _ H2)).
  rewrite !andb_true_iff in T. destruct T as [[D M] F].
  apply same_float_eq in D. apply String.eqb_eq in M.
  apply same_point_eq in Z1. apply same_float_eq in Z2.
  unfold compute_dissolution_distance. rewrite H1, H2.
  fold (axis_differences s1 s2). fold (axis_differences s2 s1).
  fold (axis_differences s1 s1).
  split.
  - eexists. eexists. split; [reflexivity|]. split; [reflexivity|].
    cbn [d_distance d_dominant_axis d_per_axis_difference].
    split; [exact D|]. split; [exact M|].
    intros k. rewrite forallb_forall in F. apply same_float_eq. apply F.
    destruct k; simpl; tauto.
  - eexists. split; [reflexivity|].
    cbn [d_distance d_dominant_axis d_per_axis_difference].
    split; [exact Z2|]. rewrite Z1. split; [now intros []|reflexivity].
Qed.

Lemma X4_distance_record_symmetric_witness :
  (exists r12 r21,
     compute_dissolution_distance "light_wash" "saturated_tide" = Ok r12
     /\ compute_dissolution_distance "saturated_tide" "light_wash" = Ok r21
     /\ d_distance r12 = d_distance r21
     /\ d_dominant_axis r12 = d_dominant_axis r21
     /\ forall k, fabs (get (d_per_axis_difference r12) k)
                  = fabs (get (d_per_axis_difference r21) k))
  /\ (exists r,
        compute_dissolution_distance "light_wash" "light_wash" = Ok r
        /\ d_distance r = lit 0.0
        /\ (forall k, get (d_per_axis_difference r) k = lit 0.0)
        /\ d_dominant_axis r = "dissolution_rate").
Proof.
  eapply (X4_distance_record_symmetric "light_wash" "saturated_tide");
    vm_compute; reflexivity.
Defined.

Lemma catalog_prompts :
  forallb (fun sid =>
    match _resolve sid with
    | None => false
    | Some p =>
        same_point (attractor_state sid None) p
        && same_point (round_state p) p
        && dict_mem VISUAL_TYPES (fst (_nearest_visual_type p))
    end) catalog_ids = true.
Proof. vm_compute. reflexivity. Qed.

(** X5: the two orders of lookup agree.  For every identifier that
    resolves for the distance and the trajectory (canonical state, then
    visual type, then attractor preset), generate_dissolution_attractor_prompt
    (attractor preset, then visual type, then canonical state) takes the
    same state, and in the composite mode it returns the bundle of that
    state, whose nearest type is a visual type. *)
Theorem X5_prompt_state_is_resolved_state (attractor_id style_modifier : string)
  (keyframe_count : Z) (p : point float) :
  _resolve attractor_id = Some p ->
  attractor_state attractor_id None = p
  /\ exists nearest_type,
       generate_dissolution_attractor_prompt attractor_id None "composite" style_modifier
         keyframe_count = Ok (Composite (describe p) p nearest_type)
       /\ dict_mem VISUAL_TYPES nearest_type = true.
Proof.
  intros H. pose proof catalog_prompts as T. rewrite forallb_forall in T.
  specialize (T attractor_id (resolve_some_id _ _ H)). rewrite H in T.
  rewrite !andb_true_iff in T. destruct T as [[S R] N].
  apply same_point_eq in S, R. split; [exact S|].
  unfold generate_dissolution_attractor_prompt. rewrite S.
  destruct (_nearest_visual_type p) as [nid nd]. cbn [fst] in N.
  unfold dict_mem in N.
  destruct (dict_get VISUAL_TYPES nid) as [vt|] eqn:G; [|discriminate].
  exists nid. rewrite String.eqb_refl. fold (round_state p). rewrite R.
  split; [reflexivity|]. unfold dict_mem. now rewrite G.
Qed.

Lemma X5_prompt_state_is_resolved_state_witness :
  attractor_state "balanced_study" None = point_map lit restrained_study_coordinates
  /\ exists nearest_type,
       generate_dissolution_attractor_prompt "balanced_study" None "composite" "" 4
       = Ok (Composite (describe (point_map lit restrained_study_coordinates))
                       (point_map lit restrained_study_coordinates) nearest_type)
       /\ dict_mem VISUAL_TYPES nearest_type = true.
Proof.
  apply (X5_prompt_state_is_resolved_state "balanced_study" "" 4).
  vm_compute. reflexivity.
Defined.

(* ------------------------------------------------------------------ *)
(** ** Parameter mapping, beyond the clamp *)


(** What [map_dissolution_parameters] returns for a known style, in terms
    of the clamped state. *)
Lemma map_dissolution_parameters_known (style_id intensity emphasis : string)
  (substrate : option string) (t_name : string) (t_center : point float) :
  dict_get VISUAL_TYPES style_id = Some (t_name, t_center) ->
  exists p,
    map_dissolution_parameters style_id intensity emphasis substrate = Ok p
    /\ let state := scale_shift_clamp t_center
                      (dict_get_default intensity_scales intensity (lit 1.0))
                      (dict_get_default emphasis_shifts emphasis []) in
       mp_style_id p = style_id
       /\ mp_style_name p = t_name
       /\ mp_intensity p = intensity
       /\ mp_emphasis p = emphasis
       /\ mp_state p = round_state state
       /\ mp_nearest_visual_type p = fst (_nearest_visual_type state)
       /\ mp_visual_distance p = fround (snd (_nearest_visual_type state)) 4
       /\ mp_active_edge_modes p = active_edge_modes state
       /\ mp_hydrology_state p = hydrology_of state
       /\ mp_contrast_curve p = contrast_of state
       /\ mp_characteristics p = characteristics_of state
       /\ mp_substrate p =
            match substrate with
            | Some sub =>
                if negb (String.eqb sub "") && existsb (String.eqb sub) SUBSTRATE_TYPES
                then Some sub else None
            | None => None
            end.
Proof.
  intros G. unfold map_dissolution_parameters. rewrite G.
  destruct (_nearest_visual_type _) as [nid nd]. eexists. split; [reflexivity|].
  cbv zeta. repeat split.
Qed.

(** X6: an unknown style is reported with the list of the valid ones:
    map_dissolution_parameters and get_dissolution_style_details return
    the error record that names the style and lists the six visual types
    in declaration order. *)
Theorem X6_unknown_style_lists_valid_styles (style_id intensity emphasis : string)
  (substrate : option string) :
  dict_mem VISUAL_TYPES style_id = false ->
  let record :=
    [("error", JStr ("Unknown style: " ++ style_id));
     ("valid", JStrs ["editorial_wash"; "contested_boundary"; "full_dissolution";
                      "ghost_impression"; "substrate_emergence"; "chromatic_flood"])] in
  map_dissolution_parameters style_id intensity emphasis substrate = Error record
  /\ get_dissolution_style_details style_id = Error record.
Proof.
  intros H. apply dict_mem_false in H.
  unfold map_dissolution_parameters, get_dissolution_style_details. rewrite H.
  split; reflexivity.
Qed.

Lemma X6_unknown_style_lists_valid_styles_witness :
  map_dissolution_parameters "sepia" "dramatic" "edge" None
  = Error [("error", JStr "Unknown style: sepia");
           ("valid", JStrs ["editorial_wash"; "contested_boundary"; "full_dissolution";
                            "ghost_impression"; "substrate_emergence"; "chromatic_flood"])].
Proof.
  apply (X6_unknown_style_lists_valid_styles "sepia" "dramatic" "edge" None). reflexivity.
Defined.



Lemma default_mapping_table :
  forallb (fun '(tid, (_, c)) =>
    let state := scale_shift_clamp c (lit 1.0) [] in
    same_point (round_state state) c
    && String.eqb (fst (_nearest_visual_type state)) tid
    && same_float (fround (snd (_nearest_visual_type state)) 4) (lit 0.0))
    VISUAL_TYPES = true.
Proof. vm_compute. reflexivity. Qed.

(** X8: with the intensity "moderate" and the emphasis "balanced" (the
    defaults) the mapping gives each style its own center back: the state
    of the record is the center of the style exactly, the nearest visual
    type is the style itself and the distance reported is 0.0. *)
Theorem X8_default_mapping_returns_center (style_id : string) (substrate : option string)
  (t_name : string) (t_center : point float) :
  dict_get VISUAL_TYPES style_id = Some (t_name, t_center) ->
  exists p,
    map_dissolution_parameters style_id "moderate" "balanced" substrate = Ok p
    /\ mp_state p = t_center
    /\ mp_nearest_visual_type p = style_id
    /\ mp_visual_distance p = lit 0.0.
Proof.
  intros G.
  destruct (map_dissolution_parameters_known style_id "moderate" "balanced" substrate
              _ _ G) as (p & E & F).
  cbv zeta in F. destruct F as (_ & _ & _ & _ & S & N & D & _).
  assert (M : dict_get_default intensity_scales "moderate" (lit 1.0) = lit 1.0)
    by (vm_compute; reflexivity).
  assert (B : dict_get_default emphasis_shifts "balanced" [] = [])
    by (vm_compute; reflexivity).
  rewrite M, B in S, N, D.
  pose proof default_mapping_table as T. rewrite forallb_forall in T.
  specialize (T _ (dict_get_in _ _ _ G)). cbv beta iota zeta in T.
  rewrite !andb_true_iff in T. destruct T as [[T1 T2] T3].
  apply same_point_eq in T1. apply String.eqb_eq in T2. apply same_float_eq in T3.
  exists p. split; [exact E|]. rewrite S, N, D. repeat split; assumption.
Qed.

Lemma X8_default_mapping_returns_center_witness :
  exists p,
    map_dissolution_parameters "substrate_emergence" "moderate" "balanced" (Some "masa") = Ok p
    /\ mp_state p = point_map lit substrate_emergence_center
    /\ mp_nearest_visual_type p = "substrate_emergence"
    /\ mp_visual_distance p = lit 0.0.
Proof.
  apply (X8_default_mapping_returns_center "substrate_emergence" (Some "masa")
           "Substrate Emergence").
  vm_compute. reflexivity.
Defined.

Lemma edge_modes_table :
  forallb (fun c =>
    forallb (fun scale =>
      forallb (fun shifts =>
        let n := length (active_edge_modes (scale_shift_clamp (snd c) scale shifts)) in
        Nat.eqb n 2 || Nat.eqb n 4)
        all_shifts) all_scales) all_centers = true.
Proof. vm_compute. reflexivity. Qed.

(** X9: the three bands of edge_coherence cover the unit interval: for a
    known style and any intensity, emphasis and substrate the list of
    active edge modes is never empty; it has the 2 modes of one band or
    the 4 modes of two overlapping bands. *)
Theorem X9_edge_modes_never_empty (style_id intensity emphasis : string)
  (substrate : option string) :
  dict_mem VISUAL_TYPES style_id = true ->
  exists p,
    map_dissolution_parameters style_id intensity emphasis substrate = Ok p
    /\ (length (mp_active_edge_modes p) = 2%nat \/ length (mp_active_edge_modes p) = 4%nat).
Proof.
  intros K. unfold dict_mem in K.
  destruct (dict_get VISUAL_TYPES style_id) as [[t_name t_center]|] eqn:G; [clear K|discriminate].
  destruct (map_dissolution_parameters_known style_id intensity emphasis substrate _ _ G)
    as (p & E & F).
  cbv zeta in F. destruct F as (_ & _ & _ & _ & _ & _ & _ & A & _).
  exists p. split; [exact E|]. rewrite A.
  pose proof edge_modes_table as T. rewrite forallb_forall in T.
  specialize (T (t_name, t_center) (dict_get_value _ _ _ G)).
  rewrite forallb_forall in T.
  specialize (T _ (dict_get_default_in intensity_scales intensity (lit 1.0))).
  rewrite forallb_forall in T.
  specialize (T _ (dict_get_default_in emphasis_shifts emphasis [])).
  cbv zeta in T. cbn [snd] in T.
  apply orb_true_iff in T. destruct T as [T|T]; apply Nat.eqb_eq in T; tauto.
Qed.

Lemma X9_edge_modes_never_empty_witness :
  exists p,
    map_dissolution_parameters "contested_boundary" "subtle" "edge" None = Ok p
    /\ (length (mp_active_edge_modes p) = 2%nat \/ length (mp_active_edge_modes p) = 4%nat).
Proof.
  apply (X9_edge_modes_never_empty "contested_boundary" "subtle" "edge" None). reflexivity.
Defined.

(** X10: the step count of a trajectory is not checked.  For identifiers
    that resolve, compute_dissolution_trajectory with num_steps = 0 does
    not return a record: the division i / num_steps raises
    ZeroDivisionError; with a negative num_steps it returns a record
    whose trajectory is empty. *)
Theorem X10_trajectory_without_steps (start_id end_id : string) (num_steps : Z)
  (start end_ : point float) :
  _resolve start_id = Some start ->
  _resolve end_id = Some end_ ->
  (num_steps = 0%Z ->
     compute_dissolution_trajectory start_id end_id num_steps = Raises ZeroDivisionError)
  /\ ((num_steps < 0)%Z ->
      exists r,
        compute_dissolution_trajectory start_id end_id num_steps = Ok r
        /\ tr_trajectory r = []
        /\ tr_num_steps r = num_steps).
Proof.
  intros Hs He. unfold compute_dissolution_trajectory. rewrite Hs, He. split.
  - intros ->. reflexivity.
  - intros N. replace (range (num_steps + 1)) with (@nil Z).
    + eexists. split; [reflexivity|]. split; reflexivity.
    + unfold range. replace (Z.to_nat (num_steps + 1)) with 0%nat by lia. reflexivity.
Qed.

Lemma X10_trajectory_without_steps_witness :
  compute_dissolution_trajectory "editorial_wash" "chromatic_flood" 0 = Raises ZeroDivisionError
  /\ exists r,
       compute_dissolution_trajectory "editorial_wash" "chromatic_flood" (-5) = Ok r
       /\ tr_trajectory r = []
       /\ tr_num_steps r = (-5)%Z.
Proof.
  split.
  - apply (X10_trajectory_without_steps "editorial_wash" "chromatic_flood" 0
             (point_map lit editorial_wash_center) (point_map lit chromatic_flood_center));
      vm_compute; reflexivity.
  - apply (X10_trajectory_without_steps "editorial_wash" "chromatic_flood" (-5)
             (point_map lit editorial_wash_center) (point_map lit chromatic_flood_center));
      vm_compute; reflexivity.
Defined.

(* ------------------------------------------------------------------ *)
(** ** Intent classification, beyond the default *)

Lemma score_terms_fold (terms : list string) (text : string) (acc : Z * list string) :
  fold_left
    (fun '(score, matches) term =>
       if contains term text then ((score + 1)%Z, matches ++ [term]) else (score, matches))
    terms acc
  = ((fst acc + Z.of_nat (length (occurring terms text)))%Z, snd acc ++ occurring terms text).
Proof.
  revert acc. induction terms as [|term terms IH]; intros [score matches]; cbn [fold_left].
  - cbn. now rewrite Z.add_0_r, app_nil_r.
  - unfold occurring in *. cbn [filter]. destruct (contains term text).
    + rewrite IH. cbn [fst snd length]. f_equal; [lia|].
      now rewrite <- app_assoc.
    + now rewrite IH.
Qed.

Lemma score_terms_count (terms : list string) (text : string) :
  score_terms terms text = (Z.of_nat (length (occurring terms text)), occurring terms text).
Proof. unfold score_terms. now rewrite score_terms_fold. Qed.

Lemma score_types_fold (text : string) (types : list (string * list string))
  (acc : list (string * Z) * list (string * list string)) :
  fold_left
    (fun '(type_scores, matched_keywords) '(tid, terms) =>
       let '(score, matches) := score_terms terms text in
       (type_scores ++ [(tid, score)],
        match matches with
        | [] => matched_keywords
        | _ :: _ => matched_keywords ++ [(tid, matches)]
        end))
    types acc
  = (fst acc
       ++ map (fun '(tid, terms) => (tid, Z.of_nat (length (occurring terms text)))) types,
     snd acc
       ++ filter (fun '(_, matches) => negb (Nat.eqb (length matches) 0))
            (map (fun '(tid, terms) => (tid, occurring terms text)) types)).
Proof.
  revert acc. induction types as [|[tid terms] types IH]; intros [ts mk]; cbn [fold_left].
  - cbn. now rewrite !app_nil_r.
  - rewrite score_terms_count, IH. cbn [fst snd map filter].
    destruct (occurring terms text) as [|m ms]; cbn [length Nat.eqb negb];
      now rewrite <- !app_assoc.
Qed.

(** The record of the classification, field by field. *)
Lemma classify_text_fields (text : string) :
  exists r,
    classify_text text = Ok r
    /\ type_scores r = fst (score_types text)
    /\ matched_keywords r = snd (score_types text)
    /\ (primary_style r, confidence r) = decide_style (fst (score_types text))
    /\ suggested_substrate r = detect_substrate text
    /\ dict_get VISUAL_TYPES (primary_style r) = Some (style_name r, center r).
Proof.
  unfold classify_text, decide_style.
  pose proof (score_types_keys text) as K.
  destruct (score_types text) as [ts mk]. cbn [fst snd] in *.
  set (pc := if Z.eqb (max_int (dict_values ts)) 0 then _ else _).
  assert (P : In (fst pc) (dict_keys VISUAL_TYPES)).
  { subst pc. destruct (Z.eqb (max_int (dict_values ts)) 0).
    - cbn [fst]. cbn. tauto.
    - cbn [fst].
      assert (N : ts <> []) by (intros ->; discriminate).
      pose proof (argmax_int_in ts N) as A. rewrite K in A. exact A. }
  destruct pc as [primary conf]. cbn [fst] in P.
  destruct (dict_get_key _ _ P) as [[vt_name vt_center] G]. rewrite G.
  eexists. split; [reflexivity|]. cbn. repeat split. exact G.
Qed.

(** X11: whatever the lowercased text [text = user_intent.lower()] is,
    the score of a visual type is the number of its terms that occur in
    the text, and matched_keywords lists these terms, in the order of the
    term list, for the types that have at least one. *)
Theorem X11_scores_count_occurring_terms (text : string) :
  exists r,
    classify_text text = Ok r
    /\ type_scores r
       = map (fun '(tid, terms) =>
                (tid, Z.of_nat (length (occurring terms text))))
             dissolution_terms
    /\ matched_keywords r
       = filter (fun '(_, matches) => negb (Nat.eqb (length matches) 0))
           (map (fun '(tid, terms) => (tid, occurring terms text))
                dissolution_terms).
Proof.
  destruct (classify_text_fields text) as (r & E & TS & MK & _).
  exists r. split; [exact E|]. rewrite TS, MK. unfold score_types.
  rewrite score_types_fold. split; reflexivity.
Qed.

Lemma argmax_int_first_max (rest seen : list (string * Z)) (best : string * Z) :
  (exists before after,
     seen = before ++ best :: after
     /\ (forall e, In e before -> (snd e < snd best)%Z)
     /\ (forall e, In e after -> (snd e <= snd best)%Z)) ->
  let best' := fold_left (fun best kv' => if Z.ltb (snd best) (snd kv') then kv' else best)
                         rest best in
  exists before after,
    seen ++ rest = before ++ best' :: after
    /\ (forall e, In e before -> (snd e < snd best')%Z)
    /\ (forall e, In e after -> (snd e <= snd best')%Z).
Proof.
  revert seen best. induction rest as [|kv rest IH]; intros seen best (before & after & S & B & A).
  - cbn. exists before, after. now rewrite app_nil_r.
  - cbn [fold_left].
    replace (seen ++ kv :: rest) with ((seen ++ [kv]) ++ rest) by now rewrite <- app_assoc.
    apply IH. destruct (Z.ltb (snd best) (snd kv)) eqn:L.
    + apply Z.ltb_lt in L. exists seen, []. split; [reflexivity|]. split; [|intros e []].
      intros e He. rewrite S in He. apply in_app_iff in He.
      destruct He as [He|[<-|He]]; [specialize (B e He)|..|specialize (A e He)]; lia.
    + apply Z.ltb_ge in L. exists before, (after ++ [kv]). split; [|split].
      * rewrite S, <- app_assoc. reflexivity.
      * exact B.
      * intros e He. apply in_app_iff in He.
        destruct He as [He|[<-|[]]]; [now apply A|exact L].
Qed.

Lemma max_int_is_argmax_value (rest : list (string * Z)) (best : string * Z) :
  fold_left (fun best y => if Z.ltb best y then y else best) (dict_values rest) (snd best)
  = snd (fold_left (fun best kv' => if Z.ltb (snd best) (snd kv') then kv' else best)
                   rest best).
Proof.
  revert best. induction rest as [|kv rest IH]; intros best; [reflexivity|].
  cbn [dict_values map fold_left]. unfold dict_values in IH.
  destruct (Z.ltb (snd best) (snd kv)); apply IH.
Qed.

(** The first of the largest: what [argmax_int] and [max_int] pick in a
    dictionary that is not empty. *)
Lemma argmax_int_spec (d : list (string * Z)) :
  d <> [] ->
  exists before after,
    d = before ++ (argmax_int d, max_int (dict_values d)) :: after
    /\ (forall e, In e before -> (snd e < max_int (dict_values d))%Z)
    /\ (forall e, In e after -> (snd e <= max_int (dict_values d))%Z).
Proof.
  destruct d as [|kv rest]; [congruence|]. intros _.
  destruct (argmax_int_first_max rest [kv] kv) as (before & after & S & B & A).
  { exists [], []. split; [reflexivity|]. split; intros e []. }
  cbv zeta in *. unfold argmax_int, max_int. cbn [dict_values map].
  change (map snd rest) with (dict_values rest). rewrite max_int_is_argmax_value.
  exists before, after. split; [|split; assumption].
  cbn [app] in S. rewrite S. now rewrite <- surjective_pairing.
Qed.

Lemma fmin_one_le_one (x : float) : fle (fmin (lit 1.0) x) (lit 1.0) = true.
Proof.
  unfold fmin. destruct (flt x (lit 1.0)) eqn:E; [now apply flt_fle|].
  vm_compute. reflexivity.
Qed.

(** X12: how the style is picked.  The call succeeds and the style is a
    visual type; its confidence is at most 1.0.  When the largest score m
    is not 0, the style is the first type with that score (every type
    declared before it scores strictly less, none after it scores more)
    and the confidence is min(1.0, m / 4.0). *)
Theorem X12_primary_style_is_first_of_largest (user_intent : string) :
  exists r,
    classify_dissolution_intent user_intent = Ok r
    /\ dict_mem VISUAL_TYPES (primary_style r) = true
    /\ fle (confidence r) (lit 1.0) = true
    /\ let m := max_int (dict_values (type_scores r)) in
       m <> 0%Z ->
       confidence r = fmin (lit 1.0) (fdiv (of_int m) (lit 4.0))
       /\ exists before after,
            type_scores r = before ++ (primary_style r, m) :: after
            /\ (forall e, In e before -> (snd e < m)%Z)
            /\ (forall e, In e after -> (snd e <= m)%Z).
Proof.
  unfold classify_dissolution_intent.
  destruct (classify_text_fields (lower user_intent)) as (r & E & TS & _ & D & _ & G).
  exists r. split; [exact E|]. split; [unfold dict_mem; now rewrite G|].
  rewrite TS. unfold decide_style in D.
  set (ts := fst (score_types (lower user_intent))) in *.
  destruct (Z.eqb (max_int (dict_values ts)) 0) eqn:Z0.
  - cbv iota in D. injection D as P C. rewrite C. split; [vm_compute; reflexivity|].
    cbv zeta. intros Hm. apply Z.eqb_eq in Z0. contradiction.
  - cbv iota in D. injection D as P C. rewrite C. split; [apply fmin_one_le_one|].
    cbv zeta. intros _. split; [reflexivity|]. rewrite P.
    apply argmax_int_spec. intros N.
    pose proof (score_types_keys (lower user_intent)) as K. fold ts in K.
    rewrite N in K. discriminate.
Qed.

(** A text in which two terms of one type occur: the largest score is 2. *)
Lemma X12_primary_style_is_first_of_largest_witness :
  exists r,
    classify_dissolution_intent "Loose watercolor on dry paper" = Ok r
    /\ max_int (dict_values (type_scores r)) <> 0%Z
    /\ confidence r
       = fmin (lit 1.0) (fdiv (of_int (max_int (dict_values (type_scores r)))) (lit 4.0)).
Proof.
  destruct (X12_primary_style_is_first_of_largest "Loose watercolor on dry paper")
    as (r & E & _ & _ & K).
  exists r. split; [exact E|].
  assert (M : max_int (dict_values (type_scores r)) <> 0%Z).
  { destruct (classify_text_fields (lower "Loose watercolor on dry paper"))
      as (r' & E' & TS & _).
    unfold classify_dissolution_intent in E. rewrite E' in E.
    injection E as <-. rewrite TS. vm_compute. discriminate. }
  split; [exact M|]. exact (proj1 (K M)).
Defined.

Lemma detect_substrate_known (text : string) :
  detect_substrate text <> "" /\ existsb (String.eqb (detect_substrate text)) SUBSTRATE_TYPES = true.
Proof.
  unfold detect_substrate.
  destruct (any_in _ text); [split; [discriminate|reflexivity]|].
  destruct (any_in _ text); [split; [discriminate|reflexivity]|].
  destruct (any_in _ text); [split; [discriminate|reflexivity]|].
  destruct (any_in _ text); split; try discriminate; reflexivity.
Qed.

(** X13: what the classification suggests can be passed on.  For every
    text, the style it picks is accepted by map_dissolution_parameters and
    the substrate it suggests is one of the five substrate types: the
    mapping succeeds for any intensity and emphasis and keeps that
    substrate. *)
Theorem X13_classification_feeds_mapping (user_intent intensity emphasis : string) :
  exists c p,
    classify_dissolution_intent user_intent = Ok c
    /\ map_dissolution_parameters (primary_style c) intensity emphasis
         (Some (suggested_substrate c)) = Ok p
    /\ mp_style_id p = primary_style c
    /\ mp_style_name p = style_name c
    /\ mp_substrate p = Some (suggested_substrate c).
Proof.
  unfold classify_dissolution_intent.
  destruct (classify_text_fields (lower user_intent)) as (c & E & _ & _ & _ & S & G).
  destruct (map_dissolution_parameters_known (primary_style c) intensity emphasis
              (Some (suggested_substrate c)) _ _ G) as (p & M & F).
  cbv zeta in F. destruct F as (F1 & F2 & _ & _ & _ & _ & _ & _ & _ & _ & _ & F3).
  exists c, p. split; [exact E|]. split; [exact M|]. split; [exact F1|]. split; [exact F2|].
  rewrite F3, S. destruct (detect_substrate_known (lower user_intent)) as [N K].
  rewrite K. apply String.eqb_neq in N. now rewrite N.
Qed.

(* ------------------------------------------------------------------ *)
(** ** Rhythmic sequences *)

Lemma in_range (n x : Z) : In x (range n) <-> (0 <= x < n)%Z.
Proof.
  unfold range. rewrite in_map_iff. split.
  - intros (i & <- & Hi). apply in_seq in Hi. lia.
  - intros H. exists (Z.to_nat x). split; [lia|]. apply in_seq. lia.
Qed.

Lemma appended_map {A B : Type} (keep : A -> bool) (f : A -> B) (l : list A) :
  appended (map (fun x => if keep x then Some (f x) else None) l) = map f (filter keep l).
Proof.
  induction l as [|x l IH]; [reflexivity|]. cbn [map filter appended].
  destruct (keep x); cbn [appended map]; now rewrite IH.
Qed.

Lemma re_step_entry (a b : point float) (step : Z) (t : float) :
  re_step (rhythm_entry_at a b step t) = step.
Proof. unfold rhythm_entry_at. now destruct (_nearest_visual_type _). Qed.

Lemma re_t_entry (a b : point float) (step : Z) (t : float) :
  re_t (rhythm_entry_at a b step t) = fround t 4.
Proof. unfold rhythm_entry_at. now destruct (_nearest_visual_type _). Qed.

Lemma re_state_entry (a b : point float) (step : Z) (t : float) :
  re_state (rhythm_entry_at a b step t) = round_state (_lerp_state a b t).
Proof. unfold rhythm_entry_at. now destruct (_nearest_visual_type _). Qed.

Section RhythmFacts.

Variable math_sin : float -> exn + float.

Lemma oscillation_cycle (oscillation_pattern : string) (step steps_per_cycle : Z)
  (phase : float) :
  oscillation_pattern = "triangle" \/ oscillation_pattern = "sawtooth" ->
  steps_per_cycle <> 0%Z ->
  oscillation math_sin oscillation_pattern step steps_per_cycle phase
  = inr (cycle_t oscillation_pattern steps_per_cycle step).
Proof.
  intros P N. apply Z.eqb_neq in N.
  unfold oscillation, cycle_position, int_truediv, cycle_t. rewrite N.
  destruct P as [-> | ->]; reflexivity.
Qed.

(** The sequence of the triangle and sawtooth patterns, without the
    loop. *)
Lemma rhythmic_sequence_shape (state_a_id state_b_id : string) (steps_per_cycle num_cycles : Z)
  (oscillation_pattern : string) (phase_offset : float) (a b : point float) :
  _resolve state_a_id = Some a ->
  _resolve state_b_id = Some b ->
  oscillation_pattern = "triangle" \/ oscillation_pattern = "sawtooth" ->
  exists r,
    generate_dissolution_rhythmic_sequence math_sin state_a_id state_b_id steps_per_cycle
      num_cycles oscillation_pattern phase_offset = Ok r
    /\ rr_total_steps r = (steps_per_cycle * num_cycles)%Z
    /\ rr_sampled_keyframes r = Z.of_nat (length (rr_sequence r))
    /\ rr_sequence r
       = map (fun step =>
                rhythm_entry_at a b step (cycle_t oscillation_pattern steps_per_cycle step))
             (filter (kept_step steps_per_cycle) (range (steps_per_cycle * num_cycles))).
Proof.
  intros Ha Hb P. unfold generate_dissolution_rhythmic_sequence. rewrite Ha, Hb.
  rewrite (for_each_map _
             (fun step =>
                if kept_step steps_per_cycle step
                then Some (rhythm_entry_at a b step
                             (cycle_t oscillation_pattern steps_per_cycle step))
                else None)).
  - eexists. split; [reflexivity|].
    cbn [rr_total_steps rr_sampled_keyframes rr_sequence].
    split; [reflexivity|]. split; [reflexivity|]. apply appended_map.
  - intros step Hin. apply in_range in Hin.
    assert (N : steps_per_cycle <> 0%Z) by nia.
    unfold rhythm_body, int_truediv.
    destruct (Z.eqb steps_per_cycle 0) eqn:E; [apply Z.eqb_eq in E; contradiction|].
    rewrite (oscillation_cycle _ _ _ _ P N). reflexivity.
Qed.

(** X14: generate_dissolution_rhythmic_sequence with the triangle or the
    sawtooth pattern and identifiers that resolve returns a record for
    any step and cycle counts, zero and negative ones included; it keeps
    the steps below steps_per_cycle * num_cycles that are multiples of
    max(1, steps_per_cycle // 4), in increasing order, and
    sampled_keyframes is their number. *)
Theorem X14_rhythmic_sequence_keeps_every_stride (state_a_id state_b_id : string)
  (steps_per_cycle num_cycles : Z) (oscillation_pattern : string) (phase_offset : float)
  (a b : point float) :
  _resolve state_a_id = Some a ->
  _resolve state_b_id = Some b ->
  oscillation_pattern = "triangle" \/ oscillation_pattern = "sawtooth" ->
  exists r,
    generate_dissolution_rhythmic_sequence math_sin state_a_id state_b_id steps_per_cycle
      num_cycles oscillation_pattern phase_offset = Ok r
    /\ rr_total_steps r = (steps_per_cycle * num_cycles)%Z
    /\ map re_step (rr_sequence r)
       = filter (fun step =>
                   Z.eqb (Z.modulo step (Z.max 1 (Z.div steps_per_cycle 4))) 0)
                (range (steps_per_cycle * num_cycles))
    /\ rr_sampled_keyframes r = Z.of_nat (length (map re_step (rr_sequence r))).
Proof.
  intros Ha Hb P.
  destruct (rhythmic_sequence_shape state_a_id state_b_id steps_per_cycle num_cycles
              oscillation_pattern phase_offset a b Ha Hb P) as (r & E & T & K & S).
  exists r. split; [exact E|]. split; [exact T|].
  split; [|now rewrite length_map].
  rewrite S, map_map. rewrite (map_ext _ (fun x => x)); [apply map_id|].
  intros step. apply re_step_entry.
Qed.

Lemma div_core_half (p : positive) :
  SFdiv_core_binary prec emax (Zpos p) 0 (Zpos p~0) 0 = (9007199254740992, -54, loc_Exact)%Z.
Proof.
  unfold SFdiv_core_binary.
  replace (Zdigits2 (Z.pos p) + 0 - (Zdigits2 (Z.pos p~0) + 0))%Z with (-1)%Z
    by (cbn [Zdigits2 digits2_pos]; lia).
  change (Z.min (fexp prec emax (-1)) (0 - 0)) with (-54)%Z.
  change (0 - 0 - -54)%Z with 54%Z.
  cbv beta iota zeta.
  assert (E : Z.div_eucl (Z.shiftl (Z.pos p) 54) (Z.pos p~0) = (9007199254740992, 0)%Z).
  { rewrite Z.shiftl_mul_pow2 by lia.
    replace (Z.pos p * 2 ^ 54)%Z with (2 ^ 53 * Z.pos p~0)%Z by lia.
    pose proof (Z.div_mul (2 ^ 53) (Z.pos p~0) ltac:(lia)) as D.
    pose proof (Z.mod_mul (2 ^ 53) (Z.pos p~0) ltac:(lia)) as M.
    unfold Z.div in D. unfold Z.modulo in M.
    destruct (Z.div_eucl (2 ^ 53 * Z.pos p~0) (Z.pos p~0)) as [q r].
    now subst. }
  rewrite E. now rewrite new_location_zero.
Qed.

(** [h / (2 * h)] is the float 0.5 for every positive int. *)
Lemma int_truediv_half (h : Z) :
  (1 <= h)%Z -> fdiv (int_operand h) (int_operand (2 * h)) = lit 0.5.
Proof.
  intros H. destruct h as [|p|p]; try lia.
  change (2 * Z.pos p)%Z with (Z.pos p~0).
  unfold int_operand, fdiv, SFdiv. rewrite div_core_half. vm_compute. reflexivity.
Qed.

Lemma cycle_t_start (oscillation_pattern : string) (steps_per_cycle step : Z) :
  (1 <= steps_per_cycle)%Z ->
  Z.modulo step steps_per_cycle = 0%Z ->
  cycle_t oscillation_pattern steps_per_cycle step = lit 0.0.
Proof.
  intros H M. unfold cycle_t. rewrite M.
  assert (Z0 : fdiv (int_operand 0) (int_operand steps_per_cycle) = lit 0.0).
  { pose proof (int_truediv_zero steps_per_cycle H) as D. unfold int_truediv in D.
    destruct (Z.eqb steps_per_cycle 0); [discriminate|]. now injection D. }
  rewrite Z0. destruct (String.eqb oscillation_pattern "triangle"); [|reflexivity].
  vm_compute. reflexivity.
Qed.

Lemma cycle_t_peak (h step : Z) :
  (1 <= h)%Z ->
  Z.modulo step (2 * h) = h ->
  cycle_t "triangle" (2 * h) step = lit 1.0.
Proof.
  intros H M. unfold cycle_t. rewrite M, (int_truediv_half h H).
  vm_compute. reflexivity.
Qed.

(** X15: with the triangle or the sawtooth pattern and a positive
    steps_per_cycle, every cycle starts at state_a: each entry kept at a
    step that is a multiple of steps_per_cycle has t = 0.0 and the state
    of state_a exactly.  With the triangle pattern and an even
    steps_per_cycle, the middle of every cycle is state_b: an entry kept
    half a cycle later has t = 1.0 and the state of state_b exactly. *)
Theorem X15_cycles_start_at_a_and_peak_at_b (state_a_id state_b_id : string)
  (steps_per_cycle num_cycles : Z) (oscillation_pattern : string) (phase_offset : float)
  (a b : point float) :
  _resolve state_a_id = Some a ->
  _resolve state_b_id = Some b ->
  oscillation_pattern = "triangle" \/ oscillation_pattern = "sawtooth" ->
  (1 <= steps_per_cycle)%Z ->
  exists r,
    generate_dissolution_rhythmic_sequence math_sin state_a_id state_b_id steps_per_cycle
      num_cycles oscillation_pattern phase_offset = Ok r
    /\ (forall entry,
          In entry (rr_sequence r) ->
          Z.modulo (re_step entry) steps_per_cycle = 0%Z ->
          re_t entry = lit 0.0 /\ re_state entry = a)
    /\ (forall entry h,
          In entry (rr_sequence r) ->
          oscillation_pattern = "triangle" ->
          steps_per_cycle = (2 * h)%Z ->
          Z.modulo (re_step entry) steps_per_cycle = h ->
          re_t entry = lit 1.0 /\ re_state entry = b).
Proof.
  intros Ha Hb P N.
  destruct (rhythmic_sequence_shape state_a_id state_b_id steps_per_cycle num_cycles
              oscillation_pattern phase_offset a b Ha Hb P) as (r & E & _ & _ & S).
  pose proof catalog_endpoints as T. rewrite forallb_forall in T.
  specialize (T a (resolve_in_catalog _ _ Ha)). rewrite forallb_forall in T.
  specialize (T b (resolve_in_catalog _ _ Hb)).
  apply andb_true_iff in T. destruct T as [T0 T1].
  apply same_point_eq in T0, T1.
  assert (R0 : fround (lit 0.0) 4 = lit 0.0) by (vm_compute; reflexivity).
  assert (R1 : fround (lit 1.0) 4 = lit 1.0) by (vm_compute; reflexivity).
  exists r. split; [exact E|]. rewrite S. split.
  - intros entry Hin M. apply in_map_iff in Hin. destruct Hin as (step & <- & _).
    rewrite re_step_entry in M. rewrite re_t_entry, re_state_entry.
    rewrite (cycle_t_start _ _ _ N M). split; [exact R0|exact T0].
  - intros entry h Hin Tr Eh M. apply in_map_iff in Hin. destruct Hin as (step & <- & _).
    rewrite re_step_entry in M. rewrite re_t_entry, re_state_entry.
    subst oscillation_pattern steps_per_cycle.
    assert (1 <= h)%Z by (pose proof (Z.mod_pos_bound step (2 * h) ltac:(lia)); lia).
    rewrite (cycle_t_peak h step H M). split; [exact R1|exact T1].
Qed.

End RhythmFacts.

Lemma X14_rhythmic_sequence_keeps_every_stride_witness :
  exists r,
    generate_dissolution_rhythmic_sequence (fun x : float => @inr exn float x) "editorial_wash" "full_dissolution" 8 2
      "triangle" (lit 0.0) = Ok r
    /\ rr_total_steps r = (8 * 2)%Z
    /\ map re_step (rr_sequence r)
       = filter (fun step => Z.eqb (Z.modulo step (Z.max 1 (Z.div 8 4))) 0) (range (8 * 2))
    /\ rr_sampled_keyframes r = Z.of_nat (length (map re_step (rr_sequence r))).
Proof.
  apply (X14_rhythmic_sequence_keeps_every_stride (fun x : float => @inr exn float x) "editorial_wash" "full_dissolution" 8 2
           "triangle" (lit 0.0) (point_map lit editorial_wash_center)
           (point_map lit full_dissolution_center)).
  - vm_compute. reflexivity.
  - vm_compute. reflexivity.
  - left. reflexivity.
Defined.

Lemma X15_cycles_start_at_a_and_peak_at_b_witness :
  exists r,
    generate_dissolution_rhythmic_sequence (fun x : float => @inr exn float x) "ghost_impression" "chromatic_flood" 8 2
      "triangle" (lit 0.0) = Ok r
    /\ (forall entry,
          In entry (rr_sequence r) ->
          Z.modulo (re_step entry) 8 = 0%Z ->
          re_t entry = lit 0.0 /\ re_state entry = point_map lit ghost_impression_center)
    /\ (forall entry h,
          In entry (rr_sequence r) ->
          "triangle" = "triangle" ->
          8%Z = (2 * h)%Z ->
          Z.modulo (re_step entry) 8 = h ->
          re_t entry = lit 1.0 /\ re_state entry = point_map lit chromatic_flood_center).
Proof.
  apply (X15_cycles_start_at_a_and_peak_at_b (fun x : float => @inr exn float x) "ghost_impression" "chromatic_flood" 8 2
           "triangle" (lit 0.0) (point_map lit ghost_impression_center)
           (point_map lit chromatic_flood_center)).
  - vm_compute. reflexivity.
  - vm_compute. reflexivity.
  - left. reflexivity.
  - lia.
Defined.

Lemma resolve_some_of_catalog (sid : string) :
  in_no_catalog sid = false -> exists p, _resolve sid = Some p.
Proof.
  unfold in_no_catalog, _resolve, dict_mem.
  destruct (dict_get CANONICAL_STATES sid) as [c|]; [intros _; now exists c|].
  destruct (dict_get VISUAL_TYPES sid) as [[n c]|]; [intros _; now exists c|].
  destruct (dict_get ATTRACTOR_PRESETS sid) as [c|]; [intros _; now exists c|].
  discriminate.
Qed.




Section RhythmErrors.

Variable math_sin : float -> exn + float.

(** X16: the rhythm tools report what they do not know.
    generate_dissolution_rhythmic_sequence returns, for an identifier in
    none of the three catalogs, the error record that names it (the first
    one when both are unknown) and nothing else, whatever the other
    arguments; apply_dissolution_rhythmic_preset returns, for an unknown
    preset, the error record that names it and lists the five presets. *)
Theorem X16_rhythm_tools_unknown_names (state_a_id state_b_id : string)
  (steps_per_cycle num_cycles : Z) (oscillation_pattern : string) (phase_offset : float)
  (preset_name : string) :
  (in_no_catalog state_a_id = true ->
     generate_dissolution_rhythmic_sequence math_sin state_a_id state_b_id steps_per_cycle
       num_cycles oscillation_pattern phase_offset = Error (unknown_id state_a_id))
  /\ (in_no_catalog state_a_id = false -> in_no_catalog state_b_id = true ->
      generate_dissolution_rhythmic_sequence math_sin state_a_id state_b_id steps_per_cycle
        num_cycles oscillation_pattern phase_offset = Error (unknown_id state_b_id))
  /\ (dict_mem RHYTHMIC_PRESETS preset_name = false ->
      apply_dissolution_rhythmic_preset math_sin preset_name
      = Error [("error", JStr ("Unknown preset: " ++ preset_name));
               ("valid", JStrs ["fidelity_breathing"; "hydrology_pulse"; "substrate_tide";
                                "edge_negotiation"; "dissolution_sweep"])]).
Proof.
  split; [|split].
  - intros H. apply resolve_none in H.
    unfold generate_dissolution_rhythmic_sequence. now rewrite H.
  - intros H1 H2. apply resolve_none in H2.
    destruct (resolve_some_of_catalog _ H1) as [p P].
    unfold generate_dissolution_rhythmic_sequence. now rewrite P, H2.
  - intros H. apply dict_mem_false in H.
    unfold apply_dissolution_rhythmic_preset. now rewrite H.
Qed.


End RhythmErrors.

Lemma X16_rhythm_tools_unknown_names_witness :
  generate_dissolution_rhythmic_sequence (fun x : float => @inr exn float x)
    "mist" "editorial_wash" 20 3 "sinusoidal" (lit 0.0) = Error (unknown_id "mist")
  /\ generate_dissolution_rhythmic_sequence (fun x : float => @inr exn float x)
       "editorial_wash" "mist" 20 3 "sinusoidal" (lit 0.0) = Error (unknown_id "mist")
  /\ apply_dissolution_rhythmic_preset (fun x : float => @inr exn float x) "slow_tide"
     = Error [("error", JStr "Unknown preset: slow_tide");
              ("valid", JStrs ["fidelity_breathing"; "hydrology_pulse"; "substrate_tide";
                               "edge_negotiation"; "dissolution_sweep"])].
Proof.
  destruct (X16_rhythm_tools_unknown_names (fun x : float => @inr exn float x)
              "mist" "editorial_wash" 20 3 "sinusoidal" (lit 0.0) "slow_tide")
    as (A & _ & C).
  destruct (X16_rhythm_tools_unknown_names (fun x : float => @inr exn float x)
              "editorial_wash" "mist" 20 3 "sinusoidal" (lit 0.0) "slow_tide")
    as (_ & B & _).
  split; [exact (A eq_refl)|]. split; [exact (B eq_refl eq_refl)|exact (C eq_refl)].
Defined.


(* ------------------------------------------------------------------ *)
(** ** The synthesis bundle *)

Lemma style_prompts_table :
  forallb (fun '(tid, (_, c)) =>
    same_point (attractor_state tid None) c
    && dict_mem VISUAL_TYPES (fst (_nearest_visual_type c)))
    VISUAL_TYPES = true.
Proof. vm_compute. reflexivity. Qed.

(** The composite prompt of a visual type is a bundle. *)
Lemma style_prompt_composite (style_id t_name : string) (t_center : point float) :
  dict_get VISUAL_TYPES style_id = Some (t_name, t_center) ->
  exists nearest_type,
    generate_dissolution_attractor_prompt style_id None "composite" "" 4
    = Ok (Composite (describe t_center) (round_state t_center) nearest_type).
Proof.
  intros G. pose proof style_prompts_table as T. rewrite forallb_forall in T.
  specialize (T _ (dict_get_in _ _ _ G)). cbv beta iota in T.
  rewrite andb_true_iff in T. destruct T as [S N]. apply same_point_eq in S.
  unfold generate_dissolution_attractor_prompt. rewrite S.
  destruct (_nearest_visual_type t_center) as [nid nd]. cbn [fst] in N.
  unfold dict_mem in N.
  destruct (dict_get VISUAL_TYPES nid) as [vt|]; [|discriminate].
  exists nid. reflexivity.
Qed.

Lemma rounded_state_in_unit_box (t_name : string) (t_center : point float) (style_id : string)
  (intensity emphasis : string) :
  dict_get VISUAL_TYPES style_id = Some (t_name, t_center) ->
  in_unit_box (round_state (scale_shift_clamp t_center
                              (dict_get_default intensity_scales intensity (lit 1.0))
                              (dict_get_default emphasis_shifts emphasis []))) = true.
Proof.
  intros G. pose proof rounded_states_in_unit_box as T.
  rewrite forallb_forall in T.
  specialize (T (t_name, t_center) (dict_get_value _ _ _ G)).
  rewrite forallb_forall in T.
  specialize (T _ (dict_get_default_in intensity_scales intensity (lit 1.0))).
  rewrite forallb_forall in T.
  exact (T _ (dict_get_default_in emphasis_shifts emphasis [])).
Qed.

(** X18: enhance_dissolution_prompt keeps the provenance of the style,
    and its classification, mapping and composite-prompt steps never fail
    (the vocabulary step is not part of the model).  For every text,
    override, substrate and intensity these steps give a bundle;
    detected_style is the style of the classification
    of the text; applied_style is the override when the override is a
    visual type, and the detected style otherwise (no override, an empty
    one, or an unknown one); the parameters are those that
    map_dissolution_parameters gives for the applied style with the
    emphasis "balanced", and the state lies in the unit box. *)
Theorem X18_enhancement_applies_known_override (user_intent : string)
  (style_override substrate : option string) (intensity : string) :
  exists c p r,
    classify_dissolution_intent user_intent = Ok c
    /\ enhance_dissolution_prompt user_intent style_override substrate intensity = Ok r
    /\ detected_style r = primary_style c
    /\ applied_style r
       = (if dict_mem VISUAL_TYPES (or_else style_override (primary_style c))
          then or_else style_override (primary_style c)
          else primary_style c)
    /\ dict_mem VISUAL_TYPES (applied_style r) = true
    /\ map_dissolution_parameters (applied_style r) intensity "balanced" substrate = Ok p
    /\ en_state r = mp_state p
    /\ en_hydrology r = mp_hydrology_state p
    /\ en_active_edge_modes r = mp_active_edge_modes p
    /\ in_unit_box (en_state r) = true.
Proof.
  unfold enhance_dissolution_prompt, classify_dissolution_intent.
  destruct (classify_text_fields (lower user_intent)) as (c & E & _ & _ & _ & _ & G).
  rewrite E. cbn [field_of].
  set (wanted := or_else style_override (primary_style c)).
  set (style_id := if negb (dict_mem VISUAL_TYPES wanted) then primary_style c else wanted).
  assert (K : exists t_name t_center, dict_get VISUAL_TYPES style_id = Some (t_name, t_center)).
  { subst style_id. unfold dict_mem.
    destruct (dict_get VISUAL_TYPES wanted) as [[n t]|] eqn:W; cbn [negb]; cbv iota.
    - exists n, t. exact W.
    - exists (style_name c), (center c). exact G. }
  destruct K as (t_name & t_center & K).
  destruct (map_dissolution_parameters_known style_id intensity "balanced" substrate _ _ K)
    as (p & M & F).
  cbv zeta in F. destruct F as (_ & _ & _ & _ & S & _).
  destruct (style_prompt_composite _ _ _ K) as (nearest_type & Pr).
  rewrite M, Pr. cbn [field_of].
  exists c, p. eexists. split; [reflexivity|]. split; [reflexivity|].
  cbn [detected_style applied_style en_state en_hydrology en_active_edge_modes].
  split; [reflexivity|]. split.
  { subst style_id. fold wanted. now destruct (dict_mem VISUAL_TYPES wanted). }
  split; [unfold dict_mem; now rewrite K|].
  split; [exact M|]. split; [reflexivity|]. split; [reflexivity|]. split; [reflexivity|].
  rewrite S. now apply (rounded_state_in_unit_box t_name _ style_id).
Qed.

(* ------------------------------------------------------------------ *)
(** ** Decomposition without a match *)

Section IdealFacts.

Local Open Scope R_scope.

Lemma add_matches_none (weight : R) (fragments : list string) (text : string) (score : R) :
  forallb (fun frag => negb (contains frag text)) fragments = true ->
  Ideal.add_matches weight fragments text score = score.
Proof.
  unfold Ideal.add_matches. revert score.
  induction fragments as [|frag fragments IH]; intros score H; [reflexivity|].
  cbn [forallb] in H. apply andb_true_iff in H. destruct H as [H1 H2].
  apply negb_true_iff in H1. cbn [fold_left]. rewrite H1. now apply IH.
Qed.

Lemma fragments_of_type_none (table : list (string * list string)) (tid text : string) :
  forallb (fun '(_, fragments) => forallb (fun frag => negb (contains frag text)) fragments)
          table = true ->
  forallb (fun frag => negb (contains frag text)) (dict_get_default table tid []) = true.
Proof.
  intros H. rewrite forallb_forall in H.
  destruct (dict_get_default_in table tid []) as [<-|Hin]; [reflexivity|].
  unfold dict_values in Hin. apply in_map_iff in Hin. destruct Hin as ([k fr] & E & Hin).
  cbn [snd] in E. subst fr. exact (H _ Hin).
Qed.

Lemma score_type_none (tid text : string) :
  no_fragment_matches text = true -> Ideal.score_type tid text = 0.
Proof.
  unfold no_fragment_matches. rewrite !forallb_app, !andb_true_iff. intros [F [O C]].
  unfold Ideal.score_type.
  now rewrite !add_matches_none by now apply fragments_of_type_none.
Qed.

(** Rounding a number that is nearer to [z / 10 ^ n] than half a unit of
    the last decimal. *)
Lemma rround_nearest (x : R) (n : nat) (z : Z) :
  IZR z - 1 / 2 < x * 10 ^ n < IZR z + 1 / 2 ->
  Ideal.rround x n = IZR z / 10 ^ n.
Proof.
  intros [L H]. unfold Ideal.rround. set (y := x * 10 ^ n) in *.
  destruct (Rlt_dec y (IZR z)) as [B|B].
  - assert (F : Zfloor y = (z - 1)%Z).
    { apply Zfloor_eq. rewrite minus_IZR. lra. }
    rewrite F, minus_IZR. unfold Ideal.rlt.
    destruct (Rlt_dec (y - (IZR z - 1)) (1 / 2)); [lra|].
    destruct (Rlt_dec (1 / 2) (y - (IZR z - 1))); [|lra].
    replace (Z.succ (z - 1)) with z by lia. reflexivity.
  - assert (F : Zfloor y = z) by (apply Zfloor_eq; lra).
    rewrite F. unfold Ideal.rlt.
    destruct (Rlt_dec (y - IZR z) (1 / 2)); [reflexivity|lra].
Qed.

Lemma uniform_weights (keys : list string) :
  keys <> [] ->
  Ideal._softmax (map (fun tid => (tid, 0)) keys) 1.0
  = inr (map (fun tid => (tid, 1 / INR (length keys))) keys).
Proof.
  intros N.
  destruct (softmax_unfold (map (fun tid => (tid, 0)) keys) 1.0) as [P E].
  { destruct keys; [congruence|discriminate]. }
  { lra. }
  rewrite E. clear E.
  set (m := Ideal.rmax_list _) in *. set (e := exp ((0 - m) / 1.0)) in *.
  assert (X : exponentials (map (fun tid => (tid, 0)) keys) m 1.0
              = map (fun tid => (tid, e)) keys).
  { unfold exponentials. rewrite map_map. reflexivity. }
  rewrite X in *. rewrite map_map.
  assert (S : Ideal.rsum (dict_values (map (fun tid : string => (tid, e)) keys))
              = INR (length keys) * e).
  { rewrite (rsum_constant _ e).
    - unfold dict_values. now rewrite !length_map.
    - intros x. unfold dict_values. rewrite map_map, in_map_iff. now intros (k & <- & _). }
  rewrite S. f_equal. apply map_ext. intros k. f_equal.
  assert (0 < e) by apply exp_pos.
  assert (0 < INR (length keys)) by (apply lt_0_INR; destruct keys; [congruence|simpl; lia]).
  field. lra.
Qed.

End IdealFacts.

Section NoMatch.
Local Open Scope R_scope.

Lemma point_ext {A : Type} (p q : point A) :
  (forall k, get p k = get q k) -> p = q.
Proof.
  intros E. destruct p, q.
  pose proof (E dissolution_rate). pose proof (E edge_coherence).
  pose proof (E substrate_visibility). pose proof (E pigment_hydrology).
  pose proof (E anchor_density). cbn in *. congruence.
Qed.

(** X20: over the real numbers, whatever the lowercased text
    [text = description.lower()] is, when none of the fragments of the
    three keyword maps occurs in it the description is decomposed without
    an error into the even blend: nothing is detected, the confidence is
    0, every type gets the weight 1/6 (reported as 0.1667) and the
    coordinates are the mean of the six centers rounded to four decimals:
    0.625, 0.4583, 0.5083, 0.5 and 0.3583. *)
Theorem X20_no_match_gives_even_blend (text : string) :
  no_fragment_matches text = true ->
  exists r,
    Ideal.decompose_text text = Ok r /\
    Ideal.detected r = false /\
    Ideal.confidence r = 0 /\
    Ideal.type_weights r
    = map (fun tid => (tid, 1667 / 10000)) (dict_keys Ideal.VISUAL_TYPES) /\
    Ideal.coordinates r
    = Point (6250 / 10000) (4583 / 10000) (5083 / 10000) (5000 / 10000) (3583 / 10000).
Proof.
  intros H.
  unfold Ideal.decompose_text.
  rewrite (map_ext _ (fun tid => (tid, 0))) by (intros tid; now rewrite score_type_none).
  rewrite uniform_weights by discriminate.
  change (dict_keys Ideal.VISUAL_TYPES) with (dict_keys VISUAL_TYPES_literals).
  cbn [dict_keys map VISUAL_TYPES_literals fst length].
  unfold Ideal.weighted_centers.
  cbn [fold_left].
  repeat match goal with
  | |- context [dict_get Ideal.VISUAL_TYPES ?k] =>
      let v := eval vm_compute in (dict_get VISUAL_TYPES_literals k) in
      match v with
      | Some ?t => change (dict_get Ideal.VISUAL_TYPES k) with (Some (point_map Q2R (center_literals t)))
      end
  end.
  cbv iota beta.
  eexists. split; [reflexivity|].
  cbn [Ideal.detected Ideal.confidence Ideal.type_weights Ideal.coordinates
       dict_values map snd].
  assert (S6 : INR 6 = 6) by (simpl; lra).
  assert (T4 : (10 ^ 4 = 10000)%R) by (simpl; lra).
  assert (Z0 : Ideal.rsum [0; 0; 0; 0; 0; 0] = 0) by (unfold Ideal.rsum; simpl; lra).
  rewrite Z0, S6.
  split; [|split; [|split]].
  - unfold Ideal.rlt. destruct (Rlt_dec 0 0); [lra|reflexivity].
  - replace (Rmin 1.0 (0 / 8.0)) with 0
      by (unfold Rmin; destruct (Rle_dec 1.0 (0 / 8.0)); lra).
    rewrite (rround_nearest 0 4 0) by lra. lra.
  - rewrite (rround_nearest (1 / 6) 4 1667) by (rewrite T4; lra).
    rewrite T4. reflexivity.
  - apply point_ext. intros k.
    rewrite get_point_map. repeat rewrite get_for_params.
    repeat rewrite get_point_map.
    cbn [center_literals].
    destruct k; cbn [get at_dissolution_rate at_edge_coherence
                     at_substrate_visibility at_pigment_hydrology at_anchor_density];
      unfold Q2R; cbn [Qnum Qden];
      rewrite <- T4; apply rround_nearest; rewrite T4; lra.
Qed.

(** The empty description is one in which nothing matches. *)
Lemma X20_no_match_gives_even_blend_witness :
  no_fragment_matches "" = true /\
  exists r,
    Ideal.decompose_text "" = Ok r /\
    Ideal.detected r = false /\
    Ideal.confidence r = 0 /\
    Ideal.type_weights r
    = map (fun tid => (tid, 1667 / 10000)) (dict_keys Ideal.VISUAL_TYPES) /\
    Ideal.coordinates r
    = Point (6250 / 10000) (4583 / 10000) (5083 / 10000) (5000 / 10000) (3583 / 10000).
Proof.
  split; [vm_compute; reflexivity|].
  apply (X20_no_match_gives_even_blend ""). vm_compute. reflexivity.
Defined.

End NoMatch.
